(** * Vintage ladder filters (surge, src/common/dsp/filters/VintageLadders.cpp)

    A shallow embedding of the four ladder-filter models (RK, Huovilainen,
    Krajeski, Improved) and of the frequency utility they share, followed
    by the properties stated about them.

    Numbers are IEEE-754 binary32 ([float]) and binary64 ([double]) values,
    taken from the Standard Library's executable specification of
    floating-point arithmetic.  Every C++ operator is one correctly rounded
    operation (to nearest, ties to even) at the type the usual arithmetic
    conversions give it, and every implicit conversion of the source is
    written out; no operation is contracted or carried out in a wider
    format.  A NaN is one value: payloads are not represented.

    Arrays are lists, read with [!!!] and written with [<[i := x]>]; every
    index of the source is a constant or a loop counter within the declared
    size.  A function that writes through a pointer returns the arrays it
    has written. *)

From Stdlib Require Import ZArith Bool Lia.
From Stdlib Require Import Floats.SpecFloat.
From Stdlib Require QArith.
From stdpp Require Import base list.

Local Open Scope Z_scope.

(** ** IEEE-754 arithmetic at the two widths of the source *)

Module IEEE.

(** [float]: binary32, 24 bits of precision, exponents up to 128. *)
Record f32 : Type := F32 { raw32 : spec_float }.
(** [double]: binary64, 53 bits of precision, exponents up to 1024. *)
Record f64 : Type := F64 { raw64 : spec_float }.

Definition prec32 : Z := 24.
Definition emax32 : Z := 128.
Definition prec64 : Z := 53.
Definition emax64 : Z := 1024.

(** Rounding of an arbitrary finite value to a format (round to nearest,
    ties to even); zeros, infinities and NaN pass through. *)
Definition round_to (prec emax : Z) (x : spec_float) : spec_float :=
  match x with
  | S754_finite s m e => binary_round prec emax s m e
  | _ => x
  end.

(** Implicit widening [float -> double] (exact) and narrowing
    [double -> float] (rounds, overflows to infinity). *)
Definition to_double (x : f32) : f64 := F64 (round_to prec64 emax64 (raw32 x)).
Definition to_float (x : f64) : f32 := F32 (round_to prec32 emax32 (raw64 x)).

(** Integer literals promoted to a floating type. *)
Definition int32 (z : Z) : f32 := F32 (binary_normalize prec32 emax32 z 0 false).
Definition int64 (z : Z) : f64 := F64 (binary_normalize prec64 emax64 z 0 false).

(** Decimal literals: the value [n / d] correctly rounded to the format,
    as a compiler converts the literal [n/d] written in decimal. *)
Definition dec32 (n d : positive) : f32 :=
  F32 (SFdiv prec32 emax32 (S754_finite false n 0) (S754_finite false d 0)).
Definition dec64 (n d : positive) : f64 :=
  F64 (SFdiv prec64 emax64 (S754_finite false n 0) (S754_finite false d 0)).

Definition add32 (x y : f32) : f32 := F32 (SFadd prec32 emax32 (raw32 x) (raw32 y)).
Definition sub32 (x y : f32) : f32 := F32 (SFsub prec32 emax32 (raw32 x) (raw32 y)).
Definition mul32 (x y : f32) : f32 := F32 (SFmul prec32 emax32 (raw32 x) (raw32 y)).
Definition opp32 (x : f32) : f32 := F32 (SFopp (raw32 x)).
Definition ltb32 (x y : f32) : bool := SFltb (raw32 x) (raw32 y).
Definition leb32 (x y : f32) : bool := SFleb (raw32 x) (raw32 y).

Definition add64 (x y : f64) : f64 := F64 (SFadd prec64 emax64 (raw64 x) (raw64 y)).
Definition sub64 (x y : f64) : f64 := F64 (SFsub prec64 emax64 (raw64 x) (raw64 y)).
Definition mul64 (x y : f64) : f64 := F64 (SFmul prec64 emax64 (raw64 x) (raw64 y)).
Definition div64 (x y : f64) : f64 := F64 (SFdiv prec64 emax64 (raw64 x) (raw64 y)).
Definition opp64 (x : f64) : f64 := F64 (SFopp (raw64 x)).
Definition ltb64 (x y : f64) : bool := SFltb (raw64 x) (raw64 y).
Definition leb64 (x y : f64) : bool := SFleb (raw64 x) (raw64 y).

(** A value of the format: canonical mantissa, exponent in range. *)
Definition valid32 (x : f32) : bool := valid_binary prec32 emax32 (raw32 x).
Definition valid64 (x : f64) : bool := valid_binary prec64 emax64 (raw64 x).

#[export] Instance f32_inhabited : Inhabited f32 := populate (F32 (S754_zero false)).
#[export] Instance f64_inhabited : Inhabited f64 := populate (F64 (S754_zero false)).

End IEEE.
Export IEEE.

Declare Scope f32_scope.
Delimit Scope f32_scope with f32.
Bind Scope f32_scope with f32.
Infix "+" := add32 : f32_scope.
Infix "-" := sub32 : f32_scope.
Infix "*" := mul32 : f32_scope.
Notation "- x" := (opp32 x) : f32_scope.
Infix "<?" := ltb32 : f32_scope.
Infix "<=?" := leb32 : f32_scope.

Declare Scope f64_scope.
Delimit Scope f64_scope with f64.
Bind Scope f64_scope with f64.
Infix "+" := add64 : f64_scope.
Infix "-" := sub64 : f64_scope.
Infix "*" := mul64 : f64_scope.
Infix "/" := div64 : f64_scope.
Notation "- x" := (opp64 x) : f64_scope.
Infix "<?" := ltb64 : f64_scope.
Infix "<=?" := leb64 : f64_scope.


(** ** Constants of the C library and arrays of the source *)

(** [M_PI] of <math.h>: the double nearest to pi. *)
Definition M_PI : f64 := dec64 314159265358979323846 100000000000000000000.

(** [for (int i = 0; i < n; ++i) body] over a state [s]. *)
Fixpoint for_loop {S : Type} (n : nat) (body : nat -> S -> S) (s : S) : S :=
  match n with
  | O => s
  | Datatypes.S n' => body n' (for_loop n' body s)
  end.

(** [for (int k = lo; k < hi; k++) body]. *)
Definition for_range {S : Type} (lo hi : nat) (body : nat -> S -> S) (s : S) : S :=
  for_loop (hi - lo) (fun i => body (lo + i)%nat) s.

(** A local array declared without an initialiser.  Every such array of the
    source, [out] of the [process] functions apart, has each cell written
    before it is read, so that what it holds at first is immaterial: the
    default value of the type of its cells. *)
Definition uninit {A : Type} `{Inhabited A} (n : nat) : list A := replicate n inhabitant.

(** Two-dimensional arrays [a[i][v]]. *)
Definition get2 {A : Type} `{Inhabited A} (a : list (list A)) (i v : nat) : A :=
  (a !!! i) !!! v.
Definition set2 {A : Type} `{Inhabited A} (a : list (list A)) (i v : nat) (x : A) : list (list A) :=
  <[i := <[v := x]> (a !!! i)]> a.

(** [__m128]: four packed floats, lane 0 at the lowest address. *)
Record m128 : Type := M128 { lane0 : f32; lane1 : f32; lane2 : f32; lane3 : f32 }.

#[export] Instance m128_inhabited : Inhabited m128 :=
  populate (M128 inhabitant inhabitant inhabitant inhabitant).

Definition _mm_store_ps (m : m128) : list f32 := [lane0 m; lane1 m; lane2 m; lane3 m].
Definition _mm_load_ps (p : list f32) : m128 :=
  M128 (p !!! 0%nat) (p !!! 1%nat) (p !!! 2%nat) (p !!! 3%nat).

(** Lane [v] of a packed vector. *)
Definition lane (v : nat) (m : m128) : f32 := _mm_store_ps m !!! v.

(** [QuadFilterUnitState] (declared in QuadFilterUnit.h), by the members the
    source uses: the coefficient block [C], the register block [R] and the
    mask [active], which the source only tests for being set. *)
Record QuadFilterUnitState : Type := {
  C : list m128;
  R : list m128;
  active : list bool
}.

Definition set_R (f : QuadFilterUnitState) (i : nat) (x : m128) : QuadFilterUnitState :=
  {| C := C f; R := <[i := x]> (R f); active := active f |}.

(** [FilterCoefficientMaker]: its member [float C[n_cm_coeffs]]. *)
Record FilterCoefficientMaker : Type := { cmC : list f32 }.

Definition set_C (cm : FilterCoefficientMaker) (i : nat) (x : f32) : FilterCoefficientMaker :=
  {| cmC := <[i := x]> (cmC cm) |}.

(** Modelled from the spec: [SurgeStorage], declared in SurgeStorage.h, which
    is not among the sources.  It holds the member the filters call,
    [note_to_pitch_ignoring_tuning] (the ratio of the frequency of a key to
    that of key 0 under twelve-tone equal temperament), and [note_to_pitch],
    the tuning-aware conversion of the host that the specification names
    (the same ratio under the scale the user has loaded), which the source
    does not call. *)
Record SurgeStorage : Type := {
  note_to_pitch : f32 -> f32;
  note_to_pitch_ignoring_tuning : f32 -> f32
}.

(** What the translation unit takes from its environment: the functions of
    <cmath> it calls, the globals [dsamplerate_os] and [dsamplerate_os_inv]
    (internal sample rate and its reciprocal) and [Tunings::MIDI_0_FREQ]. *)
Class Host : Type := {
  tanh : f64 -> f64;
  exp : f64 -> f64;
  pow : f64 -> f64 -> f64;
  dsamplerate_os : f64;
  dsamplerate_os_inv : f64;
  MIDI_0_FREQ : f64
}.

(** ** namespace VintageLadder::Common *)

Module Common.
Section Common.
Context `{Host}.

(** Modelled from the spec: [limit_range] of vt_dsp/basic_dsp.h is not
    among the sources.  The spec has the value clamped to [[low, high]],
    never rejected and the result always inside the band: the larger of
    [x] and [low], then the smaller of that and [high], each comparison
    yielding its second operand when it does not hold (so that a NaN is
    replaced by [low]). *)
Definition limit_range (x low high : f32) : f32 :=
  let m := if (low <? x)%f32 then x else low in
  if (m <? high)%f32 then m else high.

(** [clampedFrequency] (lines 24-29).  [freq] is a double ([auto], from a
    float times the double [MIDI_0_FREQ]); it is narrowed for the clamp,
    widened by the assignment and narrowed by the return. *)
Definition clampedFrequency (pitch : f32) (storage : SurgeStorage) : f32 :=
  let freq : f64 :=
    (to_double (note_to_pitch_ignoring_tuning storage (pitch + int32 69)%f32) * MIDI_0_FREQ)%f64 in
  let freq : f64 :=
    to_double (limit_range (to_float freq) (dec32 5 1)
                 (to_float (dsamplerate_os * to_double (dec32 3 10))%f64)) in
  to_float freq.

End Common.
End Common.

(** ** namespace VintageLadder::RK *)

Module RK.
Section RK.
Context `{Host}.

(** enum rkm_coeffs *)
Definition rkm_cutoff : nat := 0.
Definition rkm_reso : nat := 1.
Definition rkm_sat : nat := 2.
Definition rkm_satinv : nat := 3.

(** [makeCoefficients] (lines 92-100). *)
Definition makeCoefficients (cm : FilterCoefficientMaker) (freq reso : f32)
    (storage : SurgeStorage) : FilterCoefficientMaker :=
  let pitch := Common.clampedFrequency freq storage in
  let cm := set_C cm rkm_cutoff (to_float (to_double pitch * dec64 2 1 * M_PI)%f64) in
  let cm := set_C cm rkm_reso (reso * int32 6)%f32 in
  let cm := set_C cm rkm_sat (to_float (dec64 3 1)) in
  let cm := set_C cm rkm_satinv (to_float (dec64 3333333333 10000000000)) in
  cm.

(** [clip] (lines 102-108): the product is a float, the polynomial is
    evaluated in double ([1./3.] is a double) and returned as a float. *)
Definition clip (value saturation saturationinverse : f32) : f32 :=
  let v2 : f32 :=
    if (int32 1 <? value * saturationinverse)%f32 then int32 1
    else if (value * saturationinverse <? int32 (-1))%f32 then int32 (-1)
    else (value * saturationinverse)%f32 in
  to_float (to_double saturation
            * (to_double v2 - dec64 1 1 / dec64 3 1 * to_double v2 * to_double v2 * to_double v2))%f64.

(** [calculateDerivatives] (lines 111-121): [clip] takes and returns
    floats, the differences and products are doubles. *)
Definition calculateDerivatives (input : f32) (dstate state : list f64)
    (cutoff resonance saturation saturationInv : f32) : list f64 :=
  let satstate0 := to_double (clip (to_float (state !!! 0%nat)) saturation saturationInv) in
  let satstate1 := to_double (clip (to_float (state !!! 1%nat)) saturation saturationInv) in
  let satstate2 := to_double (clip (to_float (state !!! 2%nat)) saturation saturationInv) in
  let dstate :=
    <[0%nat := (to_double cutoff
                * (to_double (clip (to_float (to_double input - to_double resonance * state !!! 3%nat))
                                saturation saturationInv) - satstate0))%f64]> dstate in
  let dstate := <[1%nat := (to_double cutoff * (satstate0 - satstate1))%f64]> dstate in
  let dstate := <[2%nat := (to_double cutoff * (satstate1 - satstate2))%f64]> dstate in
  let dstate :=
    <[3%nat := (to_double cutoff
                * (satstate2 - to_double (clip (to_float (state !!! 3%nat)) saturation saturationInv)))%f64]>
      dstate in
  dstate.

(** [rungekutteSolver] (lines 123-149). *)
Definition rungekutteSolver (input : f32) (state : list f64)
    (cutoff resonance sat satInv : f32) : list f64 :=
  let stepSize := dsamplerate_os_inv in
  let deriv1 := calculateDerivatives input (uninit 4) state cutoff resonance sat satInv in
  let tempState :=
    for_loop 4 (fun i tempState =>
      <[i := (state !!! i + dec64 5 10 * stepSize * deriv1 !!! i)%f64]> tempState) (uninit 4) in
  let deriv2 := calculateDerivatives input (uninit 4) tempState cutoff resonance sat satInv in
  let tempState :=
    for_loop 4 (fun i tempState =>
      <[i := (state !!! i + dec64 5 10 * stepSize * deriv2 !!! i)%f64]> tempState) tempState in
  let deriv3 := calculateDerivatives input (uninit 4) tempState cutoff resonance sat satInv in
  let tempState :=
    for_loop 4 (fun i tempState =>
      <[i := (state !!! i + stepSize * deriv3 !!! i)%f64]> tempState) tempState in
  let deriv4 := calculateDerivatives input (uninit 4) tempState cutoff resonance sat satInv in
  for_loop 4 (fun i state =>
    <[i := (state !!! i
            + dec64 1 1 / dec64 6 1 * stepSize
              * (deriv1 !!! i + dec64 2 1 * deriv2 !!! i + dec64 2 1 * deriv3 !!! i + deriv4 !!! i))%f64]>
      state) state.

Definition ssew : nat := 4.
Definition n_coef : nat := 4.
Definition n_state : nat := 4.

(** [process] (lines 152-190), first the body of its loop over the lanes
    [v], on the locals [state] and [out].  The array [out] is declared
    without an initialiser and written for the active lanes only:
    [process] takes the four floats found in it on entry as [out0]. *)
Definition process_lane (f : QuadFilterUnitState) (in_ : list f32) (C_ : list (list f32))
    (v : nat) (so : list (list f32) * list f32) : list (list f32) * list f32 :=
  let '(state, out) := so in
  if negb (active f !!! v) then (state, out) else
  let dstate := for_loop n_state (fun i dstate => <[i := to_double (get2 state i v)]> dstate)
                  (uninit n_state) in
  let dstate := rungekutteSolver (in_ !!! v) dstate (get2 C_ rkm_cutoff v) (get2 C_ rkm_reso v)
                  (get2 C_ rkm_sat v) (get2 C_ rkm_satinv v) in
  let out := <[v := to_float (dstate !!! (n_state - 1)%nat)]> out in
  let state := for_loop n_state (fun i state => set2 state i v (to_float (dstate !!! i))) state in
  (state, out).

Definition process (f : QuadFilterUnitState) (inm : m128) (out0 : m128)
    : m128 * QuadFilterUnitState :=
  let in_ := _mm_store_ps inm in
  let out := _mm_store_ps out0 in
  let C_ := for_loop n_coef (fun i C_ => <[i := _mm_store_ps (C f !!! i)]> C_)
              (uninit n_coef) in
  let state := for_loop n_state (fun i state => <[i := _mm_store_ps (R f !!! i)]> state)
                 (uninit n_state) in
  let '(state, out) := for_loop ssew (process_lane f in_ C_) (state, out) in
  let outm := _mm_load_ps out in
  let f := for_loop n_state (fun i f => set_R f i (_mm_load_ps (state !!! i))) f in
  (outm, f).

End RK.
End RK.

(** ** namespace VintageLadder::Huov *)

Module Huov.
Section Huov.
Context `{Host}.

(** enum huov_coeffs *)
Definition h_cutoff : nat := 0.
Definition h_res : nat := 1.
Definition h_thermal : nat := 2.
Definition h_tune : nat := 3.
Definition h_acr : nat := 4.
Definition h_resquad : nat := 5.
(** enum huov_regoffsets *)
Definition h_stage : nat := 0.
Definition h_steageTanh : nat := 4.
Definition h_delay : nat := 7.

(** [makeCoefficients] (lines 220-241). *)
Definition makeCoefficients (cm : FilterCoefficientMaker) (freq reso : f32)
    (storage : SurgeStorage) : FilterCoefficientMaker :=
  let cutoff := Common.clampedFrequency freq storage in
  let cm := set_C cm h_cutoff cutoff in

  let reso := Common.limit_range reso (int32 0) (dec32 994 1000) in

  let fc := (to_double cutoff * dsamplerate_os_inv)%f64 in
  let f := (fc * dec64 5 10)%f64 in
  let fc2 := (fc * fc)%f64 in
  let fc3 := (fc * fc * fc)%f64 in

  let fcr := (dec64 18730 10000 * fc3 + dec64 4955 10000 * fc2 - dec64 6490 10000 * fc
              + dec64 9988 10000)%f64 in
  let acr := (- dec64 39364 10000 * fc2 + dec64 18409 10000 * fc + dec64 9968 10000)%f64 in
  let cm := set_C cm h_acr (to_float acr) in
  let thermal := dec64 25 1000000 in
  let cm := set_C cm h_thermal (to_float thermal) in
  let tune := ((dec64 1 1 - exp (- (int64 2 * M_PI * f * fcr))) / thermal)%f64 in
  let cm := set_C cm h_tune (to_float tune) in

  let cm := set_C cm h_res reso in
  let cm := set_C cm h_resquad (to_float (dec64 4 1 * to_double reso * acr)%f64) in
  cm.

(** [processCore] (lines 243-264), first one pass of its loop over [j].
    [input] is a float; the assignment to [stageTanh[k-1]] inside the
    expression and the reading of [stageTanh[k]] concern two cells. *)
Definition processCore_pass (in_ resQuad thermal tune : f64)
    (r : list f64 * list f64 * list f64) : list f64 * list f64 * list f64 :=
  let '(stage, stageTanh, delay) := r in
  let input : f32 := to_float (in_ - resQuad * delay !!! 5%nat)%f64 in
  let s0 := (delay !!! 0%nat
             + tune * (tanh (to_double input * thermal) - stageTanh !!! 0%nat))%f64 in
  let stage := <[0%nat := s0]> stage in
  let delay := <[0%nat := s0]> delay in
  let '(stage, stageTanh, delay) :=
    for_range 1 4 (fun k '(stage, stageTanh, delay) =>
      let input : f32 := to_float (stage !!! (k - 1)%nat) in
      let t := tanh (to_double input * thermal)%f64 in
      let stageTanh := <[(k - 1)%nat := t]> stageTanh in
      let stage :=
        <[k := (delay !!! k
                + tune * (t - (if negb (k =? 3)%nat then stageTanh !!! k
                               else tanh (delay !!! k * thermal))))%f64]> stage in
      let delay := <[k := stage !!! k]> delay in
      (stage, stageTanh, delay)) (stage, stageTanh, delay) in
  (* 0.5 sample delay for phase compensation *)
  let delay := <[5%nat := ((stage !!! 3%nat + delay !!! 4%nat) * dec64 5 10)%f64]> delay in
  let delay := <[4%nat := stage !!! 3%nat]> delay in
  (stage, stageTanh, delay).

Definition processCore (in_ : f64) (coeff stage stageTanh delay : list f64)
    : f64 * (list f64 * list f64 * list f64) :=
  let resQuad := coeff !!! h_resquad in
  let thermal := coeff !!! h_thermal in
  let tune := coeff !!! h_tune in
  let '(stage, stageTanh, delay) :=
    for_loop 2 (fun j => processCore_pass in_ resQuad thermal tune) (stage, stageTanh, delay) in
  (delay !!! 5%nat, (stage, stageTanh, delay)).

Definition ssew : nat := 4.
Definition n_coef : nat := 6.
Definition n_state : nat := 13.

(** [process] (lines 266-313), first the body of its loop over the lanes. *)
Definition process_lane (f : QuadFilterUnitState) (in_ : list f32) (C_ : list (list f32))
    (v : nat) (so : list (list f32) * list f32) : list (list f32) * list f32 :=
  let '(state, out) := so in
  if negb (active f !!! v) then (state, out) else
  let stage := for_loop 4 (fun i a => <[i := to_double (get2 state i v)]> a) (uninit 4) in
  let stageTanh := for_loop 3 (fun i a => <[i := to_double (get2 state (i + 4) v)]> a) (uninit 3) in
  let delay := for_loop 6 (fun i a => <[i := to_double (get2 state (i + 7) v)]> a) (uninit 6) in
  let coeff := for_loop n_coef (fun i a => <[i := to_double (get2 C_ i v)]> a) (uninit n_coef) in
  let '(o, (stage, stageTanh, delay)) :=
    processCore (to_double (in_ !!! v)) coeff stage stageTanh delay in
  let out := <[v := to_float o]> out in
  let state := for_loop 4 (fun i state => set2 state i v (to_float (stage !!! i))) state in
  let state := for_loop 3 (fun i state => set2 state (i + 4) v (to_float (stageTanh !!! i))) state in
  let state := for_loop 6 (fun i state => set2 state (i + 7) v (to_float (delay !!! i))) state in
  (state, out).

Definition process (f : QuadFilterUnitState) (inm : m128) (out0 : m128)
    : m128 * QuadFilterUnitState :=
  let in_ := _mm_store_ps inm in
  let out := _mm_store_ps out0 in
  let C_ := for_loop n_coef (fun i C_ => <[i := _mm_store_ps (C f !!! i)]> C_)
              (uninit n_coef) in
  let state := for_loop n_state (fun i state => <[i := _mm_store_ps (R f !!! i)]> state)
                 (uninit n_state) in
  let '(state, out) := for_loop ssew (process_lane f in_ C_) (state, out) in
  let outm := _mm_load_ps out in
  let f := for_loop n_state (fun i f => set_R f i (_mm_load_ps (state !!! i))) f in
  (outm, f).

End Huov.
End Huov.

(** ** namespace VintageLadder::Kraj *)

Module Kraj.
Section Kraj.
Context `{Host}.

(** enum kj_coeffs *)
Definition k_cutoff : nat := 0.
Definition k_reso : nat := 1.
Definition k_wc : nat := 2.
Definition k_g : nat := 3.
Definition k_gRes : nat := 4.
Definition k_gComp : nat := 5.
Definition k_drive : nat := 6.
(** enum kj_regoffsets *)
Definition h_state : nat := 0.
Definition h_delay : nat := 5.

(** [makeCoefficients] (lines 339-351); [pow] is the one of <cmath> on
    doubles. *)
Definition makeCoefficients (cm : FilterCoefficientMaker) (freq reso : f32)
    (storage : SurgeStorage) : FilterCoefficientMaker :=
  let cutoff := Common.clampedFrequency freq storage in
  let reso := to_float (to_double reso * dec64 13 10)%f64 in
  let cm := set_C cm k_cutoff cutoff in
  let cm := set_C cm k_reso reso in
  let cm := set_C cm k_wc (to_float (int64 2 * M_PI * to_double cutoff * dsamplerate_os_inv)%f64) in
  let wc := to_double (cmC cm !!! k_wc) in
  let cm := set_C cm k_g
    (to_float (dec64 9892 10000 * wc - dec64 4342 10000 * pow wc (int64 2)
               + dec64 1381 10000 * pow wc (int64 3) - dec64 202 10000 * pow wc (int64 4))%f64) in
  let cm := set_C cm k_gRes
    (to_float (to_double reso
               * (dec64 10029 10000 + dec64 526 10000 * wc - dec64 926 1000 * pow wc (int64 2)
                  + dec64 218 10000 * pow wc (int64 3)))%f64) in
  let cm := set_C cm k_drive (to_float (dec64 1 1)) in
  let cm := set_C cm k_gComp (to_float (dec64 1 1)) in
  cm.

(** [processCore] (lines 353-369). *)
Definition processCore (in_ : f64) (coeff state delay : list f64)
    : f64 * (list f64 * list f64) :=
  let drive := coeff !!! k_drive in
  let gRes := coeff !!! k_gRes in
  let gComp := coeff !!! k_gComp in
  let g := coeff !!! k_g in
  let state :=
    <[0%nat := tanh (drive * (in_ - int64 4 * gRes * (state !!! 4%nat - gComp * in_)))%f64]> state in
  let '(state, delay) :=
    for_loop 4 (fun i '(state, delay) =>
      let state :=
        <[(i + 1)%nat :=
            (g * (dec64 3 10 / dec64 13 10 * state !!! i + int64 1 / dec64 13 10 * delay !!! i
                  - state !!! (i + 1)%nat)
             + state !!! (i + 1)%nat)%f64]> state in
      let delay := <[i := state !!! i]> delay in
      (state, delay)) (state, delay) in
  (state !!! 4%nat, (state, delay)).

Definition ssew : nat := 4.
Definition n_coef : nat := 7.
Definition n_state : nat := 10.

(** [process] (lines 371-416), first the body of its loop over the lanes. *)
Definition process_lane (f : QuadFilterUnitState) (in_ : list f32) (C_ : list (list f32))
    (v : nat) (so : list (list f32) * list f32) : list (list f32) * list f32 :=
  let '(state, out) := so in
  if negb (active f !!! v) then (state, out) else
  let sstate := for_loop 5 (fun i a => <[i := to_double (get2 state i v)]> a) (uninit 5) in
  let delay := for_loop 5 (fun i a => <[i := to_double (get2 state (i + 5) v)]> a) (uninit 5) in
  let coeff := for_loop n_coef (fun i a => <[i := to_double (get2 C_ i v)]> a) (uninit n_coef) in
  let '(o, (sstate, delay)) := processCore (to_double (in_ !!! v)) coeff sstate delay in
  let out := <[v := to_float o]> out in
  let state := for_loop 5 (fun i state => set2 state i v (to_float (sstate !!! i))) state in
  let state := for_loop 5 (fun i state => set2 state (i + 5) v (to_float (delay !!! i))) state in
  (state, out).

Definition process (f : QuadFilterUnitState) (inm : m128) (out0 : m128)
    : m128 * QuadFilterUnitState :=
  let in_ := _mm_store_ps inm in
  let out := _mm_store_ps out0 in
  let C_ := for_loop n_coef (fun i C_ => <[i := _mm_store_ps (C f !!! i)]> C_)
              (uninit n_coef) in
  let state := for_loop n_state (fun i state => <[i := _mm_store_ps (R f !!! i)]> state)
                 (uninit n_state) in
  let '(state, out) := for_loop ssew (process_lane f in_ C_) (state, out) in
  let outm := _mm_load_ps out in
  let f := for_loop n_state (fun i f => set_R f i (_mm_load_ps (state !!! i))) f in
  (outm, f).

End Kraj.
End Kraj.

(** ** namespace VintageLadder::Improved *)

Module Improved.
Section Improved.
Context `{Host}.

(** enum imp_coeffs *)
Definition i_cutoff : nat := 0.
Definition i_reso : nat := 1.
Definition i_x : nat := 2.
Definition i_g : nat := 3.
Definition i_drive : nat := 4.
(** enum imp_regoffsets *)
Definition h_V : nat := 0.
Definition h_dV : nat := 4.
Definition h_tV : nat := 8.

(** [static constexpr float VT = 0.312;] *)
Definition VT : f32 := to_float (dec64 312 1000).

(** [makeCoefficients] (lines 436-444); [cm->C[i_x]] is read back as the
    float it was stored as. *)
Definition makeCoefficients (cm : FilterCoefficientMaker) (freq reso : f32)
    (storage : SurgeStorage) : FilterCoefficientMaker :=
  let cutoff := Common.clampedFrequency freq storage in
  let cm := set_C cm i_cutoff cutoff in
  let cm := set_C cm i_reso (reso * int32 4)%f32 in
  let cm := set_C cm i_x (to_float (M_PI * to_double cutoff * dsamplerate_os_inv)%f64) in
  let cm := set_C cm i_g
    (to_float (dec64 4 1 * M_PI * to_double VT * to_double cutoff
               * (dec64 1 1 - to_double (cmC cm !!! i_x))
               / (dec64 1 1 + to_double (cmC cm !!! i_x)))%f64) in
  let cm := set_C cm i_drive (to_float (dec64 1 1)) in
  cm.

(** [processCore] (lines 446-475). *)
Definition processCore (in_ : f64) (coeff V dV tV : list f64)
    : f64 * (list f64 * list f64 * list f64) :=
  let drive := coeff !!! i_drive in
  let resonance := coeff !!! i_reso in
  let g := coeff !!! i_g in

  let dV0 := (- g * (tanh ((drive * in_ + resonance * V !!! 3%nat) / (dec64 2 1 * to_double VT))
                     + tV !!! 0%nat))%f64 in
  let V := <[0%nat := (V !!! 0%nat + (dV0 + dV !!! 0%nat) * dec64 5 10 * dsamplerate_os_inv)%f64]> V in
  let dV := <[0%nat := dV0]> dV in
  let tV := <[0%nat := tanh (V !!! 0%nat / (dec64 2 1 * to_double VT))%f64]> tV in

  let dV1 := (g * (tV !!! 0%nat - tV !!! 1%nat))%f64 in
  let V := <[1%nat := (V !!! 1%nat + (dV1 + dV !!! 1%nat) * dec64 5 10 * dsamplerate_os_inv)%f64]> V in
  let dV := <[1%nat := dV1]> dV in
  let tV := <[1%nat := tanh (V !!! 1%nat / (dec64 2 1 * to_double VT))%f64]> tV in

  let dV2 := (g * (tV !!! 1%nat - tV !!! 2%nat))%f64 in
  let V := <[2%nat := (V !!! 2%nat + (dV2 + dV !!! 2%nat) * dec64 5 10 * dsamplerate_os_inv)%f64]> V in
  let dV := <[2%nat := dV2]> dV in
  let tV := <[2%nat := tanh (V !!! 2%nat / (dec64 2 1 * to_double VT))%f64]> tV in

  let dV3 := (g * (tV !!! 2%nat - tV !!! 3%nat))%f64 in
  let V := <[3%nat := (V !!! 3%nat + (dV3 + dV !!! 3%nat) * dec64 5 10 * dsamplerate_os_inv)%f64]> V in
  let dV := <[3%nat := dV3]> dV in
  let tV := <[3%nat := tanh (V !!! 3%nat / (dec64 2 1 * to_double VT))%f64]> tV in

  (V !!! 3%nat, (V, dV, tV)).

Definition ssew : nat := 4.
Definition n_coef : nat := 5.
Definition n_state : nat := 12.

(** [process] (lines 477-524), first the body of its loop over the lanes. *)
Definition process_lane (f : QuadFilterUnitState) (in_ : list f32) (C_ : list (list f32))
    (v : nat) (so : list (list f32) * list f32) : list (list f32) * list f32 :=
  let '(state, out) := so in
  if negb (active f !!! v) then (state, out) else
  let V := for_loop 4 (fun i a => <[i := to_double (get2 state i v)]> a) (uninit 4) in
  let dV := for_loop 4 (fun i a => <[i := to_double (get2 state (i + 4) v)]> a) (uninit 4) in
  let tV := for_loop 4 (fun i a => <[i := to_double (get2 state (i + 8) v)]> a) (uninit 4) in
  let coeff := for_loop n_coef (fun i a => <[i := to_double (get2 C_ i v)]> a) (uninit n_coef) in
  let '(o, (V, dV, tV)) := processCore (to_double (in_ !!! v)) coeff V dV tV in
  let out := <[v := to_float o]> out in
  let state := for_loop 4 (fun i state => set2 state i v (to_float (V !!! i))) state in
  let state := for_loop 4 (fun i state => set2 state (i + 4) v (to_float (dV !!! i))) state in
  let state := for_loop 4 (fun i state => set2 state (i + 8) v (to_float (tV !!! i))) state in
  (state, out).

Definition process (f : QuadFilterUnitState) (inm : m128) (out0 : m128)
    : m128 * QuadFilterUnitState :=
  let in_ := _mm_store_ps inm in
  let out := _mm_store_ps out0 in
  let C_ := for_loop n_coef (fun i C_ => <[i := _mm_store_ps (C f !!! i)]> C_)
              (uninit n_coef) in
  let state := for_loop n_state (fun i state => <[i := _mm_store_ps (R f !!! i)]> state)
                 (uninit n_state) in
  let '(state, out) := for_loop ssew (process_lane f in_ C_) (state, out) in
  let outm := _mm_load_ps out in
  let f := for_loop n_state (fun i f => set_R f i (_mm_load_ps (state !!! i))) f in
  (outm, f).

End Improved.
End Improved.

(** ** The four models as one interface *)

(** The host selects one of the four filters and calls its two operations
    uniformly. *)
Inductive Model : Type := RK_model | Huov_model | Kraj_model | Improved_model.

Section Dispatch.
Context `{Host}.

Definition process_of (m : Model) : QuadFilterUnitState -> m128 -> m128 -> m128 * QuadFilterUnitState :=
  match m with
  | RK_model => RK.process
  | Huov_model => Huov.process
  | Kraj_model => Kraj.process
  | Improved_model => Improved.process
  end.

Definition n_coef_of (m : Model) : nat :=
  match m with
  | RK_model => RK.n_coef
  | Huov_model => Huov.n_coef
  | Kraj_model => Kraj.n_coef
  | Improved_model => Improved.n_coef
  end.

Definition n_state_of (m : Model) : nat :=
  match m with
  | RK_model => RK.n_state
  | Huov_model => Huov.n_state
  | Kraj_model => Kraj.n_state
  | Improved_model => Improved.n_state
  end.
End Dispatch.

(** Lane [v] of the first [n] coefficients and of the first [n] registers
    of a voice batch. *)
Definition lane_coefs (n v : nat) (f : QuadFilterUnitState) : list f32 :=
  map (fun i => lane v (C f !!! i)) (seq 0 n).
Definition lane_regs (n v : nat) (f : QuadFilterUnitState) : list f32 :=
  map (fun i => lane v (R f !!! i)) (seq 0 n).

(** ** The per-sample steps as the specification words them

    Each definition below follows the formulas of the specification for
    one scalar step, on the values of the registers rather than on arrays
    and loops.  The arithmetic is that of the source: doubles, rounded at
    each operation, and the narrowings to [float] of the source kept where
    it holds a value in a [float]. *)

Module Reference.
Section Reference.
Context `{Host}.

(** *** RK: classical fourth-order Runge-Kutta *)

Definition vec4 : Type := f64 * f64 * f64 * f64.

Definition vadd (a b : vec4) : vec4 :=
  let '(a1, a2, a3, a4) := a in
  let '(b1, b2, b3, b4) := b in
  (a1 + b1, a2 + b2, a3 + b3, a4 + b4)%f64.

Definition vscale (c : f64) (a : vec4) : vec4 :=
  let '(a1, a2, a3, a4) := a in (c * a1, c * a2, c * a3, c * a4)%f64.

Definition vec4_list (a : vec4) : list f64 :=
  let '(a1, a2, a3, a4) := a in [a1; a2; a3; a4].

(** One step of size [h] of the classical method for [y' = F y]:
    [k1 = F y], [k2 = F (y + h/2 k1)], [k3 = F (y + h/2 k2)],
    [k4 = F (y + h k3)], [y + h/6 (k1 + 2 k2 + 2 k3 + k4)]. *)
Definition rk4_step (F : vec4 -> vec4) (h : f64) (y : vec4) : vec4 :=
  let k1 := F y in
  let k2 := F (vadd y (vscale (dec64 5 10 * h) k1)) in
  let k3 := F (vadd y (vscale (dec64 5 10 * h) k2)) in
  let k4 := F (vadd y (vscale h k3)) in
  vadd y (vscale (dec64 1 1 / dec64 6 1 * h)
            (vadd (vadd (vadd k1 (vscale (dec64 2 1) k2)) (vscale (dec64 2 1) k3)) k4)).

(** The cubic soft-clip [S]: [x] scaled by the reciprocal of the
    saturation, clamped to [[-1, 1]] into [v], then [sat (v - v^3 / 3)];
    evaluated on floats. *)
Definition soft_clip (sat satInv : f32) (x : f32) : f32 :=
  let v : f32 :=
    if (int32 1 <? x * satInv)%f32 then int32 1
    else if (x * satInv <? int32 (-1))%f32 then int32 (-1)
    else (x * satInv)%f32 in
  let v : f64 := to_double v in
  to_float (to_double sat * (v - dec64 1 1 / dec64 3 1 * v * v * v))%f64.

(** The right-hand side of the ladder equations
    [y1' = k (S (x - r y4) - S y1)], [y2' = k (S y1 - S y2)],
    [y3' = k (S y2 - S y3)], [y4' = k (S y3 - S y4)]. *)
Definition ladder_ode (k r sat satInv : f32) (x : f32) (y : vec4) : vec4 :=
  let '(y1, y2, y3, y4) := y in
  let S (z : f64) : f64 := to_double (soft_clip sat satInv (to_float z)) in
  let k := to_double k in
  (k * (S (to_double x - to_double r * y4) - S y1),
   k * (S y1 - S y2),
   k * (S y2 - S y3),
   k * (S y3 - S y4))%f64.

(** *** Frequency utility *)

(** The upper end of the band as the code computes it (line 27),
    [(float)(dsamplerate_os * 0.3f)]: the float nearest the double product
    of the internal sample rate and the float [0.3f].  It need not be 0.3
    times the internal sample rate: at 96 kHz it is 28800.001953125. *)
Definition band_top_computed : f32 :=
  to_float (dsamplerate_os * to_double (dec32 3 10))%f64.

(** The value of a float as a rational number, in lowest terms; none for
    an infinity and for a NaN. *)
Definition value (x : spec_float) : option QArith_base.Q :=
  match x with
  | S754_zero _ => Some (QArith_base.Qmake 0 1)
  | S754_finite s m e =>
      let z := if s then Z.neg m else Z.pos m in
      Some (Qreduction.Qred
              (if 0 <=? e then QArith_base.Qmake (z * 2 ^ e) 1
               else QArith_base.Qmake z (2 ^ Z.to_pos (- e))%positive))
  | _ => None
  end.

(** The upper end of the band in the words of the specification: 0.3
    times the internal sample rate, as a rational number. *)
Definition band_top_stated : option QArith_base.Q :=
  match value (raw64 dsamplerate_os) with
  | Some rate => Some (Qreduction.Qred (QArith_base.Qmult (QArith_base.Qmake 3 10) rate))
  | None => None
  end.

(** The conversion of a pitch to Hz that ignores the tuning, and the
    tuning-aware one of the specification. *)
Definition hz_ignoring_tuning (storage : SurgeStorage) (pitch : f32) : f32 :=
  to_float (to_double (note_to_pitch_ignoring_tuning storage (pitch + int32 69)%f32)
            * MIDI_0_FREQ)%f64.
Definition hz_tuning_aware (storage : SurgeStorage) (pitch : f32) : f32 :=
  to_float (to_double (note_to_pitch storage (pitch + int32 69)%f32) * MIDI_0_FREQ)%f64.

(** *** Huovilainen: the empirical correction [acr] of the coefficients,
    a double, from the clamped cutoff *)

Definition huov_acr (cutoff : f32) : f64 :=
  let fc := (to_double cutoff * dsamplerate_os_inv)%f64 in
  let fc2 := (fc * fc)%f64 in
  (- dec64 39364 10000 * fc2 + dec64 18409 10000 * fc + dec64 9968 10000)%f64.

(** *** Huovilainen: one internal pass, on the cached tanh values and the
    delay taps (the stage values on entry are not read) *)

Definition huov_pass (in_ resquad thermal tune : f64) (stageTanh delay : list f64)
    : list f64 * list f64 * list f64 :=
  let input : f32 := to_float (in_ - resquad * delay !!! 5%nat)%f64 in
  let s0 := (delay !!! 0%nat + tune * (tanh (to_double input * thermal) - stageTanh !!! 0%nat))%f64 in
  let t0 := tanh (to_double (to_float s0) * thermal)%f64 in
  let s1 := (delay !!! 1%nat + tune * (t0 - stageTanh !!! 1%nat))%f64 in
  let t1 := tanh (to_double (to_float s1) * thermal)%f64 in
  let s2 := (delay !!! 2%nat + tune * (t1 - stageTanh !!! 2%nat))%f64 in
  let t2 := tanh (to_double (to_float s2) * thermal)%f64 in
  let s3 := (delay !!! 3%nat + tune * (t2 - tanh (delay !!! 3%nat * thermal)))%f64 in
  ([s0; s1; s2; s3],
   [t0; t1; t2],
   [s0; s1; s2; s3; s3; ((s3 + delay !!! 4%nat) * dec64 5 10)%f64]).

Definition huov_step (in_ resquad thermal tune : f64) (stageTanh delay : list f64)
    : f64 * (list f64 * list f64 * list f64) :=
  let '(_, stageTanh1, delay1) := huov_pass in_ resquad thermal tune stageTanh delay in
  let '(stage2, stageTanh2, delay2) := huov_pass in_ resquad thermal tune stageTanh1 delay1 in
  (delay2 !!! 5%nat, (stage2, stageTanh2, delay2)).

(** *** Krajeski *)

(** One-pole update of a stage output [y] from the new value [x] of the
    stage before it and that stage's delay tap [d]. *)
Definition kraj_pole (g y x d : f64) : f64 :=
  (y + g * (dec64 3 10 / dec64 13 10 * x + int64 1 / dec64 13 10 * d - y))%f64.

Definition kraj_step (in_ drive gRes gComp g : f64) (state delay : list f64)
    : f64 * (list f64 * list f64) :=
  let x0 := tanh (drive * (in_ - int64 4 * gRes * (state !!! 4%nat - gComp * in_)))%f64 in
  let x1 := kraj_pole g (state !!! 1%nat) x0 (delay !!! 0%nat) in
  let x2 := kraj_pole g (state !!! 2%nat) x1 (delay !!! 1%nat) in
  let x3 := kraj_pole g (state !!! 3%nat) x2 (delay !!! 2%nat) in
  let x4 := kraj_pole g (state !!! 4%nat) x3 (delay !!! 3%nat) in
  (x4, ([x0; x1; x2; x3; x4], [x0; x1; x2; x3; delay !!! 4%nat])).

(** *** Improved *)

Definition VT : f64 := to_double (to_float (dec64 312 1000)).

(** Trapezoidal integration of one stage over the step [h]: the new
    voltage, from the old one and the new and old derivatives. *)
Definition trapezoid (V dV_new dV_old h : f64) : f64 :=
  (V + (dV_new + dV_old) * dec64 5 10 * h)%f64.

Definition improved_step (in_ drive resonance g : f64) (V dV tV : list f64)
    : f64 * (list f64 * list f64 * list f64) :=
  let h := dsamplerate_os_inv in
  let dV0 := (- g * (tanh ((drive * in_ + resonance * V !!! 3%nat) / (dec64 2 1 * VT))
                     + tV !!! 0%nat))%f64 in
  let V0 := trapezoid (V !!! 0%nat) dV0 (dV !!! 0%nat) h in
  let tV0 := tanh (V0 / (dec64 2 1 * VT))%f64 in
  let dV1 := (g * (tV0 - tV !!! 1%nat))%f64 in
  let V1 := trapezoid (V !!! 1%nat) dV1 (dV !!! 1%nat) h in
  let tV1 := tanh (V1 / (dec64 2 1 * VT))%f64 in
  let dV2 := (g * (tV1 - tV !!! 2%nat))%f64 in
  let V2 := trapezoid (V !!! 2%nat) dV2 (dV !!! 2%nat) h in
  let tV2 := tanh (V2 / (dec64 2 1 * VT))%f64 in
  let dV3 := (g * (tV2 - tV !!! 3%nat))%f64 in
  let V3 := trapezoid (V !!! 3%nat) dV3 (dV !!! 3%nat) h in
  let tV3 := tanh (V3 / (dec64 2 1 * VT))%f64 in
  (V3, ([V0; V1; V2; V3], [dV0; dV1; dV2; dV3], [tV0; tV1; tV2; tV3])).

End Reference.
End Reference.

(** ** Notions used by the statements and their proofs *)

(** An array of [rows] rows of [cols] cells. *)
Definition shaped {A : Type} `{Inhabited A} (rows cols : nat) (a : list (list A)) : Prop :=
  length a = rows /\ forall i, (i < rows)%nat -> length (a !!! i) = cols.

(** Two configurations of the locals [state] and [out] agree on lane [v]. *)
Definition lane_agree (v : nat) (so so' : list (list f32) * list f32) : Prop :=
  (forall j, get2 so.1 j v = get2 so'.1 j v) /\ so.2 !!! v = so'.2 !!! v.

(** The locals have the declared sizes: [n] rows of [ssew] floats, and
    [ssew] floats of output. *)
Definition locals_ok (n : nat) (so : list (list f32) * list f32) : Prop :=
  shaped n 4 so.1 /\ length so.2 = 4%nat.

(** The four [process] functions are one text around [process_lane]:
    unpack the input, the coefficients and the registers, run the loop over
    the lanes, pack the output and the registers. *)
Definition batch (n_coef n_state : nat)
    (body : QuadFilterUnitState -> list f32 -> list (list f32) -> nat ->
            list (list f32) * list f32 -> list (list f32) * list f32)
    (f : QuadFilterUnitState) (inm out0 : m128) : m128 * QuadFilterUnitState :=
  let in_ := _mm_store_ps inm in
  let out := _mm_store_ps out0 in
  let C_ := for_loop n_coef (fun i C_ => <[i := _mm_store_ps (C f !!! i)]> C_)
              (uninit n_coef) in
  let state := for_loop n_state (fun i state => <[i := _mm_store_ps (R f !!! i)]> state)
                 (uninit n_state) in
  let '(state, out) := for_loop 4 (body f in_ C_) (state, out) in
  let outm := _mm_load_ps out in
  let f := for_loop n_state (fun i f => set_R f i (_mm_load_ps (state !!! i))) f in
  (outm, f).

(** A mantissa and an exponent in canonical position for a format (or a
    zero mantissa). *)
Definition canon (prec emax m e : Z) : Prop :=
  0 <= m /\ (0 < m -> fexp prec emax (Zdigits2 m + e) = e).

(** The floats 0, 1 and 6. *)
Definition sf_zero : spec_float := S754_zero false.
Definition sf_one : spec_float := S754_finite false 8388608 (-23).
Definition sf_six : spec_float := S754_finite false 12582912 (-21).

(** ** Data for the examples *)

Module Example.

(** Stand-ins for the functions of <cmath>, computable on floats: a Pade
    quotient for [tanh], a Taylor polynomial for [exp], products for the
    integer powers the source takes. *)
Definition tanh_standin (x : f64) : f64 :=
  (x * (int64 27 + x * x) / (int64 27 + int64 9 * x * x))%f64.
Definition exp_standin (x : f64) : f64 := (int64 1 + x + x * x / int64 2)%f64.
Definition pow_standin (x y : f64) : f64 :=
  if (int64 3 <? y)%f64 then (x * x * x * x)%f64
  else if (int64 2 <? y)%f64 then (x * x * x)%f64 else (x * x)%f64.

(** A host running the filters at 96 kHz. *)
Definition host : Host := {|
  tanh := tanh_standin;
  exp := exp_standin;
  pow := pow_standin;
  dsamplerate_os := int64 96000;
  dsamplerate_os_inv := (int64 1 / int64 96000)%f64;
  MIDI_0_FREQ := dec64 817579891564371 100000000000000
|}.

(** A storage in which only key 60 is looked up: its ratio to key 0 is
    [2^5] in equal temperament, and [2^6] under the scale loaded (the key
    sounds an octave higher). *)
Definition storage : SurgeStorage := {|
  note_to_pitch := fun _ => int32 64;
  note_to_pitch_ignoring_tuning := fun _ => int32 32
|}.

(** A storage in which only key 144 is looked up: its ratio to key 0 is
    [2^12], a frequency of about 33.5 kHz. *)
Definition storage_high : SurgeStorage := {|
  note_to_pitch := fun _ => int32 4096;
  note_to_pitch_ignoring_tuning := fun _ => int32 4096
|}.

(** A host running the filters at 10 Hz, where 0.3 times the rate is
    below 5 Hz. *)
Definition host_slow : Host := {|
  tanh := tanh_standin;
  exp := exp_standin;
  pow := pow_standin;
  dsamplerate_os := int64 10;
  dsamplerate_os_inv := (int64 1 / int64 10)%f64;
  MIDI_0_FREQ := dec64 817579891564371 100000000000000
|}.

Definition cm : FilterCoefficientMaker := {| cmC := replicate 8 (int32 0) |}.

Definition splat (x : f32) : m128 := M128 x x x x.

(** Two voice batches of sixteen registers that agree on lane 0 and
    differ on lanes 1 and 2; lane 1 of the first is inactive. *)
Definition batch1 : QuadFilterUnitState := {|
  C := map splat [dec32 1643 1; dec32 1 2; int32 3; dec32 1 3; dec32 1 4; dec32 1 5;
                  int32 1; int32 1];
  R := replicate 16 (M128 (dec32 1 8) (dec32 1 16) (int32 0) (dec32 1 4));
  active := [true; false; true; true]
|}.
Definition batch2 : QuadFilterUnitState := {|
  C := map (fun x => M128 x (int32 2) (int32 5) x)
         [dec32 1643 1; dec32 1 2; int32 3; dec32 1 3; dec32 1 4; dec32 1 5;
          int32 1; int32 1];
  R := replicate 16 (M128 (dec32 1 8) (int32 7) (int32 9) (int32 0));
  active := [true; true; false; true]
|}.

Definition in1 : m128 := M128 (int32 1) (int32 2) (int32 3) (int32 4).
Definition in2 : m128 := M128 (int32 1) (int32 0) (int32 0) (int32 0).
Definition garbage1 : m128 := splat (int32 7).
Definition garbage2 : m128 := splat (int32 (-3)).

End Example.

(** ** Notions used by the further properties *)

Definition out_register (m : Model) : nat :=
  match m with
  | RK_model => (RK.n_state - 1)%nat
  | Huov_model => (Huov.h_delay + 5)%nat
  | Kraj_model => (Kraj.h_state + 4)%nat
  | Improved_model => (Improved.h_V + 3)%nat
  end.

Definition with_active (f : QuadFilterUnitState) (a : list bool) : QuadFilterUnitState :=
  {| C := C f; R := R f; active := a |}.

(** Zeros (of either sign) and finite values (zeros included). *)
Definition is_zero (x : spec_float) : bool :=
  match x with S754_zero _ => true | _ => false end.
Definition is_finite (x : spec_float) : bool :=
  match x with S754_zero _ | S754_finite _ _ _ => true | _ => false end.

Definition zero32 (x : f32) : bool := is_zero (raw32 x).
Definition zero64 (x : f64) : bool := is_zero (raw64 x).
(** A finite value of the format. *)
Definition finite32 (x : f32) : bool := valid32 x && is_finite (raw32 x).
Definition finite64 (x : f64) : bool := valid64 x && is_finite (raw64 x).

(** The exponent of a finite value is at most [a]. *)
Definition exponent_le (a : Z) (x : spec_float) : Prop :=
  match x with S754_finite _ _ e => e <= a | _ => True end.

Definition zero_vec (y : Reference.vec4) : Prop :=
  let '(y1, y2, y3, y4) := y in
  zero64 y1 = true /\ zero64 y2 = true /\ zero64 y3 = true /\ zero64 y4 = true.

(** What a model needs of the host to keep silence: a [tanh] that maps
    zeros to zeros, a sample period that is a finite double of [[0, 1]]. *)
Definition keeps_zero (g : f64 -> f64) : Prop := forall z, zero64 z = true -> zero64 (g z) = true.
Definition unit_period (h : f64) : Prop :=
  finite64 h = true /\ (int64 0 <=? h)%f64 = true /\ (h <=? int64 1)%f64 = true.

Definition host_keeps_silence `{Host} (m : Model) : Prop :=
  match m with
  | RK_model => unit_period dsamplerate_os_inv
  | Huov_model | Kraj_model => keeps_zero tanh
  | Improved_model => keeps_zero tanh /\ unit_period dsamplerate_os_inv
  end.

Section Dispatch2.
Context `{Host}.

Definition makeCoefficients_of (m : Model)
    : FilterCoefficientMaker -> f32 -> f32 -> SurgeStorage -> FilterCoefficientMaker :=
  match m with
  | RK_model => RK.makeCoefficients
  | Huov_model => Huov.makeCoefficients
  | Kraj_model => Kraj.makeCoefficients
  | Improved_model => Improved.makeCoefficients
  end.

End Dispatch2.

(** The float 4. *)
Definition sf_four : spec_float := S754_finite false 8388608 (-21).

(** The double 1. *)
Definition df_one : spec_float := S754_finite false 4503599627370496 (-52).

(** ** The step of one lane

    What [process] does for one active lane, on the floats of that lane
    alone: its coefficients [c], its registers [r] and its input [x]; the
    output and the registers it leaves.  The registers are widened to
    double, in the groups the model keeps them in, for the scalar step of
    the model, and what the step leaves is narrowed to float. *)
Section LaneStep.
Context `{Host}.

Definition RK_lane_step (c r : list f32) (x : f32) : f32 * list f32 :=
  let dstate :=
    RK.rungekutteSolver x (map to_double (take 4 r))
      (c !!! RK.rkm_cutoff) (c !!! RK.rkm_reso) (c !!! RK.rkm_sat) (c !!! RK.rkm_satinv) in
  (to_float (dstate !!! (RK.n_state - 1)%nat), map to_float dstate).

Definition Huov_lane_step (c r : list f32) (x : f32) : f32 * list f32 :=
  let '(o, (stage, stageTanh, delay)) :=
    Huov.processCore (to_double x) (map to_double c)
      (map to_double (take 4 r)) (map to_double (take 3 (drop 4 r)))
      (map to_double (take 6 (drop 7 r))) in
  (to_float o, map to_float (stage ++ stageTanh ++ delay)).

Definition Kraj_lane_step (c r : list f32) (x : f32) : f32 * list f32 :=
  let '(o, (sstate, delay)) :=
    Kraj.processCore (to_double x) (map to_double c)
      (map to_double (take 5 r)) (map to_double (take 5 (drop 5 r))) in
  (to_float o, map to_float (sstate ++ delay)).

Definition Improved_lane_step (c r : list f32) (x : f32) : f32 * list f32 :=
  let '(o, (V, dV, tV)) :=
    Improved.processCore (to_double x) (map to_double c)
      (map to_double (take 4 r)) (map to_double (take 4 (drop 4 r)))
      (map to_double (take 4 (drop 8 r))) in
  (to_float o, map to_float (V ++ dV ++ tV)).

Definition lane_step (m : Model) : list f32 -> list f32 -> f32 -> f32 * list f32 :=
  match m with
  | RK_model => RK_lane_step
  | Huov_model => Huov_lane_step
  | Kraj_model => Kraj_lane_step
  | Improved_model => Improved_lane_step
  end.

End LaneStep.

(** ** Data for the further examples *)

Module Quiet.

(** A voice batch at rest: every register zero, every lane active. *)
Definition batch : QuadFilterUnitState := {|
  C := C Example.batch1;
  R := replicate 16 (Example.splat (int32 0));
  active := [true; true; true; true]
|}.

(** A voice batch no lane of which is active. *)
Definition idle : QuadFilterUnitState :=
  with_active Example.batch1 [false; false; false; false].

Definition silence : m128 := Example.splat (int32 0).

(** A coefficient array that holds other values than [Example.cm]. *)
Definition cm : FilterCoefficientMaker := {| cmC := replicate 9 (int32 5) |}.

(** Coefficients of one lane, widened, for the Krajeski and the Improved
    step: the gains at the places [k_gComp], [k_drive] and [i_drive] are 1. *)
Definition kraj_coeff : list f64 :=
  [int64 261; dec64 1 2; dec64 17 1000; dec64 17 1000; dec64 1 2; int64 1; int64 1].
Definition improved_coeff : list f64 :=
  [int64 261; int64 2; dec64 1 100; int64 1000; int64 1].

End Quiet.

(** * Properties *)

(** ** Arrays and loops *)

Lemma for_loop_ext {S : Type} (n : nat) (b1 b2 : nat -> S -> S) (s : S) :
  (forall i s', (i < n)%nat -> b1 i s' = b2 i s') -> for_loop n b1 s = for_loop n b2 s.
Proof.
  induction n as [|n IH]; intros Hb; [reflexivity|].
  simpl. rewrite IH by (intros; apply Hb; lia). apply Hb. lia.
Qed.

Lemma for_loop_rel {S1 S2 : Type} (Rel : S1 -> S2 -> Prop) (n : nat)
    (b1 : nat -> S1 -> S1) (b2 : nat -> S2 -> S2) (s1 : S1) (s2 : S2) :
  Rel s1 s2 ->
  (forall i x y, (i < n)%nat -> Rel x y -> Rel (b1 i x) (b2 i y)) ->
  Rel (for_loop n b1 s1) (for_loop n b2 s2).
Proof.
  intros H0 Hstep. induction n as [|n IH]; [exact H0|].
  simpl. apply Hstep; [lia|]. apply IH. intros; apply Hstep; [lia|assumption].
Qed.

Lemma for_loop_inv {S : Type} (Inv : S -> Prop) (n : nat) (b : nat -> S -> S) (s : S) :
  Inv s -> (forall i x, (i < n)%nat -> Inv x -> Inv (b i x)) -> Inv (for_loop n b s).
Proof.
  intros H0 Hstep. induction n as [|n IH]; [exact H0|].
  simpl. apply Hstep; [lia|]. apply IH. intros; apply Hstep; [lia|assumption].
Qed.

Section Arrays.
Context {A : Type} `{Inhabited A}.
Implicit Types (a : list (list A)) (l : list A).

(** Filling cells [0 .. n-1] of a one-dimensional array. *)
Lemma fill_length n (g : nat -> A) l :
  length (for_loop n (fun i l => <[i := g i]> l) l) = length l.
Proof. induction n as [|n IH]; cbn [for_loop]; [reflexivity|]. by rewrite length_insert. Qed.

Lemma fill_lookup n (g : nat -> A) l j :
  for_loop n (fun i l => <[i := g i]> l) l !!! j
  = if decide (j < n /\ j < length l)%nat then g j else l !!! j.
Proof.
  induction n as [|n IH]; cbn [for_loop].
  - case_decide; [lia|done].
  - rewrite list_lookup_total_insert, fill_length, IH.
    repeat case_decide; try lia; try done.
    by replace j with n by lia.
Qed.

Lemma get2_set2_other_lane a i j v v' x :
  v <> v' -> get2 (set2 a i v x) j v' = get2 a j v'.
Proof.
  intros Hv. unfold get2, set2. rewrite list_lookup_total_insert.
  case_decide as Hd; [|done]. destruct Hd as [-> _].
  by rewrite list_lookup_total_insert_ne.
Qed.

Lemma get2_set2_other_row a i j v v' x :
  i <> j -> get2 (set2 a i v x) j v' = get2 a j v'.
Proof. intros Hi. unfold get2, set2. by rewrite list_lookup_total_insert_ne. Qed.

Lemma get2_set2_same a i v x :
  (i < length a)%nat -> (v < length (a !!! i))%nat -> get2 (set2 a i v x) i v = x.
Proof.
  intros Hi Hv. unfold get2, set2.
  rewrite list_lookup_total_insert_eq by done. by rewrite list_lookup_total_insert_eq.
Qed.

Lemma shaped_set2 rows cols a i v x : shaped rows cols a -> shaped rows cols (set2 a i v x).
Proof.
  intros [Hl Hr]. split; unfold set2.
  - by rewrite length_insert.
  - intros j Hj. rewrite list_lookup_total_insert. case_decide as Hd; [|by apply Hr].
    destruct Hd as [-> _]. rewrite length_insert. by apply Hr.
Qed.

(** Writing column [v] of rows [off .. off+n-1]. *)
Lemma scatter_other_lane n off v v' (g : nat -> A) a j :
  v <> v' ->
  get2 (for_loop n (fun i a => set2 a (i + off) v (g i)) a) j v' = get2 a j v'.
Proof.
  intros Hv. induction n as [|n IH]; cbn [for_loop]; [done|].
  by rewrite get2_set2_other_lane.
Qed.

Lemma scatter_shaped rows cols n off v (g : nat -> A) a :
  shaped rows cols a -> shaped rows cols (for_loop n (fun i a => set2 a (i + off) v (g i)) a).
Proof. intros Ha. apply for_loop_inv; [done|]. intros. by apply shaped_set2. Qed.

Lemma scatter_same_lane rows cols n off v (g : nat -> A) a j :
  shaped rows cols a -> (off + n <= rows)%nat -> (v < cols)%nat ->
  get2 (for_loop n (fun i a => set2 a (i + off) v (g i)) a) j v
  = if decide (off <= j < off + n)%nat then g (j - off)%nat else get2 a j v.
Proof.
  intros Ha Hn Hv. induction n as [|n IH]; cbn [for_loop].
  - case_decide; [lia|done].
  - destruct (decide (n + off = j)%nat) as [<-|Hne].
    + clear IH. pose proof (scatter_shaped rows cols n off v g a Ha) as [Hl Hr].
      rewrite get2_set2_same; [|lia|rewrite Hr; lia].
      case_decide; [|lia]. f_equal. lia.
    + rewrite get2_set2_other_row by done. rewrite IH by lia.
      repeat case_decide; try lia; done.
Qed.

(** The same, for the loops that write rows [0 .. n-1]. *)
Lemma scatter0_eq n v (g : nat -> A) a :
  for_loop n (fun i a => set2 a i v (g i)) a
  = for_loop n (fun i a => set2 a (i + 0) v (g i)) a.
Proof. apply for_loop_ext. intros i s _. by rewrite Nat.add_0_r. Qed.

End Arrays.

(** Reading column [v] of rows [idx 0 .. idx (n-1)] into a local array
    depends on that column only. *)
Lemma gather_ext (idx : nat -> nat) (n v : nat) (s1 s2 : list (list f32)) (a0 : list f64) :
  (forall i, get2 s1 i v = get2 s2 i v) ->
  for_loop n (fun i a => <[i := to_double (get2 s1 (idx i) v)]> a) a0
  = for_loop n (fun i a => <[i := to_double (get2 s2 (idx i) v)]> a) a0.
Proof. intros Hs. apply for_loop_ext. intros i s _. by rewrite Hs. Qed.

(** ** Packed vectors and the register block *)

Lemma lane_load (v : nat) (p : list f32) : (v < 4)%nat -> lane v (_mm_load_ps p) = p !!! v.
Proof.
  intros Hv. unfold lane, _mm_load_ps, _mm_store_ps; cbn [for_loop].
  destruct v as [|[|[|[|v]]]]; try reflexivity. lia.
Qed.

Lemma lane_ge (v : nat) (m : m128) : (4 <= v)%nat -> lane v m = inhabitant.
Proof.
  intros Hv. unfold lane, _mm_store_ps.
  destruct v as [|[|[|[|v]]]]; try lia. reflexivity.
Qed.

(** The locals [state] (or [C]) after the stores of the register block. *)
Lemma store_loop_shaped (Rf : list m128) (n : nat) :
  shaped n 4 (for_loop n (fun i st => <[i := _mm_store_ps (Rf !!! i)]> st) (uninit n)).
Proof.
  split.
  - rewrite fill_length. apply length_replicate.
  - intros i Hi. rewrite fill_lookup. unfold uninit. rewrite length_replicate.
    case_decide; [done|lia].
Qed.

Lemma store_loop_get2 (Rf : list m128) (n i v : nat) :
  get2 (for_loop n (fun i st => <[i := _mm_store_ps (Rf !!! i)]> st) (uninit n)) i v
  = if decide (i < n)%nat then lane v (Rf !!! i) else inhabitant.
Proof.
  unfold get2. rewrite fill_lookup. unfold uninit. rewrite length_replicate.
  repeat case_decide; try lia; try done.
  rewrite (list_lookup_total_alt (replicate n _)), lookup_ge_None_2
    by (rewrite length_replicate; lia).
  by destruct v.
Qed.

(** The register block after the loads that end [process]. *)
Lemma load_loop_C (n : nat) (st : list (list f32)) (f : QuadFilterUnitState) :
  C (for_loop n (fun i f => set_R f i (_mm_load_ps (st !!! i))) f) = C f
  /\ active (for_loop n (fun i f => set_R f i (_mm_load_ps (st !!! i))) f) = active f.
Proof. induction n as [|n IH]; cbn [for_loop]; [done|]. exact IH. Qed.

Lemma load_loop_R (n : nat) (st : list (list f32)) (f : QuadFilterUnitState) :
  R (for_loop n (fun i f => set_R f i (_mm_load_ps (st !!! i))) f)
  = for_loop n (fun i r => <[i := _mm_load_ps (st !!! i)]> r) (R f).
Proof. induction n as [|n IH]; cbn [for_loop set_R R]; [done|]. by rewrite IH. Qed.

Lemma load_loop_lane (n : nat) (st : list (list f32)) (f : QuadFilterUnitState) (i v : nat) :
  (v < 4)%nat ->
  lane v (R (for_loop n (fun i f => set_R f i (_mm_load_ps (st !!! i))) f) !!! i)
  = if decide (i < n /\ i < length (R f))%nat then get2 st i v else lane v (R f !!! i).
Proof.
  intros Hv. rewrite load_loop_R, fill_lookup.
  case_decide; [|done]. by rewrite lane_load.
Qed.

(** ** The loop over the lanes *)

Lemma lane_agree_refl v so : lane_agree v so so.
Proof. by split. Qed.

Lemma lane_agree_trans v so1 so2 so3 :
  lane_agree v so1 so2 -> lane_agree v so2 so3 -> lane_agree v so1 so3.
Proof. intros [H1 H2] [H3 H4]. split; [intros j; by rewrite H1|congruence]. Qed.

Lemma lane_agree_sym v so1 so2 : lane_agree v so1 so2 -> lane_agree v so2 so1.
Proof. intros [H1 H2]. split; [intros j; by rewrite H1|congruence]. Qed.

Section Lanes.
Context `{Host}.

Ltac lane_start so f v :=
  destruct so as [st out]; cbn [fst snd];
  destruct (active f !!! v) eqn:Hact; cbn [negb fst snd].

Ltac scatter_ok := rewrite ?scatter0_eq; repeat apply scatter_shaped; assumption.

Ltac scatter_other := rewrite ?scatter0_eq, ?scatter_other_lane by done.

Ltac scatter_same n :=
  rewrite ?scatter0_eq;
  repeat (rewrite !(scatter_same_lane n 4) by (scatter_ok || assumption || (cbv; lia))).

(** *** RK *)

Lemma RK_lane_inactive f in_ C_ v so :
  active f !!! v = false -> RK.process_lane f in_ C_ v so = so.
Proof. intros Hv. destruct so. unfold RK.process_lane. by rewrite Hv. Qed.

Lemma RK_lane_other f in_ C_ v v' so :
  v <> v' -> lane_agree v (RK.process_lane f in_ C_ v' so) so.
Proof.
  intros Hv. unfold RK.process_lane. lane_start so f v'; [|apply lane_agree_refl].
  
  split; cbn [fst snd]; [intros j; by scatter_other|by rewrite list_lookup_total_insert_ne].
Qed.

Lemma RK_lane_ok f in_ C_ v so :
  locals_ok RK.n_state so -> locals_ok RK.n_state (RK.process_lane f in_ C_ v so).
Proof.
  intros [Hs Ho]. unfold RK.process_lane. lane_start so f v; [|by split].
  
  split; cbn [fst snd]; [scatter_ok|by rewrite length_insert].
Qed.

Lemma RK_lane_same f1 f2 in1 in2 C1 C2 v so1 so2 :
  (v < 4)%nat ->
  active f1 !!! v = true -> active f2 !!! v = true -> in1 !!! v = in2 !!! v ->
  (forall i, get2 C1 i v = get2 C2 i v) ->
  locals_ok RK.n_state so1 -> locals_ok RK.n_state so2 ->
  (forall j, get2 so1.1 j v = get2 so2.1 j v) ->
  lane_agree v (RK.process_lane f1 in1 C1 v so1) (RK.process_lane f2 in2 C2 v so2).
Proof.
  intros Hv Ha1 Ha2 Hi HC [Hs1 Ho1] [Hs2 Ho2] Hst.
  destruct so1 as [st1 out1], so2 as [st2 out2]. cbn [fst snd] in *.
  unfold RK.process_lane. rewrite Ha1, Ha2; cbn [negb].
  rewrite (gather_ext (fun i => i) _ v st1 st2) by done.
  rewrite Hi. rewrite !HC.
  split; cbn [fst snd].
  - intros j. scatter_same RK.n_state. repeat case_decide; try done; apply Hst.
  - rewrite !list_lookup_total_insert_eq by lia. done.
Qed.

(** *** Huov *)

Lemma Huov_lane_inactive f in_ C_ v so :
  active f !!! v = false -> Huov.process_lane f in_ C_ v so = so.
Proof. intros Hv. destruct so. unfold Huov.process_lane. by rewrite Hv. Qed.

Lemma Huov_lane_other f in_ C_ v v' so :
  v <> v' -> lane_agree v (Huov.process_lane f in_ C_ v' so) so.
Proof.
  intros Hv. unfold Huov.process_lane. lane_start so f v'; [|apply lane_agree_refl].
  destruct (Huov.processCore _ _ _ _ _) as [o [[a b] c]].
  split; cbn [fst snd]; [intros j; by scatter_other|by rewrite list_lookup_total_insert_ne].
Qed.

Lemma Huov_lane_ok f in_ C_ v so :
  locals_ok Huov.n_state so -> locals_ok Huov.n_state (Huov.process_lane f in_ C_ v so).
Proof.
  intros [Hs Ho]. unfold Huov.process_lane. lane_start so f v; [|by split].
  destruct (Huov.processCore _ _ _ _ _) as [o [[a b] c]].
  split; cbn [fst snd]; [scatter_ok|by rewrite length_insert].
Qed.

Lemma Huov_lane_same f1 f2 in1 in2 C1 C2 v so1 so2 :
  (v < 4)%nat ->
  active f1 !!! v = true -> active f2 !!! v = true -> in1 !!! v = in2 !!! v ->
  (forall i, get2 C1 i v = get2 C2 i v) ->
  locals_ok Huov.n_state so1 -> locals_ok Huov.n_state so2 ->
  (forall j, get2 so1.1 j v = get2 so2.1 j v) ->
  lane_agree v (Huov.process_lane f1 in1 C1 v so1) (Huov.process_lane f2 in2 C2 v so2).
Proof.
  intros Hv Ha1 Ha2 Hi HC [Hs1 Ho1] [Hs2 Ho2] Hst.
  destruct so1 as [st1 out1], so2 as [st2 out2]. cbn [fst snd] in *.
  unfold Huov.process_lane. rewrite Ha1, Ha2; cbn [negb].
  rewrite (gather_ext (fun i => i) _ v st1 st2) by done.
  rewrite (gather_ext (fun i => (i + 4)%nat) _ v st1 st2) by done.
  rewrite (gather_ext (fun i => (i + 7)%nat) _ v st1 st2) by done.
  rewrite Hi. rewrite (gather_ext (fun i => i) _ v C1 C2) by done.
  destruct (Huov.processCore _ _ _ _ _) as [o [[a b] c]].
  split; cbn [fst snd].
  - intros j. scatter_same Huov.n_state. repeat case_decide; try done; apply Hst.
  - rewrite !list_lookup_total_insert_eq by lia. done.
Qed.

(** *** Kraj *)

Lemma Kraj_lane_inactive f in_ C_ v so :
  active f !!! v = false -> Kraj.process_lane f in_ C_ v so = so.
Proof. intros Hv. destruct so. unfold Kraj.process_lane. by rewrite Hv. Qed.

Lemma Kraj_lane_other f in_ C_ v v' so :
  v <> v' -> lane_agree v (Kraj.process_lane f in_ C_ v' so) so.
Proof.
  intros Hv. unfold Kraj.process_lane. lane_start so f v'; [|apply lane_agree_refl].
  destruct (Kraj.processCore _ _ _ _) as [o [a b]].
  split; cbn [fst snd]; [intros j; by scatter_other|by rewrite list_lookup_total_insert_ne].
Qed.

Lemma Kraj_lane_ok f in_ C_ v so :
  locals_ok Kraj.n_state so -> locals_ok Kraj.n_state (Kraj.process_lane f in_ C_ v so).
Proof.
  intros [Hs Ho]. unfold Kraj.process_lane. lane_start so f v; [|by split].
  destruct (Kraj.processCore _ _ _ _) as [o [a b]].
  split; cbn [fst snd]; [scatter_ok|by rewrite length_insert].
Qed.

Lemma Kraj_lane_same f1 f2 in1 in2 C1 C2 v so1 so2 :
  (v < 4)%nat ->
  active f1 !!! v = true -> active f2 !!! v = true -> in1 !!! v = in2 !!! v ->
  (forall i, get2 C1 i v = get2 C2 i v) ->
  locals_ok Kraj.n_state so1 -> locals_ok Kraj.n_state so2 ->
  (forall j, get2 so1.1 j v = get2 so2.1 j v) ->
  lane_agree v (Kraj.process_lane f1 in1 C1 v so1) (Kraj.process_lane f2 in2 C2 v so2).
Proof.
  intros Hv Ha1 Ha2 Hi HC [Hs1 Ho1] [Hs2 Ho2] Hst.
  destruct so1 as [st1 out1], so2 as [st2 out2]. cbn [fst snd] in *.
  unfold Kraj.process_lane. rewrite Ha1, Ha2; cbn [negb].
  rewrite (gather_ext (fun i => i) _ v st1 st2) by done.
  rewrite (gather_ext (fun i => (i + 5)%nat) _ v st1 st2) by done.
  rewrite Hi. rewrite (gather_ext (fun i => i) _ v C1 C2) by done.
  destruct (Kraj.processCore _ _ _ _) as [o [a b]].
  split; cbn [fst snd].
  - intros j. scatter_same Kraj.n_state. repeat case_decide; try done; apply Hst.
  - rewrite !list_lookup_total_insert_eq by lia. done.
Qed.

(** *** Improved *)

Lemma Improved_lane_inactive f in_ C_ v so :
  active f !!! v = false -> Improved.process_lane f in_ C_ v so = so.
Proof. intros Hv. destruct so. unfold Improved.process_lane. by rewrite Hv. Qed.

Lemma Improved_lane_other f in_ C_ v v' so :
  v <> v' -> lane_agree v (Improved.process_lane f in_ C_ v' so) so.
Proof.
  intros Hv. unfold Improved.process_lane. lane_start so f v'; [|apply lane_agree_refl].
  destruct (Improved.processCore _ _ _ _ _) as [o [[a b] c]].
  split; cbn [fst snd]; [intros j; by scatter_other|by rewrite list_lookup_total_insert_ne].
Qed.

Lemma Improved_lane_ok f in_ C_ v so :
  locals_ok Improved.n_state so -> locals_ok Improved.n_state (Improved.process_lane f in_ C_ v so).
Proof.
  intros [Hs Ho]. unfold Improved.process_lane. lane_start so f v; [|by split].
  destruct (Improved.processCore _ _ _ _ _) as [o [[a b] c]].
  split; cbn [fst snd]; [scatter_ok|by rewrite length_insert].
Qed.

Lemma Improved_lane_same f1 f2 in1 in2 C1 C2 v so1 so2 :
  (v < 4)%nat ->
  active f1 !!! v = true -> active f2 !!! v = true -> in1 !!! v = in2 !!! v ->
  (forall i, get2 C1 i v = get2 C2 i v) ->
  locals_ok Improved.n_state so1 -> locals_ok Improved.n_state so2 ->
  (forall j, get2 so1.1 j v = get2 so2.1 j v) ->
  lane_agree v (Improved.process_lane f1 in1 C1 v so1) (Improved.process_lane f2 in2 C2 v so2).
Proof.
  intros Hv Ha1 Ha2 Hi HC [Hs1 Ho1] [Hs2 Ho2] Hst.
  destruct so1 as [st1 out1], so2 as [st2 out2]. cbn [fst snd] in *.
  unfold Improved.process_lane. rewrite Ha1, Ha2; cbn [negb].
  rewrite (gather_ext (fun i => i) _ v st1 st2) by done.
  rewrite (gather_ext (fun i => (i + 4)%nat) _ v st1 st2) by done.
  rewrite (gather_ext (fun i => (i + 8)%nat) _ v st1 st2) by done.
  rewrite Hi. rewrite (gather_ext (fun i => i) _ v C1 C2) by done.
  destruct (Improved.processCore _ _ _ _ _) as [o [[a b] c]].
  split; cbn [fst snd].
  - intros j. scatter_same Improved.n_state. repeat case_decide; try done; apply Hst.
  - rewrite !list_lookup_total_insert_eq by lia. done.
Qed.

End Lanes.

(** ** The batch-processing functions *)

Section Batch.
Variables (n_coef n_state : nat).
Variable body : QuadFilterUnitState -> list f32 -> list (list f32) -> nat ->
                list (list f32) * list f32 -> list (list f32) * list f32.

Hypothesis body_inactive : forall f in_ C_ v so,
  active f !!! v = false -> body f in_ C_ v so = so.
Hypothesis body_other : forall f in_ C_ v v' so,
  v <> v' -> lane_agree v (body f in_ C_ v' so) so.
Hypothesis body_ok : forall f in_ C_ v so,
  locals_ok n_state so -> locals_ok n_state (body f in_ C_ v so).
Hypothesis body_same : forall f1 f2 in1 in2 C1 C2 v so1 so2,
  (v < 4)%nat ->
  active f1 !!! v = true -> active f2 !!! v = true -> in1 !!! v = in2 !!! v ->
  (forall i, get2 C1 i v = get2 C2 i v) ->
  locals_ok n_state so1 -> locals_ok n_state so2 ->
  (forall j, get2 so1.1 j v = get2 so2.1 j v) ->
  lane_agree v (body f1 in1 C1 v so1) (body f2 in2 C2 v so2).

(** An inactive lane is carried through: its registers and its cell of
    [out] are what they were on entry. *)
Lemma batch_frame f inm out0 v :
  active f !!! v = false ->
  (forall i, lane v (R (batch n_coef n_state body f inm out0).2 !!! i) = lane v (R f !!! i))
  /\ C (batch n_coef n_state body f inm out0).2 = C f
  /\ active (batch n_coef n_state body f inm out0).2 = active f
  /\ lane v (batch n_coef n_state body f inm out0).1 = lane v out0.
Proof.
  intros Hv. unfold batch.
  set (in_ := _mm_store_ps inm). set (C_ := for_loop n_coef _ _).
  set (state := for_loop n_state _ _).
  assert (Hag : lane_agree v (for_loop 4 (body f in_ C_) (state, _mm_store_ps out0))
                  (state, _mm_store_ps out0)).
  { apply (for_loop_inv (fun so => lane_agree v so (state, _mm_store_ps out0)));
      [apply lane_agree_refl|].
    intros i x _ Hx. destruct (decide (i = v)) as [->|Hne].
    - by rewrite body_inactive.
    - eapply lane_agree_trans; [apply body_other; done|done]. }
  destruct (for_loop 4 _ _) as [st' out']. destruct Hag as [Hst Hout]. cbn [fst snd] in *.
  destruct (decide (v < 4)%nat) as [Hlt|Hge].
  - repeat split; try apply load_loop_C.
    + intros i. rewrite load_loop_lane by done. case_decide as Hi; [|done].
      rewrite Hst. subst state. rewrite store_loop_get2. case_decide; [done|lia].
    + by rewrite lane_load, Hout.
  - repeat split; try apply load_loop_C.
    + intros i. by rewrite !lane_ge by lia.
    + by rewrite !lane_ge by lia.
Qed.

(** What an active lane yields depends on that lane of the input, of the
    coefficients and of the registers only. *)
Lemma batch_lane f1 f2 inm1 inm2 out1 out2 v :
  (v < 4)%nat ->
  (n_state <= length (R f1))%nat -> (n_state <= length (R f2))%nat ->
  active f1 !!! v = true -> active f2 !!! v = true ->
  lane v inm1 = lane v inm2 ->
  (forall i, (i < n_coef)%nat -> lane v (C f1 !!! i) = lane v (C f2 !!! i)) ->
  (forall i, (i < n_state)%nat -> lane v (R f1 !!! i) = lane v (R f2 !!! i)) ->
  lane v (batch n_coef n_state body f1 inm1 out1).1 = lane v (batch n_coef n_state body f2 inm2 out2).1
  /\ forall i, (i < n_state)%nat ->
       lane v (R (batch n_coef n_state body f1 inm1 out1).2 !!! i) = lane v (R (batch n_coef n_state body f2 inm2 out2).2 !!! i).
Proof.
  intros Hv Hl1 Hl2 Ha1 Ha2 Hin HC HR. unfold batch.
  set (C1 := for_loop n_coef _ _). set (st1 := for_loop n_state _ _).
  set (C2 := for_loop n_coef _ (uninit n_coef)).
  set (st2 := for_loop n_state _ (uninit n_state)).
  assert (HC' : forall i, get2 C1 i v = get2 C2 i v).
  { intros i. subst C1 C2. rewrite !store_loop_get2. case_decide; [by apply HC|done]. }
  assert (Hst0 : forall i, get2 st1 i v = get2 st2 i v).
  { intros i. subst st1 st2. rewrite !store_loop_get2. case_decide; [by apply HR|done]. }
  pose (Rel := fun (k : nat) (so1 so2 : list (list f32) * list f32) =>
    locals_ok n_state so1 /\ locals_ok n_state so2
    /\ (forall j, get2 so1.1 j v = get2 so2.1 j v)
    /\ ((v < k)%nat -> so1.2 !!! v = so2.2 !!! v)).
  assert (Hloop : forall k, (k <= 4)%nat ->
    Rel k (for_loop k (body f1 (_mm_store_ps inm1) C1) (st1, _mm_store_ps out1))
          (for_loop k (body f2 (_mm_store_ps inm2) C2) (st2, _mm_store_ps out2))).
  { induction k as [|k IH]; intros Hk; cbn [for_loop].
    - repeat split; try apply store_loop_shaped; try done. lia.
    - destruct IH as (Hok1 & Hok2 & Hst & Hout); [lia|].
      destruct (decide (k = v)) as [->|Hne].
      + destruct (body_same f1 f2 (_mm_store_ps inm1) (_mm_store_ps inm2) C1 C2 v _ _
                    Hv Ha1 Ha2 Hin HC' Hok1 Hok2 Hst) as [Hst' Hout'].
        repeat split; try (apply body_ok; assumption); done.
      + destruct (body_other f1 (_mm_store_ps inm1) C1 v k
                    (for_loop k (body f1 (_mm_store_ps inm1) C1) (st1, _mm_store_ps out1))
                    (not_eq_sym Hne)) as [Hs1 Ho1].
        destruct (body_other f2 (_mm_store_ps inm2) C2 v k
                    (for_loop k (body f2 (_mm_store_ps inm2) C2) (st2, _mm_store_ps out2))
                    (not_eq_sym Hne)) as [Hs2 Ho2].
        split; [by apply body_ok|]. split; [by apply body_ok|]. split.
        * intros j. by rewrite Hs1, Hs2.
        * intros Hlt. rewrite Ho1, Ho2. apply Hout. lia. }
  specialize (Hloop 4%nat (le_n _)). destruct Hloop as (_ & _ & Hst & Hout).
  destruct (for_loop 4 _ (st1, _)) as [st1' out1'].
  destruct (for_loop 4 _ (st2, _)) as [st2' out2']. cbn [fst snd] in *.
  split.
  - rewrite !lane_load by done. by apply Hout.
  - intros i Hi. rewrite !load_loop_lane by done.
    repeat case_decide; try lia. apply Hst.
Qed.

(** What the step of an active lane establishes for that lane holds of
    the registers on exit. *)
Lemma batch_lane_holds (Q : list (list f32) * list f32 -> Prop) f inm out0 v :
  (v < 4)%nat -> (n_state <= length (R f))%nat ->
  (forall so so', lane_agree v so' so -> Q so -> Q so') ->
  (forall in_ C_ so, locals_ok n_state so -> Q (body f in_ C_ v so)) ->
  exists so, Q so /\ forall i, (i < n_state)%nat ->
    lane v (R (batch n_coef n_state body f inm out0).2 !!! i) = get2 so.1 i v.
Proof.
  intros Hv Hl HQ Hstep. unfold batch.
  set (in_ := _mm_store_ps inm). set (C_ := for_loop n_coef _ _).
  set (st := for_loop n_state _ _).
  assert (Hloop : forall k, (k <= 4)%nat ->
    locals_ok n_state (for_loop k (body f in_ C_) (st, _mm_store_ps out0))
    /\ ((v < k)%nat -> Q (for_loop k (body f in_ C_) (st, _mm_store_ps out0)))).
  { induction k as [|k IH]; intros Hk; cbn [for_loop].
    - split; [split; [apply store_loop_shaped|done]|lia].
    - destruct IH as [Hok HQk]; [lia|]. split; [by apply body_ok|].
      intros Hlt. destruct (decide (k = v)) as [->|Hne].
      + by apply Hstep.
      + eapply HQ; [apply body_other; exact (not_eq_sym Hne)|]. apply HQk. lia. }
  destruct (Hloop 4%nat (le_n _)) as [_ HQ4]. specialize (HQ4 Hv).
  destruct (for_loop 4 _ _) as [st' out']. exists (st', out'). split; [done|].
  intros i Hi. cbn [fst snd]. rewrite load_loop_lane by done. case_decide; [done|lia].
Qed.


End Batch.

Lemma map_seq_eq {B : Type} (g g' : nat -> B) (n : nat) :
  map g (seq 0 n) = map g' (seq 0 n) <-> forall i, (i < n)%nat -> g i = g' i.
Proof.
  split.
  - intros Hm i Hi.
    assert (Hs : seq 0 n !! i = Some i) by (apply lookup_seq; lia).
    pose proof (f_equal (fun l => l !! i) Hm) as He. cbn beta in He.
    rewrite !list_lookup_fmap, Hs in He. by injection He.
  - intros Hg. apply map_ext_in. intros i Hi. apply Hg. apply in_seq in Hi. lia.
Qed.

Section Models.
Context `{Host}.

Lemma process_of_batch (m : Model) :
  process_of m
  = match m with
    | RK_model => batch RK.n_coef RK.n_state RK.process_lane
    | Huov_model => batch Huov.n_coef Huov.n_state Huov.process_lane
    | Kraj_model => batch Kraj.n_coef Kraj.n_state Kraj.process_lane
    | Improved_model => batch Improved.n_coef Improved.n_state Improved.process_lane
    end.
Proof. by destruct m. Qed.

Lemma process_frame (m : Model) f inm out0 v :
  active f !!! v = false ->
  (forall i, lane v (R (process_of m f inm out0).2 !!! i) = lane v (R f !!! i))
  /\ C (process_of m f inm out0).2 = C f
  /\ active (process_of m f inm out0).2 = active f
  /\ lane v (process_of m f inm out0).1 = lane v out0.
Proof.
  rewrite process_of_batch. destruct m.
  - apply batch_frame; [apply RK_lane_inactive|apply RK_lane_other].
  - apply batch_frame; [apply Huov_lane_inactive|apply Huov_lane_other].
  - apply batch_frame; [apply Kraj_lane_inactive|apply Kraj_lane_other].
  - apply batch_frame; [apply Improved_lane_inactive|apply Improved_lane_other].
Qed.

Lemma process_lane_function (m : Model) f1 f2 inm1 inm2 out1 out2 v :
  (v < 4)%nat ->
  (n_state_of m <= length (R f1))%nat -> (n_state_of m <= length (R f2))%nat ->
  active f1 !!! v = true -> active f2 !!! v = true ->
  lane v inm1 = lane v inm2 ->
  (forall i, (i < n_coef_of m)%nat -> lane v (C f1 !!! i) = lane v (C f2 !!! i)) ->
  (forall i, (i < n_state_of m)%nat -> lane v (R f1 !!! i) = lane v (R f2 !!! i)) ->
  lane v (process_of m f1 inm1 out1).1 = lane v (process_of m f2 inm2 out2).1
  /\ forall i, (i < n_state_of m)%nat ->
       lane v (R (process_of m f1 inm1 out1).2 !!! i)
       = lane v (R (process_of m f2 inm2 out2).2 !!! i).
Proof.
  rewrite process_of_batch. destruct m; cbn [n_state_of n_coef_of].
  - apply batch_lane; [apply RK_lane_other|apply RK_lane_ok|apply RK_lane_same].
  - apply batch_lane; [apply Huov_lane_other|apply Huov_lane_ok|apply Huov_lane_same].
  - apply batch_lane; [apply Kraj_lane_other|apply Kraj_lane_ok|apply Kraj_lane_same].
  - apply batch_lane;
      [apply Improved_lane_other|apply Improved_lane_ok|apply Improved_lane_same].
Qed.

End Models.

(** ** The scalar steps *)

Lemma SFadd_comm (prec emax : Z) (x y : spec_float) :
  SFadd prec emax x y = SFadd prec emax y x.
Proof.
  destruct x as [sx|sx| |sx mx ex], y as [sy|sy| |sy my ey]; try reflexivity;
    try (destruct sx, sy; reflexivity).
  unfold SFadd. rewrite Z.min_comm. f_equal. apply Z.add_comm.
Qed.

Lemma add64_comm (x y : f64) : (x + y)%f64 = (y + x)%f64.
Proof. unfold add64. f_equal. apply SFadd_comm. Qed.

(** Evaluation of the loops and of the array accesses, the arithmetic left
    as it stands. *)
Ltac arrays_eval :=
  cbv -[add64 sub64 mul64 div64 opp64 add32 sub32 mul32 opp32 ltb32 ltb64 leb32 leb64
        to_float to_double int32 int64 dec32 dec64 tanh exp pow
        dsamplerate_os dsamplerate_os_inv MIDI_0_FREQ M_PI inhabitant].

Ltac explicit_list l :=
  repeat (let x := fresh "x" in destruct l as [|x l]; try discriminate).

Section Steps.
Context `{Host}.

Lemma clip_soft_clip value sat satInv :
  RK.clip value sat satInv = Reference.soft_clip sat satInv value.
Proof. reflexivity. Qed.

Lemma rungekutteSolver_rk4 input state cutoff resonance sat satInv :
  length state = 4%nat ->
  RK.rungekutteSolver input state cutoff resonance sat satInv
  = Reference.vec4_list
      (Reference.rk4_step (Reference.ladder_ode cutoff resonance sat satInv input)
         dsamplerate_os_inv
         (state !!! 0%nat, state !!! 1%nat, state !!! 2%nat, state !!! 3%nat)).
Proof. intros Hs. explicit_list state. reflexivity. Qed.

Lemma Huov_processCore_step in_ coeff stage stageTanh delay :
  length stage = 4%nat -> length stageTanh = 3%nat -> length delay = 6%nat ->
  Huov.processCore in_ coeff stage stageTanh delay
  = Reference.huov_step in_ (coeff !!! Huov.h_resquad) (coeff !!! Huov.h_thermal)
      (coeff !!! Huov.h_tune) stageTanh delay.
Proof.
  intros Hs Ht Hd. explicit_list stage. explicit_list stageTanh. explicit_list delay.
  arrays_eval. reflexivity.
Qed.

Lemma kraj_pole_source g y x d :
  Reference.kraj_pole g y x d
  = (g * (dec64 3 10 / dec64 13 10 * x + int64 1 / dec64 13 10 * d - y) + y)%f64.
Proof. apply add64_comm. Qed.

Lemma Kraj_processCore_step in_ coeff state delay :
  length state = 5%nat -> length delay = 5%nat ->
  Kraj.processCore in_ coeff state delay
  = Reference.kraj_step in_ (coeff !!! Kraj.k_drive) (coeff !!! Kraj.k_gRes)
      (coeff !!! Kraj.k_gComp) (coeff !!! Kraj.k_g) state delay.
Proof.
  intros Hs Hd. explicit_list state. explicit_list delay.
  unfold Reference.kraj_step. rewrite !kraj_pole_source.
  arrays_eval. reflexivity.
Qed.

Lemma Improved_processCore_step in_ coeff V dV tV :
  length V = 4%nat -> length dV = 4%nat -> length tV = 4%nat ->
  Improved.processCore in_ coeff V dV tV
  = Reference.improved_step in_ (coeff !!! Improved.i_drive) (coeff !!! Improved.i_reso)
      (coeff !!! Improved.i_g) V dV tV.
Proof.
  intros HV HdV HtV. explicit_list V. explicit_list dV. explicit_list tV.
  arrays_eval. reflexivity.
Qed.

(** On exit from the Huovilainen step the first four delay taps are the
    stage outputs. *)
Lemma Huov_processCore_sync in_ coeff stage stageTanh delay (k : nat) :
  length stage = 4%nat -> length stageTanh = 3%nat -> length delay = 6%nat ->
  (k < 4)%nat ->
  (Huov.processCore in_ coeff stage stageTanh delay).2.2 !!! k
  = (Huov.processCore in_ coeff stage stageTanh delay).2.1.1 !!! k.
Proof.
  intros Hs Ht Hd Hk. rewrite Huov_processCore_step by done.
  explicit_list stageTanh. explicit_list delay.
  destruct k as [|[|[|[|k]]]]; try lia; reflexivity.
Qed.

End Steps.

(** ** Comparisons *)

Lemma SFcompare_refl (x : spec_float) : x <> S754_nan -> SFcompare x x = Some Eq.
Proof.
  destruct x as [s|s| |s m e]; intros Hx; try done; try (by destruct s).
  cbn. rewrite Z.compare_refl, Pos.compare_cont_refl. by destruct s.
Qed.

Lemma SFleb_not_nan (x y : spec_float) :
  SFleb x y = true -> x <> S754_nan /\ y <> S754_nan.
Proof. unfold SFleb. destruct x, y; cbn; intros Hxy; split; congruence. Qed.

Lemma SFleb_refl (x : spec_float) : x <> S754_nan -> SFleb x x = true.
Proof. intros Hx. unfold SFleb. by rewrite SFcompare_refl. Qed.

Lemma SFltb_leb (x y : spec_float) : SFltb x y = true -> SFleb x y = true.
Proof. unfold SFltb, SFleb. by destruct (SFcompare x y) as [[]|]. Qed.

Lemma SFltb_trans (x y z : spec_float) :
  SFltb x y = true -> SFltb y z = true -> SFltb x z = true.
Proof.
  unfold SFltb.
  destruct x as [sx|sx| |sx mx ex], y as [sy|sy| |sy my ey], z as [sz|sz| |sz mz ez];
    cbn [SFcompare];
    repeat match goal with s : bool |- _ => destruct s end;
    try discriminate; try reflexivity.
  all: change (Pos.compare_cont Eq mx my) with (Pos.compare mx my);
    change (Pos.compare_cont Eq my mz) with (Pos.compare my mz);
    change (Pos.compare_cont Eq mx mz) with (Pos.compare mx mz).
  all: destruct (Z.compare_spec ex ey), (Z.compare_spec ey ez), (Z.compare_spec ex ez);
    try lia; try discriminate; try reflexivity.
  all: destruct (Pos.compare_spec mx my), (Pos.compare_spec my mz),
         (Pos.compare_spec mx mz); cbn [CompOpp]; try lia; try discriminate; try reflexivity.
Qed.

Section Clamp.
Context `{Host}.

(** [limit_range] yields a value of the band whenever the band is not
    empty, whatever it is given (infinities and NaN included). *)
Lemma limit_range_bounds (x low high : f32) :
  (low <=? high)%f32 = true ->
  (low <=? Common.limit_range x low high)%f32 = true
  /\ (Common.limit_range x low high <=? high)%f32 = true.
Proof.
  unfold leb32, ltb32, Common.limit_range. intros Hlh.
  destruct (SFleb_not_nan _ _ Hlh) as [Hl Hh].
  unfold ltb32. destruct (SFltb (raw32 low) (raw32 x)) eqn:Hlx.
  - destruct (SFltb (raw32 x) (raw32 high)) eqn:Hxh.
    + split; by apply SFltb_leb.
    + split; [done|by apply SFleb_refl].
  - destruct (SFltb (raw32 low) (raw32 high)) eqn:Hlh'.
    + split; [by apply SFleb_refl|done].
    + split; [done|by apply SFleb_refl].
Qed.

(** It yields one of its three arguments. *)
Lemma limit_range_cases (x low high : f32) :
  Common.limit_range x low high = x \/ Common.limit_range x low high = low
  \/ Common.limit_range x low high = high.
Proof.
  unfold Common.limit_range.
  destruct (low <? x)%f32; [destruct (x <? high)%f32|destruct (low <? high)%f32]; auto.
Qed.

(** Where the band is empty or its upper end is a NaN, [limit_range]
    yields the upper end, whatever it is given. *)
Lemma limit_range_empty_band (x low high : f32) :
  (low <=? high)%f32 = false -> Common.limit_range x low high = high.
Proof.
  unfold leb32, ltb32, Common.limit_range. intros Hlh.
  unfold ltb32. destruct (SFltb (raw32 low) (raw32 x)) eqn:Hlx.
  - destruct (SFltb (raw32 x) (raw32 high)) eqn:Hxh; [|reflexivity].
    rewrite (SFltb_leb _ _ (SFltb_trans _ _ _ Hlx Hxh)) in Hlh. discriminate Hlh.
  - destruct (SFltb (raw32 low) (raw32 high)) eqn:Hlh'; [|reflexivity].
    rewrite (SFltb_leb _ _ Hlh') in Hlh. discriminate Hlh.
Qed.

End Clamp.

Lemma five_raw : dec32 5 1 = F32 (S754_finite false 10485760 (-21)).
Proof. vm_compute. reflexivity. Qed.

Lemma above_five_positive (r : f32) :
  (dec32 5 1 <=? r)%f32 = true -> (int32 0 <? r)%f32 = true.
Proof.
  rewrite five_raw. destruct r as [[s|s| |s m e]]; try destruct s; try done.
Qed.

(** ** Rounding to a format *)

(** *** Number of binary digits *)

Lemma digits2_pos_size (p : positive) : digits2_pos p = Pos.size p.
Proof. induction p as [p IH|p IH|]; cbn; congruence. Qed.

Lemma Zdigits2_log2 (m : Z) : 0 < m -> Zdigits2 m = Z.log2 m + 1.
Proof.
  destruct m as [|p|p]; try lia. intros _. cbn [Zdigits2]. rewrite digits2_pos_size.
  destruct p as [p|p|]; cbn [Pos.size Z.log2]; lia.
Qed.

Lemma Zdigits2_bounds (m : Z) :
  0 < m -> 0 < Zdigits2 m /\ 2 ^ (Zdigits2 m - 1) <= m < 2 ^ Zdigits2 m.
Proof.
  intros Hm. rewrite Zdigits2_log2 by done.
  pose proof (Z.log2_nonneg m). pose proof (Z.log2_spec m Hm) as Hs.
  replace (Z.log2 m + 1 - 1) with (Z.log2 m) by lia.
  replace (Z.succ (Z.log2 m)) with (Z.log2 m + 1) in Hs by lia. lia.
Qed.

Lemma Zdigits2_unique (m d : Z) : 0 < d -> 2 ^ (d - 1) <= m < 2 ^ d -> Zdigits2 m = d.
Proof.
  intros Hd Hm. assert (0 < m) by (pose proof (Z.pow_pos_nonneg 2 (d - 1)); lia).
  rewrite Zdigits2_log2 by done.
  rewrite (Z.log2_unique m (d - 1)); [lia|lia|].
  by replace (Z.succ (d - 1)) with d by lia.
Qed.

Lemma Zdigits2_div_pow2 (m N : Z) :
  0 < m -> 0 <= N ->
  (N < Zdigits2 m -> 0 < m / 2 ^ N /\ Zdigits2 (m / 2 ^ N) = Zdigits2 m - N)
  /\ (Zdigits2 m <= N -> m / 2 ^ N = 0).
Proof.
  intros Hm HN. destruct (Zdigits2_bounds m Hm) as [Hd [Hlo Hhi]].
  assert (H2N : 0 < 2 ^ N) by (apply Z.pow_pos_nonneg; lia).
  split.
  - intros Hlt.
    assert (Hlo' : 2 ^ (Zdigits2 m - N - 1) <= m / 2 ^ N).
    { apply Z.div_le_lower_bound; [done|].
      rewrite <- Z.pow_add_r by lia. by replace (N + (Zdigits2 m - N - 1)) with (Zdigits2 m - 1) by lia. }
    assert (Hhi' : m / 2 ^ N < 2 ^ (Zdigits2 m - N)).
    { apply Z.div_lt_upper_bound; [done|].
      rewrite <- Z.pow_add_r by lia. by replace (N + (Zdigits2 m - N)) with (Zdigits2 m) by lia. }
    assert (0 < 2 ^ (Zdigits2 m - N - 1)) by (apply Z.pow_pos_nonneg; lia).
    split; [lia|]. apply Zdigits2_unique; lia.
  - intros Hge. apply Z.div_small. split; [lia|].
    apply Z.lt_le_trans with (2 ^ Zdigits2 m); [done|]. apply Z.pow_le_mono_r; lia.
Qed.

Lemma Zdigits2_succ (m : Z) :
  0 < m ->
  Zdigits2 (m + 1) = Zdigits2 m
  \/ (m + 1 = 2 ^ Zdigits2 m /\ Zdigits2 (m + 1) = Zdigits2 m + 1).
Proof.
  intros Hm. destruct (Zdigits2_bounds m Hm) as [Hd [Hlo Hhi]].
  destruct (Z.eq_dec (m + 1) (2 ^ Zdigits2 m)) as [He|Hne].
  - right. split; [done|]. apply Zdigits2_unique; [lia|].
    replace (Zdigits2 m + 1 - 1) with (Zdigits2 m) by lia.
    rewrite Z.pow_add_r by lia. lia.
  - left. apply Zdigits2_unique; lia.
Qed.

(** *** Shifting a mantissa right *)

Lemma shr_1_m (mrs : shr_record) : 0 <= shr_m mrs -> shr_m (shr_1 mrs) = shr_m mrs / 2.
Proof.
  destruct mrs as [m r s]. cbn [shr_m]. intros Hm.
  destruct m as [|p|p]; [reflexivity| |lia].
  destruct p as [p|p|]; cbn [shr_1 shr_m].
  - rewrite (Pos2Z.inj_xI p). apply Z.div_unique with 1; lia.
  - rewrite (Pos2Z.inj_xO p). apply Z.div_unique with 0; lia.
  - reflexivity.
Qed.

Lemma iter_shr_1_m (n : positive) (mrs : shr_record) :
  0 <= shr_m mrs ->
  shr_m (SpecFloat.iter_pos shr_1 n mrs) = shr_m mrs / 2 ^ Zpos n.
Proof.
  assert (Hnn : forall a b, 0 <= a -> 0 < b -> 0 <= a / b) by (intros; by apply Z.div_pos).
  revert mrs. induction n as [n IH|n IH|]; intros mrs Hm; cbn [SpecFloat.iter_pos].
  - assert (H1 : 0 <= shr_m (shr_1 mrs)) by (rewrite shr_1_m by done; apply Hnn; lia).
    assert (H2 : 0 <= shr_m (SpecFloat.iter_pos shr_1 n (shr_1 mrs))).
    { rewrite IH by done. apply Hnn; [done|]. by apply Z.pow_pos_nonneg. }
    rewrite IH, IH, shr_1_m by done.
    rewrite !Z.div_div by (try apply Z.pow_pos_nonneg; lia).
    f_equal. rewrite (Pos2Z.inj_xI n), Z.pow_add_r, Z.pow_1_r by lia.
    replace (2 * Z.pos n) with (Z.pos n + Z.pos n) by lia. rewrite Z.pow_add_r by lia. lia.
  - assert (H2 : 0 <= shr_m (SpecFloat.iter_pos shr_1 n mrs)).
    { rewrite IH by done. apply Hnn; [done|]. by apply Z.pow_pos_nonneg. }
    rewrite IH, IH by done.
    rewrite !Z.div_div by (try apply Z.pow_pos_nonneg; lia).
    f_equal. rewrite (Pos2Z.inj_xO n).
    replace (2 * Z.pos n) with (Z.pos n + Z.pos n) by lia. rewrite Z.pow_add_r by lia. lia.
  - rewrite shr_1_m by done. by rewrite Z.pow_1_r.
Qed.

Lemma shr_spec (mrs : shr_record) (e n : Z) :
  0 <= shr_m mrs ->
  shr_m (shr mrs e n).1 = shr_m mrs / 2 ^ Z.max 0 n /\ (shr mrs e n).2 = e + Z.max 0 n.
Proof.
  intros Hm. destruct n as [|n|n]; cbn [shr fst snd].
  - rewrite Z.max_id, Z.pow_0_r, Z.div_1_r. lia.
  - rewrite iter_shr_1_m by done. by replace (Z.max 0 (Z.pos n)) with (Z.pos n) by lia.
  - replace (Z.max 0 (Z.neg n)) with 0 by lia. rewrite Z.pow_0_r, Z.div_1_r. lia.
Qed.

Lemma shr_record_of_loc_m (m : Z) (l : location) : shr_m (shr_record_of_loc m l) = m.
Proof. by destruct l as [|[]]. Qed.

Lemma round_nearest_even_bounds (m : Z) (l : location) :
  m <= round_nearest_even m l <= m + 1.
Proof. destruct l as [|[]]; cbn; try lia. destruct (Z.even m); lia. Qed.

(** *** The rounding function, on integers *)

(** [binary_round_aux] shifts the mantissa to the exponent of the format,
    rounds the quotient by at most one unit, and shifts once more if the
    rounding carried. *)
Lemma binary_round_aux_spec (prec emax : Z) (s : bool) (mx ex : Z) (lx : location) :
  0 <= mx ->
  let N1 := Z.max 0 (fexp prec emax (Zdigits2 mx + ex) - ex) in
  exists m1 : Z,
    mx / 2 ^ N1 <= m1 <= mx / 2 ^ N1 + 1 /\
    let N2 := Z.max 0 (fexp prec emax (Zdigits2 m1 + (ex + N1)) - (ex + N1)) in
    binary_round_aux prec emax s mx ex lx
    = match m1 / 2 ^ N2 with
      | Z0 => S754_zero s
      | Zpos m => if ex + N1 + N2 <=? emax - prec then S754_finite s m (ex + N1 + N2)
                  else S754_infinity s
      | Zneg _ => S754_nan
      end.
Proof.
  intros Hmx N1. unfold binary_round_aux, shr_fexp.
  destruct (shr_spec (shr_record_of_loc mx lx) ex (fexp prec emax (Zdigits2 mx + ex) - ex))
    as [Hm1 He1]; [by rewrite shr_record_of_loc_m|].
  rewrite shr_record_of_loc_m in Hm1. fold N1 in Hm1, He1.
  destruct (shr (shr_record_of_loc mx lx) ex _) as [mrs' e']. cbn [fst snd] in Hm1, He1.
  set (m1 := round_nearest_even (shr_m mrs') (loc_of_shr_record mrs')).
  exists m1. split.
  { rewrite <- Hm1. apply round_nearest_even_bounds. }
  assert (Hm1' : 0 <= m1).
  { pose proof (round_nearest_even_bounds (shr_m mrs') (loc_of_shr_record mrs')).
    assert (0 <= mx / 2 ^ N1) by (apply Z.div_pos; [done|apply Z.pow_pos_nonneg; lia]).
    subst m1. lia. }
  subst e'.
  destruct (shr_spec (shr_record_of_loc m1 loc_Exact) (ex + N1)
              (fexp prec emax (Zdigits2 m1 + (ex + N1)) - (ex + N1))) as [Hm2 He2];
    [by rewrite shr_record_of_loc_m|].
  rewrite shr_record_of_loc_m in Hm2.
  destruct (shr (shr_record_of_loc m1 loc_Exact) (ex + N1) _) as [mrs'' e''].
  cbn [fst snd] in Hm2, He2. cbn zeta. by rewrite Hm2, He2.
Qed.

(** *** The result of rounding is a value of the format *)

Lemma canon_valid (prec emax : Z) (s : bool) (m e : Z) :
  canon prec emax m e ->
  valid_binary prec emax
    match m with
    | Z0 => S754_zero s
    | Zpos p => if e <=? emax - prec then S754_finite s p e else S754_infinity s
    | Zneg _ => S754_nan
    end = true.
Proof.
  intros [Hm Hc]. destruct m as [|p|p]; [done| |lia].
  destruct (e <=? emax - prec) eqn:He; [|done].
  cbn [valid_binary]. unfold bounded, canonical_mantissa.
  specialize (Hc eq_refl). cbn [Zdigits2] in Hc. rewrite Hc, Z.eqb_refl. by rewrite He.
Qed.

Lemma canon_first_shift (prec emax mx ex : Z) :
  0 < prec -> 0 < mx -> ex <= fexp prec emax (Zdigits2 mx + ex) ->
  let N1 := Z.max 0 (fexp prec emax (Zdigits2 mx + ex) - ex) in
  canon prec emax (mx / 2 ^ N1) (ex + N1)
  /\ (mx / 2 ^ N1 = 0 -> ex + N1 = emin prec emax).
Proof.
  intros Hp Hmx Hex N1. destruct (Zdigits2_bounds mx Hmx) as [HD _].
  assert (HN1 : N1 = fexp prec emax (Zdigits2 mx + ex) - ex) by lia.
  destruct (Zdigits2_div_pow2 mx N1 Hmx) as [Hlt Hge]; [lia|].
  destruct (Z_lt_le_dec N1 (Zdigits2 mx)) as [Hl|Hl].
  - destruct (Hlt Hl) as [Hq Hdq]. split; [split; [lia|]|lia].
    intros _. rewrite Hdq. replace (Zdigits2 mx - N1 + (ex + N1)) with (Zdigits2 mx + ex) by lia.
    lia.
  - rewrite (Hge Hl). split; [split; lia|]. intros _. revert HN1 Hl. unfold fexp, emin. lia.
Qed.

Lemma canon_second_shift (prec emax q e1 m1 : Z) :
  0 < prec ->
  canon prec emax q e1 -> (q = 0 -> e1 = emin prec emax) ->
  q <= m1 <= q + 1 ->
  let N2 := Z.max 0 (fexp prec emax (Zdigits2 m1 + e1) - e1) in
  canon prec emax (m1 / 2 ^ N2) (e1 + N2).
Proof.
  intros Hp [Hq Hc] Hz Hm1 N2.
  destruct (Z.eq_dec q 0) as [->|Hq0].
  - (* the quotient is zero: the rounded mantissa is 0 or 1, at emin *)
    specialize (Hz eq_refl).
    assert (Hm : m1 = 0 \/ m1 = 1) by lia.
    assert (HN2 : N2 = 0).
    { subst N2. destruct Hm as [-> | ->]; cbn [Zdigits2 digits2_pos];
        revert Hz; unfold fexp, emin; lia. }
    rewrite HN2, Z.pow_0_r, Z.div_1_r, Z.add_0_r.
    split; [lia|]. intros Hpos. assert (m1 = 1) as -> by lia.
    cbn [Zdigits2 digits2_pos]. revert Hz. unfold fexp, emin. lia.
  - specialize (Hc ltac:(lia)).
    destruct (Z.eq_dec m1 q) as [->|Hne].
    + (* no carry *)
      assert (HN2 : N2 = 0) by (subst N2; lia).
      rewrite HN2, Z.pow_0_r, Z.div_1_r, Z.add_0_r. split; [lia|done].
    + assert (m1 = q + 1) as -> by lia.
      destruct (Zdigits2_succ q ltac:(lia)) as [Hd|[Hpow Hd]].
      * assert (HN2 : N2 = 0) by (subst N2; rewrite Hd; lia).
        rewrite HN2, Z.pow_0_r, Z.div_1_r, Z.add_0_r. split; [lia|]. intros _. by rewrite Hd.
      * (* the rounding carried into a further digit *)
        destruct (Zdigits2_bounds q ltac:(lia)) as [Hdq _].
        assert (HN2 : N2 = 0 \/ N2 = 1).
        { subst N2. rewrite Hd. revert Hc. unfold fexp, emin. lia. }
        destruct HN2 as [HN2|HN2]; rewrite HN2.
        -- rewrite Z.pow_0_r, Z.div_1_r, Z.add_0_r. split; [lia|]. intros _.
           subst N2. rewrite Hd in *. revert Hc HN2. unfold fexp, emin. lia.
        -- rewrite Z.pow_1_r, Hpow.
           assert (Hhalf : 2 ^ Zdigits2 q / 2 = 2 ^ (Zdigits2 q - 1)).
           { replace (Zdigits2 q) with (1 + (Zdigits2 q - 1)) at 1 by lia.
             rewrite Z.pow_add_r, Z.pow_1_r by lia.
             rewrite Z.mul_comm, Z.div_mul by lia. done. }
           rewrite Hhalf.
           assert (Hpos : 0 < 2 ^ (Zdigits2 q - 1)) by (apply Z.pow_pos_nonneg; lia).
           split; [lia|]. intros _.
           rewrite (Zdigits2_unique (2 ^ (Zdigits2 q - 1)) (Zdigits2 q)).
           ++ subst N2. rewrite Hd in HN2. revert Hc HN2. unfold fexp, emin. lia.
           ++ lia.
           ++ split; [lia|]. apply Z.pow_lt_mono_r; lia.
Qed.

Lemma binary_round_aux_valid (prec emax : Z) (s : bool) (mx ex : Z) (lx : location) :
  0 < prec -> 0 < mx -> ex <= fexp prec emax (Zdigits2 mx + ex) ->
  valid_binary prec emax (binary_round_aux prec emax s mx ex lx) = true.
Proof.
  intros Hp Hmx Hex.
  destruct (binary_round_aux_spec prec emax s mx ex lx) as (m1 & Hm1 & ->); [lia|].
  destruct (canon_first_shift prec emax mx ex Hp Hmx Hex) as [Hc Hz].
  apply canon_valid. by apply canon_second_shift with (q := mx / 2 ^ Z.max 0 (fexp prec emax (Zdigits2 mx + ex) - ex)).
Qed.

(** *** Aligning a mantissa to the exponent of the format *)

Lemma iter_pos_iter {A : Type} (f : A -> A) (n : positive) (x : A) :
  SpecFloat.iter_pos f n x = Pos.iter f x n.
Proof.
  revert x. induction n as [n IH|n IH|]; intros x; cbn [SpecFloat.iter_pos Pos.iter].
  - by rewrite !IH, !Pos.iter_swap.
  - by rewrite !IH.
  - done.
Qed.

Lemma digits2_pos_shl (m k : positive) :
  digits2_pos (Pos.iter xO m k) = (digits2_pos m + k)%positive.
Proof.
  induction k as [|k IH] using Pos.peano_ind.
  - cbn. lia.
  - rewrite Pos.iter_succ. cbn [digits2_pos]. rewrite IH. lia.
Qed.

Lemma iter_shr_1_shl (m k : positive) :
  SpecFloat.iter_pos shr_1 k {| shr_m := Zpos (Pos.iter xO m k); shr_r := false; shr_s := false |}
  = {| shr_m := Zpos m; shr_r := false; shr_s := false |}.
Proof.
  rewrite iter_pos_iter. induction k as [|k IH] using Pos.peano_ind.
  - reflexivity.
  - rewrite !Pos.iter_succ, <- Pos.iter_swap. exact IH.
Qed.

Lemma shl_align_spec (m : positive) (e e' : Z) :
  let '(mz, ez) := shl_align m e e' in
  ez <= e' /\ ez <= e
  /\ Zpos (digits2_pos mz) + ez = Zpos (digits2_pos m) + e
  /\ (e' <= e -> ez = e').
Proof.
  unfold shl_align. destruct (e' - e) as [|d|d] eqn:Hd.
  - lia.
  - lia.
  - rewrite digits2_pos_shl. lia.
Qed.

Lemma binary_round_valid (prec emax : Z) (s : bool) (m : positive) (e : Z) :
  0 < prec -> valid_binary prec emax (binary_round prec emax s m e) = true.
Proof.
  intros Hp. unfold binary_round.
  pose proof (shl_align_spec m e (fexp prec emax (Zpos (digits2_pos m) + e))) as Hs.
  destruct (shl_align m e _) as [mz ez]. destruct Hs as (H1 & H2 & H3 & H4).
  apply binary_round_aux_valid; [done|done|]. cbn [Zdigits2]. rewrite H3. done.
Qed.

Lemma round_to_valid (prec emax : Z) (x : spec_float) :
  0 < prec -> valid_binary prec emax (round_to prec emax x) = true.
Proof. intros Hp. destruct x; try done. by apply binary_round_valid. Qed.

(** *** Widening a float and narrowing it again *)

Lemma binary_round_aux_canonical (prec emax : Z) (s : bool) (m : positive) (e : Z) :
  bounded prec emax m e = true ->
  binary_round_aux prec emax s (Zpos m) e loc_Exact = S754_finite s m e.
Proof.
  unfold bounded, canonical_mantissa. intros Hb.
  apply andb_true_iff in Hb as [Hc He]. apply Z.eqb_eq in Hc.
  unfold binary_round_aux, shr_fexp. cbn [Zdigits2]. rewrite Hc, Z.sub_diag.
  cbn [shr shr_record_of_loc shr_m loc_of_shr_record round_nearest_even Zdigits2].
  rewrite Hc, Z.sub_diag. cbn [shr shr_record_of_loc shr_m]. by rewrite He.
Qed.

Lemma widen_narrow (x : spec_float) :
  valid_binary prec32 emax32 x = true ->
  round_to prec32 emax32 (round_to prec64 emax64 x) = x.
Proof.
  destruct x as [s|s| |s m e]; try done. cbn [valid_binary round_to].
  unfold bounded, canonical_mantissa. intros Hb.
  apply andb_true_iff in Hb as [Hc He]. apply Z.eqb_eq in Hc.
  unfold binary_round, shl_align.
  set (d := Zpos (digits2_pos m)) in *.
  assert (Hd : 0 < d) by (subst d; lia).
  (* widening: the mantissa is shifted left by [k] digits, exactly *)
  assert (Ht : fexp prec64 emax64 (d + e) < e).
  { apply Z.leb_le in He.
    revert Hc He; unfold fexp, emin, prec32, emax32, prec64, emax64; lia. }
  set (t := fexp prec64 emax64 (d + e)) in *.
  destruct (t - e) as [|k|k] eqn:Hk; try lia.
  set (M := Pos.iter xO m k).
  assert (HdM : Zpos (digits2_pos M) + t = d + e) by (subst M d; rewrite digits2_pos_shl; lia).
  rewrite binary_round_aux_canonical.
  2:{ unfold bounded, canonical_mantissa. rewrite HdM. fold t. rewrite Z.eqb_refl.
      apply Z.leb_le in He. apply Z.leb_le.
      revert He Ht. unfold prec32, emax32, prec64, emax64. lia. }
  (* narrowing: the same [k] digits are shifted out, all zero *)
  cbn [round_to]. unfold binary_round, shl_align. rewrite HdM, Hc.
  destruct (e - t) as [|k'|k'] eqn:Hk'; try lia.
  assert (k' = k) as -> by lia.
  unfold binary_round_aux, shr_fexp. cbn [Zdigits2]. rewrite HdM, Hc, Hk'.
  cbn [shr shr_record_of_loc]. subst M. rewrite iter_shr_1_shl.
  cbn [shr_m loc_of_shr_record round_nearest_even Zdigits2]. fold d.
  replace (t + Z.pos k) with e by lia. rewrite Hc, Z.sub_diag.
  cbn [shr shr_record_of_loc shr_m]. by rewrite He.
Qed.

(** *** A product with the constant 6 *)

Lemma SFleb_finite (m1 : positive) (e1 : Z) (m2 : positive) (e2 : Z) :
  SFleb (S754_finite false m1 e1) (S754_finite false m2 e2) = true
  <-> e1 < e2 \/ (e1 = e2 /\ Zpos m1 <= Zpos m2).
Proof.
  unfold SFleb, SFcompare. destruct (Z.compare_spec e1 e2) as [He|He|He].
  - rewrite Pos.compare_cont_spec. cbn [Pos.switch_Eq].
    change (m1 ?= m2)%positive with (Zpos m1 ?= Zpos m2).
    destruct (Z.compare_spec (Zpos m1) (Zpos m2)) as [Hm|Hm|Hm]; split; try done; try lia.
  - split; [lia|done].
  - split; [done|lia].
Qed.

Lemma Zdigits2_le (m d : Z) : 0 < m -> 0 <= d -> m < 2 ^ d -> Zdigits2 m <= d.
Proof.
  intros Hm Hd Hlt. destruct (Zdigits2_bounds m Hm) as [HD [Hlo _]].
  destruct (Z_le_gt_dec (Zdigits2 m) d) as [|Hgt]; [done|].
  assert (2 ^ d <= 2 ^ (Zdigits2 m - 1)) by (apply Z.pow_le_mono_r; lia). lia.
Qed.

Lemma Zdigits2_ge (m d : Z) : 0 < d -> 2 ^ (d - 1) <= m -> d <= Zdigits2 m.
Proof.
  intros Hd Hle.
  assert (0 < m) by (pose proof (Z.pow_pos_nonneg 2 (d - 1)); lia).
  destruct (Zdigits2_bounds m) as [HD [_ Hhi]]; [done|].
  destruct (Z_le_gt_dec d (Zdigits2 m)) as [|Hgt]; [done|].
  assert (2 ^ Zdigits2 m <= 2 ^ (d - 1)) by (apply Z.pow_le_mono_r; lia). lia.
Qed.

(** The float product of a float of [[0, 1]] and 6 is a float of
    [[0, 6]]: rounding does not leave the interval. *)
Lemma mul6_bounds (x : spec_float) :
  valid_binary prec32 emax32 x = true ->
  SFleb sf_zero x = true -> SFleb x sf_one = true ->
  SFleb sf_zero (SFmul prec32 emax32 x sf_six) = true
  /\ SFleb (SFmul prec32 emax32 x sf_six) sf_six = true.
Proof.
  intros Hv H0 H1. destruct x as [s|s| |s m e].
  { destruct s; split; reflexivity. }
  { destruct s; discriminate. }
  { discriminate. }
  destruct s; [discriminate|]. clear H0.
  apply SFleb_finite in H1. cbn [valid_binary] in Hv. unfold bounded, canonical_mantissa in Hv.
  apply andb_true_iff in Hv as [Hc He]. apply Z.eqb_eq in Hc. apply Z.leb_le in He.
  destruct (Zdigits2_bounds (Zpos m) eq_refl) as [Hd [Hlo Hhi]]. cbn [Zdigits2] in Hd, Hlo, Hhi.
  remember (Zpos (digits2_pos m)) as d eqn:Hdd. clear Hdd.
  assert (Hd24 : d <= 24) by (revert Hc; unfold fexp, emin, prec32, emax32; lia).
  assert (Hm24 : Zpos m < 16777216).
  { apply Z.lt_le_trans with (2 ^ d); [done|]. change 16777216 with (2 ^ 24).
    apply Z.pow_le_mono_r; lia. }
  destruct H1 as [Hlt|[-> Hm]].
  2:{ (* the exponent of 1: the float is 1 *)
    assert (d = 24) by (revert Hc; unfold fexp, emin, prec32, emax32; lia).
    assert (Zpos m = 8388608).
    { assert (2 ^ 23 <= Zpos m) by (replace 23 with (d - 1) by lia; done).
      change (2 ^ 23) with 8388608 in *. lia. }
    assert (m = 8388608%positive) as -> by lia. by vm_compute. }
  (* below 1 *)
  change (SFmul prec32 emax32 (S754_finite false m e) sf_six)
    with (binary_round_aux prec32 emax32 false (Zpos (m * 12582912)) (e + -21) loc_Exact).
  remember (Zpos (m * 12582912)) as mx eqn:Hmx. remember (e + -21) as ex eqn:Hexd.
  rewrite Pos2Z.inj_mul in Hmx.
  assert (Hmx0 : 0 < mx) by lia.
  destruct (binary_round_aux_spec prec32 emax32 false mx ex loc_Exact) as (m1 & Hm1 & ->);
    [lia|].
  remember (Zdigits2 mx) as D eqn:HDd.
  assert (HD48 : D <= 48).
  { rewrite HDd. apply Zdigits2_le; [done|lia|]. change (2 ^ 48) with 281474976710656. lia. }
  assert (HD24 : 24 <= D).
  { rewrite HDd. apply Zdigits2_ge; [lia|]. change (2 ^ (24 - 1)) with 8388608. lia. }
  assert (Hex : ex <= fexp prec32 emax32 (D + ex)) by (unfold fexp, emin, prec32, emax32; lia).
  pose proof (canon_first_shift prec32 emax32 mx ex eq_refl Hmx0) as Hcf.
  rewrite <- HDd in Hcf. destruct (Hcf Hex) as [[Hq0 Hqc] _]. clear Hcf.
  remember (Z.max 0 (fexp prec32 emax32 (D + ex) - ex)) as N1 eqn:HN1.
  remember (mx / 2 ^ N1) as q eqn:Hqd. remember (ex + N1) as e1 eqn:He1d.
  assert (He1 : e1 = fexp prec32 emax32 (D + ex)) by lia.
  assert (He1lo : -149 <= e1) by (rewrite He1; unfold fexp, emin, prec32, emax32; lia).
  assert (He1hi : e1 <= -21) by (rewrite He1; unfold fexp, emin, prec32, emax32; lia).
  (* the quotient has at most 24 digits *)
  assert (Hq24 : q < 16777216).
  { destruct (Z.eq_dec q 0) as [->|Hq]; [lia|].
    destruct (Zdigits2_bounds q ltac:(lia)) as [Hdq [_ Hqhi]].
    specialize (Hqc ltac:(lia)).
    assert (Zdigits2 q <= 24) by (revert Hqc; unfold fexp, emin, prec32, emax32; lia).
    apply Z.lt_le_trans with (2 ^ Zdigits2 q); [done|]. change 16777216 with (2 ^ 24).
    apply Z.pow_le_mono_r; lia. }
  (* at the exponent of 6 the quotient is below the mantissa of 6 *)
  assert (Hq6 : e1 = -21 -> q < 12582912).
  { intros He21.
    assert (HN24 : N1 = 24) by (revert He21 He1; unfold fexp, emin, prec32, emax32; lia).
    rewrite Hqd, HN24. apply Z.div_lt_upper_bound; [done|].
    change (2 ^ 24) with 16777216. lia. }
  remember (Z.max 0 (fexp prec32 emax32 (Zdigits2 m1 + e1) - e1)) as N2 eqn:HN2d.
  assert (Hres : m1 / 2 ^ N2 = 0
                 \/ exists p, m1 / 2 ^ N2 = Zpos p
                      /\ (e1 + N2 < -21 \/ (e1 + N2 = -21 /\ Zpos p <= 12582912))).
  { destruct (Z.eq_dec m1 0) as [->|Hm10]; [left; apply Z.div_0_l; apply Z.pow_nonzero; lia|].
    right. destruct (Z.eq_dec m1 16777216) as [->|Hm1x].
    - (* the rounding carried to 2^24 *)
      assert (HN2 : N2 = 1)
        by (rewrite HN2d; change (Zdigits2 16777216) with 25;
            unfold fexp, emin, prec32, emax32; lia).
      exists 8388608%positive. rewrite HN2. split; [reflexivity|].
      assert (e1 <> -21) by (intros Hx; specialize (Hq6 Hx); lia). lia.
    - assert (Hdm1 : Zdigits2 m1 <= 24).
      { apply Zdigits2_le; [lia|lia|]. change (2 ^ 24) with 16777216. lia. }
      destruct (Zdigits2_bounds m1 ltac:(lia)) as [Hdm1' _].
      assert (HN2 : N2 = 0) by (rewrite HN2d; unfold fexp, emin, prec32, emax32; lia).
      rewrite HN2, Z.pow_0_r, Z.div_1_r, Z.add_0_r.
      destruct m1 as [|p|p]; try lia. exists p. split; [done|].
      destruct (Z.eq_dec e1 (-21)) as [He21|]; [|lia].
      right. split; [done|]. specialize (Hq6 He21). lia. }
  destruct Hres as [-> | (p & -> & Hp)]; [done|].
  assert (Hfin : (e1 + N2 <=? emax32 - prec32) = true)
    by (apply Z.leb_le; unfold prec32, emax32; lia).
  rewrite Hfin. split; [done|]. by apply SFleb_finite.
Qed.

(** ** The Huovilainen registers on exit *)

Section HuovRegisters.
Context `{Host}.

Lemma gather_length {B : Type} `{Inhabited B} (n : nat) (g : nat -> B) :
  length (for_loop n (fun i a => <[i := g i]> a) (uninit n)) = n.
Proof. rewrite fill_length. apply length_replicate. Qed.

Lemma Huov_lane_sync f in_ C_ v so (k : nat) :
  (v < 4)%nat -> active f !!! v = true -> locals_ok Huov.n_state so -> (k < 4)%nat ->
  get2 (Huov.process_lane f in_ C_ v so).1 (k + 7) v
  = get2 (Huov.process_lane f in_ C_ v so).1 k v.
Proof.
  intros Hv Ha [Hs Ho] Hk. destruct so as [st out]. cbn [fst snd] in *.
  unfold Huov.process_lane. rewrite Ha. cbn [negb].
  pose proof (Huov_processCore_sync (to_double (in_ !!! v))
    (for_loop Huov.n_coef (fun i a => <[i := to_double (get2 C_ i v)]> a) (uninit Huov.n_coef))
    (for_loop 4 (fun i a => <[i := to_double (get2 st i v)]> a) (uninit 4))
    (for_loop 3 (fun i a => <[i := to_double (get2 st (i + 4) v)]> a) (uninit 3))
    (for_loop 6 (fun i a => <[i := to_double (get2 st (i + 7) v)]> a) (uninit 6))
    k (gather_length 4 _) (gather_length 3 _) (gather_length 6 _) Hk) as Hsync.
  destruct (Huov.processCore _ _ _ _ _) as [o [[stage' stageTanh'] delay']].
  cbn [fst snd] in *.
  rewrite !scatter0_eq.
  repeat (rewrite !(scatter_same_lane Huov.n_state 4)
            by (repeat apply scatter_shaped; assumption || (cbv; lia))).
  repeat case_decide; try lia.
  replace (k + 7 - 7)%nat with k by lia. replace (k - 0)%nat with k by lia.
  by rewrite Hsync.
Qed.

Lemma Huov_process_sync f inm out0 v (k : nat) :
  (v < 4)%nat -> (Huov.n_state <= length (R f))%nat -> active f !!! v = true ->
  (k < 4)%nat ->
  lane v (R (Huov.process f inm out0).2 !!! (Huov.h_delay + k)%nat)
  = lane v (R (Huov.process f inm out0).2 !!! (Huov.h_stage + k)%nat).
Proof.
  intros Hv Hl Ha Hk.
  destruct (batch_lane_holds Huov.n_coef Huov.n_state Huov.process_lane
              Huov_lane_other Huov_lane_ok
              (fun so => forall k, (k < 4)%nat -> get2 so.1 (k + 7) v = get2 so.1 k v)
              f inm out0 v Hv Hl) as (so & HQ & HR).
  - intros so so' [Hag _] HQ k' Hk'. rewrite !Hag. by apply HQ.
  - intros in_ C_ so Hok k' Hk'. by apply Huov_lane_sync.
  - change (Huov.process f inm out0)
      with (batch Huov.n_coef Huov.n_state Huov.process_lane f inm out0).
    replace (Huov.h_delay + k)%nat with (k + 7)%nat by (unfold Huov.h_delay; lia).
    replace (Huov.h_stage + k)%nat with k by (unfold Huov.h_stage; lia).
    rewrite !HR by (unfold Huov.n_state; lia). by apply HQ.
Qed.

End HuovRegisters.

(** ** Values of the formats, and the clamped frequency *)

Lemma to_float_valid (y : f64) : valid32 (to_float y) = true.
Proof. unfold valid32, to_float. cbn [raw32]. by apply round_to_valid. Qed.

Lemma to_float_to_double (x : f32) : valid32 x = true -> to_float (to_double x) = x.
Proof.
  destruct x as [x]. unfold valid32, to_float, to_double. cbn [raw32 raw64].
  intros Hx. f_equal. by apply widen_narrow.
Qed.

Lemma int32_0_raw : int32 0 = F32 sf_zero.
Proof. reflexivity. Qed.
Lemma int32_1_raw : int32 1 = F32 sf_one.
Proof. vm_compute. reflexivity. Qed.
Lemma int32_6_raw : int32 6 = F32 sf_six.
Proof. vm_compute. reflexivity. Qed.

Lemma mul32_6_bounds (x : f32) :
  valid32 x = true -> (int32 0 <=? x)%f32 = true -> (x <=? int32 1)%f32 = true ->
  (int32 0 <=? x * int32 6)%f32 = true /\ (x * int32 6 <=? int32 6)%f32 = true.
Proof.
  rewrite int32_0_raw, int32_1_raw, int32_6_raw. destruct x as [x].
  unfold valid32, leb32, mul32. cbn [raw32]. apply mul6_bounds.
Qed.

Section Frequency.
Context `{Host}.

Lemma limit_range_valid (x low high : f32) :
  valid32 x = true -> valid32 low = true -> valid32 high = true ->
  valid32 (Common.limit_range x low high) = true.
Proof.
  intros Hx Hl Hh.
  destruct (limit_range_cases x low high) as [-> |[-> | ->]]; assumption.
Qed.

Lemma clampedFrequency_clamp (pitch : f32) (storage : SurgeStorage) :
  Common.clampedFrequency pitch storage
  = Common.limit_range (Reference.hz_ignoring_tuning storage pitch) (dec32 5 1)
      Reference.band_top_computed.
Proof.
  unfold Common.clampedFrequency. apply to_float_to_double.
  apply limit_range_valid; [apply to_float_valid|reflexivity|apply to_float_valid].
Qed.

End Frequency.

(** ** The coefficient arrays *)

Lemma set_C_lookup (cm : FilterCoefficientMaker) (i j : nat) (x : f32) :
  cmC (set_C cm i x) !!! j
  = if decide (i = j /\ i < length (cmC cm))%nat then x else cmC cm !!! j.
Proof. unfold set_C. cbn [cmC]. apply list_lookup_total_insert. Qed.

Lemma set_C_length (cm : FilterCoefficientMaker) (i : nat) (x : f32) :
  length (cmC (set_C cm i x)) = length (cmC cm).
Proof. unfold set_C. cbn [cmC]. apply length_insert. Qed.

Ltac coef_lookup :=
  rewrite ?set_C_lookup, ?set_C_length;
  repeat (case_decide; [| try (exfalso; lia)]); try (exfalso; lia).

(** * The stated properties *)

(** ** Batch processing *)

(** C1.  In every batch-processing call of each of the four models, a lane
    whose [active] flag is false passes through: each register of the
    block holds, in that lane, the very value it held before the call (it
    is stored and loaded back, never computed with), whatever the input
    vector and whatever the other lanes compute; and no output is written
    for it (that lane of the returned vector holds what the uninitialised
    local [out] held on entry). *)
Theorem inactive_lane_passes_through `{Host} (m : Model) (f : QuadFilterUnitState)
    (inm out0 : m128) (v : nat) :
  active f !!! v = false ->
  (forall i, lane v (R (process_of m f inm out0).2 !!! i) = lane v (R f !!! i))
  /\ lane v (process_of m f inm out0).1 = lane v out0.
Proof.
  intros Hv. destruct (process_frame m f inm out0 v Hv) as (HR & _ & _ & Ho). by split.
Qed.

Lemma inactive_lane_passes_through_witness :
  active Example.batch1 !!! 1%nat = false
  /\ (forall i, lane 1 (R (@process_of Example.host Huov_model Example.batch1 Example.in1
                             Example.garbage1).2 !!! i)
                = lane 1 (R Example.batch1 !!! i))
  /\ lane 1 (@process_of Example.host Huov_model Example.batch1 Example.in1
               Example.garbage1).1
     = lane 1 Example.garbage1.
Proof.
  split; [reflexivity|].
  apply (@inactive_lane_passes_through Example.host Huov_model Example.batch1 Example.in1
           Example.garbage1 1%nat).
  reflexivity.
Defined.

(** C9.  The single-lane per-sample step of each of the four models (what
    [process] does for one active lane: it gathers the lane's coefficients
    and registers, runs [rungekutteSolver] or [processCore] on them and on
    the lane's input, and scatters the result) is deterministic: two runs
    given the same coefficients, the same prior registers and the same
    input for the lane yield the same output and the same next registers
    for it, whatever else differs between them (the other lanes, the
    registers beyond those of the model, the content of the uninitialised
    output array).  Nothing else is read but the sample-rate and thermal
    constants, which are those of the one host. *)
Theorem lane_step_deterministic `{Host} (m : Model) (f1 f2 : QuadFilterUnitState)
    (inm1 inm2 out1 out2 : m128) (v : nat) :
  (v < 4)%nat ->
  (n_state_of m <= length (R f1))%nat -> (n_state_of m <= length (R f2))%nat ->
  active f1 !!! v = true -> active f2 !!! v = true ->
  lane v inm1 = lane v inm2 ->
  lane_coefs (n_coef_of m) v f1 = lane_coefs (n_coef_of m) v f2 ->
  lane_regs (n_state_of m) v f1 = lane_regs (n_state_of m) v f2 ->
  lane v (process_of m f1 inm1 out1).1 = lane v (process_of m f2 inm2 out2).1
  /\ lane_regs (n_state_of m) v (process_of m f1 inm1 out1).2
     = lane_regs (n_state_of m) v (process_of m f2 inm2 out2).2.
Proof.
  intros Hv Hl1 Hl2 Ha1 Ha2 Hin HC HR.
  unfold lane_coefs in HC. unfold lane_regs in HR |- *.
  rewrite map_seq_eq in HC. rewrite map_seq_eq in HR. rewrite map_seq_eq.
  by apply process_lane_function.
Qed.

Lemma lane_step_deterministic_witness :
  (0 < 4)%nat
  /\ (n_state_of Kraj_model <= length (R Example.batch1))%nat
  /\ (n_state_of Kraj_model <= length (R Example.batch2))%nat
  /\ active Example.batch1 !!! 0%nat = true /\ active Example.batch2 !!! 0%nat = true
  /\ lane 0 Example.in1 = lane 0 Example.in2
  /\ lane_coefs (n_coef_of Kraj_model) 0 Example.batch1
     = lane_coefs (n_coef_of Kraj_model) 0 Example.batch2
  /\ lane_regs (n_state_of Kraj_model) 0 Example.batch1
     = lane_regs (n_state_of Kraj_model) 0 Example.batch2
  /\ lane 0 (@process_of Example.host Kraj_model Example.batch1 Example.in1
               Example.garbage1).1
     = lane 0 (@process_of Example.host Kraj_model Example.batch2 Example.in2
                 Example.garbage2).1
  /\ lane_regs (n_state_of Kraj_model) 0
       (@process_of Example.host Kraj_model Example.batch1 Example.in1 Example.garbage1).2
     = lane_regs (n_state_of Kraj_model) 0
         (@process_of Example.host Kraj_model Example.batch2 Example.in2 Example.garbage2).2.
Proof.
  assert (H4 : (0 < 4)%nat) by lia.
  assert (Hl1 : (n_state_of Kraj_model <= length (R Example.batch1))%nat) by (vm_compute; lia).
  assert (Hl2 : (n_state_of Kraj_model <= length (R Example.batch2))%nat) by (vm_compute; lia).
  assert (Ha1 : active Example.batch1 !!! 0%nat = true) by reflexivity.
  assert (Ha2 : active Example.batch2 !!! 0%nat = true) by reflexivity.
  assert (Hi : lane 0 Example.in1 = lane 0 Example.in2) by reflexivity.
  assert (HC : lane_coefs (n_coef_of Kraj_model) 0 Example.batch1
               = lane_coefs (n_coef_of Kraj_model) 0 Example.batch2) by reflexivity.
  assert (HR : lane_regs (n_state_of Kraj_model) 0 Example.batch1
               = lane_regs (n_state_of Kraj_model) 0 Example.batch2) by reflexivity.
  split; [exact H4|]. split; [exact Hl1|]. split; [exact Hl2|]. split; [exact Ha1|].
  split; [exact Ha2|]. split; [exact Hi|]. split; [exact HC|]. split; [exact HR|].
  exact (@lane_step_deterministic Example.host Kraj_model Example.batch1 Example.batch2
           Example.in1 Example.in2 Example.garbage1 Example.garbage2 0%nat
           H4 Hl1 Hl2 Ha1 Ha2 Hi HC HR).
Defined.

(** ** Coefficient derivation *)

(** C2, as the code has it.  For every pitch [clampedFrequency] returns
    the conversion of [pitch + 69] to Hz that ignores the tuning (the
    ratio [note_to_pitch_ignoring_tuning] of the storage times
    [MIDI_0_FREQ]) clamped to the band from 5 Hz to the upper end the code
    computes, [(float)(dsamplerate_os * 0.3f)]: the float nearest the
    product of the internal sample rate and the float [0.3f], which may
    lie above 0.3 times the internal sample rate.  Where 5 Hz does not
    exceed that upper end, the result is at least 5, hence strictly
    positive, and at most the upper end; where it does, or the upper end
    is a NaN, the result is the upper end.  The function is total: no
    pitch is rejected, a NaN included. *)
Theorem clampedFrequency_band `{Host} (pitch : f32) (storage : SurgeStorage) :
  Common.clampedFrequency pitch storage
  = Common.limit_range (Reference.hz_ignoring_tuning storage pitch) (dec32 5 1)
      Reference.band_top_computed
  /\ ((dec32 5 1 <=? Reference.band_top_computed)%f32 = true ->
      (dec32 5 1 <=? Common.clampedFrequency pitch storage)%f32 = true
      /\ (int32 0 <? Common.clampedFrequency pitch storage)%f32 = true
      /\ (Common.clampedFrequency pitch storage <=? Reference.band_top_computed)%f32 = true)
  /\ ((dec32 5 1 <=? Reference.band_top_computed)%f32 = false ->
      Common.clampedFrequency pitch storage = Reference.band_top_computed).
Proof.
  split; [apply clampedFrequency_clamp|]. rewrite clampedFrequency_clamp. split.
  - intros Hband.
    destruct (limit_range_bounds (Reference.hz_ignoring_tuning storage pitch) _ _ Hband)
      as [Hlo Hhi].
    split; [exact Hlo|]. split; [by apply above_five_positive|exact Hhi].
  - apply limit_range_empty_band.
Qed.

Lemma clampedFrequency_band_witness :
  (dec32 5 1 <=? @Reference.band_top_computed Example.host)%f32 = true
  /\ @Common.clampedFrequency Example.host (int32 (-9)) Example.storage
     = Common.limit_range (@Reference.hz_ignoring_tuning Example.host Example.storage (int32 (-9)))
         (dec32 5 1) (@Reference.band_top_computed Example.host)
  /\ (dec32 5 1 <=? @Common.clampedFrequency Example.host (int32 (-9)) Example.storage)%f32 = true
  /\ (int32 0 <? @Common.clampedFrequency Example.host (int32 (-9)) Example.storage)%f32 = true
  /\ (@Common.clampedFrequency Example.host (int32 (-9)) Example.storage
      <=? @Reference.band_top_computed Example.host)%f32 = true.
Proof.
  assert (Hband : (dec32 5 1 <=? @Reference.band_top_computed Example.host)%f32 = true)
    by (vm_compute; reflexivity).
  split; [exact Hband|].
  destruct (@clampedFrequency_band Example.host (int32 (-9)) Example.storage)
    as (Hclamp & Hin & _).
  split; [exact Hclamp|]. exact (Hin Hband).
Defined.

(** C2, as stated, fails in three places.

    The conversion the code clamps is the one that ignores the tuning,
    not the tuning-aware one: with a scale loaded under which key 60
    sounds an octave above equal temperament, the pitch -9 (key 60) yields
    about 261.6 Hz, where the clamped tuning-aware conversion is about
    523.3 Hz.

    The result may exceed 0.3 times the internal sample rate: at 96 kHz a
    pitch of 75 (key 144, about 33.5 kHz) yields 14745601/512 =
    28800.001953125 Hz, above 0.3 x 96000 = 28800.

    The result may be below 5: at an internal sample rate of 10 Hz every
    pitch yields 3 Hz. *)
Lemma clampedFrequency_not_as_stated :
  (@Common.clampedFrequency Example.host (int32 (-9)) Example.storage
   = F32 (S754_finite false 8572947 (-15))
   /\ Common.limit_range (@Reference.hz_tuning_aware Example.host Example.storage (int32 (-9)))
        (dec32 5 1) (@Reference.band_top_computed Example.host)
      = F32 (S754_finite false 8572947 (-14))
   /\ @Common.clampedFrequency Example.host (int32 (-9)) Example.storage
      <> Common.limit_range
           (@Reference.hz_tuning_aware Example.host Example.storage (int32 (-9)))
           (dec32 5 1) (@Reference.band_top_computed Example.host))
  /\ (Reference.value
        (raw32 (@Common.clampedFrequency Example.host (int32 75) Example.storage_high))
      = Some (QArith_base.Qmake 14745601 512)
      /\ @Reference.band_top_stated Example.host = Some (QArith_base.Qmake 28800 1)
      /\ QArith_base.Qlt (QArith_base.Qmake 28800 1) (QArith_base.Qmake 14745601 512))
  /\ (@Common.clampedFrequency Example.host_slow (int32 (-9)) Example.storage = int32 3
      /\ (dec32 5 1 <=? int32 3)%f32 = false).
Proof.
  split; [|split].
  - vm_compute. repeat split; try reflexivity. discriminate.
  - split; [vm_compute; reflexivity|]. split; [vm_compute; reflexivity|].
    vm_compute. reflexivity.
  - split; vm_compute; reflexivity.
Qed.

(** C3.  For every requested resonance (below 0, above 0.994, infinite or
    NaN included) the Huovilainen coefficient derivation stores as
    resonance coefficient the request clamped to the band from 0 to 0.994
    (the float [0.994f]): a float that is at least 0 and at most 0.994,
    never above; and the coefficient [resquad] is the float nearest to 4
    times the clamped resonance times [acr], the product taken in double
    precision with the double [acr] whose narrowing is the coefficient
    [acr]. *)
Theorem Huov_resonance_clamped `{Host} (cm : FilterCoefficientMaker) (freq reso : f32)
    (storage : SurgeStorage) :
  (6 <= length (cmC cm))%nat ->
  let cm' := Huov.makeCoefficients cm freq reso storage in
  let res := cmC cm' !!! Huov.h_res in
  let acr := Reference.huov_acr (Common.clampedFrequency freq storage) in
  res = Common.limit_range reso (int32 0) (dec32 994 1000)
  /\ (int32 0 <=? res)%f32 = true
  /\ (res <=? dec32 994 1000)%f32 = true
  /\ cmC cm' !!! Huov.h_resquad = to_float (dec64 4 1 * to_double res * acr)%f64
  /\ cmC cm' !!! Huov.h_acr = to_float acr.
Proof.
  intros Hlen cm' res acr.
  assert (Hres : res = Common.limit_range reso (int32 0) (dec32 994 1000)).
  { subst res cm'. unfold Huov.makeCoefficients.
    cbv [Huov.h_res Huov.h_resquad Huov.h_tune Huov.h_thermal Huov.h_acr Huov.h_cutoff].
    by coef_lookup. }
  destruct (limit_range_bounds reso (int32 0) (dec32 994 1000)) as [Hlo Hhi];
    [by vm_compute|].
  rewrite Hres. repeat split; try assumption.
  - subst cm'. unfold Huov.makeCoefficients.
    cbv [Huov.h_res Huov.h_resquad Huov.h_tune Huov.h_thermal Huov.h_acr Huov.h_cutoff].
    by coef_lookup.
  - subst cm'. unfold Huov.makeCoefficients.
    cbv [Huov.h_res Huov.h_resquad Huov.h_tune Huov.h_thermal Huov.h_acr Huov.h_cutoff].
    by coef_lookup.
Qed.

Lemma Huov_resonance_clamped_witness :
  (6 <= length (cmC Example.cm))%nat
  /\ let cm' := @Huov.makeCoefficients Example.host Example.cm (int32 (-9)) (dec32 3 2)
                  Example.storage in
     let res := cmC cm' !!! Huov.h_res in
     let acr := @Reference.huov_acr Example.host
                  (@Common.clampedFrequency Example.host (int32 (-9)) Example.storage) in
     res = Common.limit_range (dec32 3 2) (int32 0) (dec32 994 1000)
     /\ (int32 0 <=? res)%f32 = true
     /\ (res <=? dec32 994 1000)%f32 = true
     /\ cmC cm' !!! Huov.h_resquad = to_float (dec64 4 1 * to_double res * acr)%f64
     /\ cmC cm' !!! Huov.h_acr = to_float acr.
Proof.
  assert (Hlen : (6 <= length (cmC Example.cm))%nat) by (vm_compute; lia).
  split; [exact Hlen|].
  exact (@Huov_resonance_clamped Example.host Example.cm (int32 (-9)) (dec32 3 2)
           Example.storage Hlen).
Defined.

(** C8, as the code has it.  For every pitch and every resonance the RK
    coefficient derivation stores as cutoff coefficient 2 pi times the
    clamped frequency (the product taken in double precision, narrowed to
    float), as saturation pair the floats 3 and nearest to 1/3, and as
    resonance coefficient the float product of the request and 6, without
    a clamp; when the request is a float of the band from 0 to 1 that
    coefficient is a float of the band from 0 to 6. *)
Theorem RK_coefficients `{Host} (cm : FilterCoefficientMaker) (freq reso : f32)
    (storage : SurgeStorage) :
  (4 <= length (cmC cm))%nat ->
  let cm' := RK.makeCoefficients cm freq reso storage in
  cmC cm' !!! RK.rkm_cutoff
  = to_float (to_double (Common.clampedFrequency freq storage) * dec64 2 1 * M_PI)%f64
  /\ cmC cm' !!! RK.rkm_sat = int32 3
  /\ cmC cm' !!! RK.rkm_satinv = dec32 1 3
  /\ cmC cm' !!! RK.rkm_reso = (reso * int32 6)%f32
  /\ (valid32 reso = true -> (int32 0 <=? reso)%f32 = true -> (reso <=? int32 1)%f32 = true ->
      (int32 0 <=? cmC cm' !!! RK.rkm_reso)%f32 = true
      /\ (cmC cm' !!! RK.rkm_reso <=? int32 6)%f32 = true).
Proof.
  intros Hlen cm'.
  assert (Hreso : cmC cm' !!! RK.rkm_reso = (reso * int32 6)%f32).
  { subst cm'. unfold RK.makeCoefficients.
    cbv [RK.rkm_cutoff RK.rkm_reso RK.rkm_sat RK.rkm_satinv]. by coef_lookup. }
  repeat split.
  - subst cm'. unfold RK.makeCoefficients.
    cbv [RK.rkm_cutoff RK.rkm_reso RK.rkm_sat RK.rkm_satinv]. by coef_lookup.
  - subst cm'. unfold RK.makeCoefficients.
    cbv [RK.rkm_cutoff RK.rkm_reso RK.rkm_sat RK.rkm_satinv]. coef_lookup.
    by vm_compute.
  - subst cm'. unfold RK.makeCoefficients.
    cbv [RK.rkm_cutoff RK.rkm_reso RK.rkm_sat RK.rkm_satinv]. coef_lookup.
    by vm_compute.
  - exact Hreso.
  - rewrite Hreso. by apply mul32_6_bounds.
  - rewrite Hreso. by apply mul32_6_bounds.
Qed.

Lemma RK_coefficients_witness :
  (4 <= length (cmC Example.cm))%nat
  /\ valid32 (dec32 1 2) = true
  /\ (int32 0 <=? dec32 1 2)%f32 = true
  /\ (dec32 1 2 <=? int32 1)%f32 = true
  /\ let cm' := @RK.makeCoefficients Example.host Example.cm (int32 (-9)) (dec32 1 2)
                  Example.storage in
     cmC cm' !!! RK.rkm_reso = (dec32 1 2 * int32 6)%f32
     /\ (int32 0 <=? cmC cm' !!! RK.rkm_reso)%f32 = true
     /\ (cmC cm' !!! RK.rkm_reso <=? int32 6)%f32 = true.
Proof.
  assert (Hlen : (4 <= length (cmC Example.cm))%nat) by (vm_compute; lia).
  assert (Hv : valid32 (dec32 1 2) = true) by (vm_compute; reflexivity).
  assert (H0 : (int32 0 <=? dec32 1 2)%f32 = true) by (vm_compute; reflexivity).
  assert (H1 : (dec32 1 2 <=? int32 1)%f32 = true) by (vm_compute; reflexivity).
  split; [exact Hlen|]. split; [exact Hv|]. split; [exact H0|]. split; [exact H1|].
  destruct (@RK_coefficients Example.host Example.cm (int32 (-9)) (dec32 1 2)
              Example.storage Hlen) as (_ & _ & _ & Hreso & Hband).
  split; [exact Hreso|]. exact (Hband Hv H0 H1).
Defined.

(** C8, as stated, fails: a resonance of 2 gives the coefficient 12, which
    is above 6. *)
Lemma RK_resonance_above_six :
  cmC (@RK.makeCoefficients Example.host Example.cm (int32 (-9)) (int32 2) Example.storage)
    !!! RK.rkm_reso = int32 12
  /\ (cmC (@RK.makeCoefficients Example.host Example.cm (int32 (-9)) (int32 2)
             Example.storage) !!! RK.rkm_reso <=? int32 6)%f32 = false.
Proof. vm_compute. split; reflexivity. Qed.

(** ** The scalar steps *)

(** C4.  For every input, every coefficient vector (cutoff [k], resonance
    [r], saturation pair) and every prior state [y1 .. y4], one RK step is
    one step of the classical fourth-order Runge-Kutta method, of size one
    internal sample period, for the system [y1' = k (S (x - r y4) - S y1)],
    [y2' = k (S y1 - S y2)], [y3' = k (S y2 - S y3)],
    [y4' = k (S y3 - S y4)], where [S] is the cubic soft-clip: the
    argument scaled by the reciprocal of the saturation (the second float
    of the pair) is clamped to [[-1, 1]] into [v], and [S] is
    [sat (v - v^3 / 3)]; and the output written for the lane is the
    updated [y4], narrowed to float. *)
Theorem RK_step_is_classical_rk4 `{Host} (input : f32) (y : Reference.vec4)
    (k r sat satInv : f32) :
  RK.rungekutteSolver input (Reference.vec4_list y) k r sat satInv
  = Reference.vec4_list
      (Reference.rk4_step (Reference.ladder_ode k r sat satInv input) dsamplerate_os_inv y)
  /\ (forall value, RK.clip value sat satInv = Reference.soft_clip sat satInv value)
  /\ forall (f : QuadFilterUnitState) (in_ : list f32) (C_ state : list (list f32))
       (out : list f32) (v : nat),
       let y0 := (to_double (get2 state 0 v), to_double (get2 state 1 v),
                  to_double (get2 state 2 v), to_double (get2 state 3 v)) in
       let y' := Reference.rk4_step
                   (Reference.ladder_ode (get2 C_ RK.rkm_cutoff v) (get2 C_ RK.rkm_reso v)
                      (get2 C_ RK.rkm_sat v) (get2 C_ RK.rkm_satinv v) (in_ !!! v))
                   dsamplerate_os_inv y0 in
       (RK.process_lane f in_ C_ v (state, out)).2
       = if (active f !!! v : bool) then <[v := to_float (snd y')]> out else out.
Proof.
  split; [|split].
  - destruct y as [[[y1 y2] y3] y4].
    apply (rungekutteSolver_rk4 input [y1; y2; y3; y4]). reflexivity.
  - intros value. apply clip_soft_clip.
  - intros f in_ C_ state out v y0 y'.
    unfold RK.process_lane. destruct (active f !!! v); [|reflexivity]. cbn [negb snd].
    change (for_loop RK.n_state (fun i dstate => <[i := to_double (get2 state i v)]> dstate)
              (uninit RK.n_state))
      with (Reference.vec4_list y0).
    rewrite (rungekutteSolver_rk4 _ (Reference.vec4_list y0)) by reflexivity.
    change (Reference.vec4_list y0 !!! 0%nat, Reference.vec4_list y0 !!! 1%nat,
            Reference.vec4_list y0 !!! 2%nat, Reference.vec4_list y0 !!! 3%nat) with y0.
    fold y'. clearbody y'. by destruct y' as [[[a b] c] d].
Qed.

(** C5.  For every input, coefficients and prior registers, one
    Huovilainen step runs its internal pass twice.  A pass takes the input
    less [resquad] times [delay[5]] (held in a float), adds to [delay[0]]
    [tune] times the difference of the tanh of that input times [thermal]
    and the cached [stageTanh[0]], and carries stages 1 to 3 the same way,
    each from the freshly cached tanh of the stage before it and its own
    cached tanh, except that stage 3 recomputes the tanh of [delay[3]]
    times [thermal]; it then sets [delay[5]] to half the sum of the new
    stage-3 output and [delay[4]], and [delay[4]] to the new stage-3
    output.  The value returned is [delay[5]] after the second pass. *)
Theorem Huov_step_two_passes `{Host} (in_ : f64) (coeff stage stageTanh delay : list f64) :
  length stage = 4%nat -> length stageTanh = 3%nat -> length delay = 6%nat ->
  Huov.processCore in_ coeff stage stageTanh delay
  = Reference.huov_step in_ (coeff !!! Huov.h_resquad) (coeff !!! Huov.h_thermal)
      (coeff !!! Huov.h_tune) stageTanh delay.
Proof. apply Huov_processCore_step. Qed.

Lemma Huov_step_two_passes_witness :
  length [int64 0; int64 0; int64 0; int64 0] = 4%nat
  /\ length [int64 0; int64 0; int64 0] = 3%nat
  /\ length [int64 0; int64 0; int64 0; int64 0; int64 0; int64 0] = 6%nat
  /\ @Huov.processCore Example.host (int64 1)
       [int64 261; dec64 1 2; dec64 25 1000000; int64 40000; int64 1; int64 2]
       [int64 0; int64 0; int64 0; int64 0] [int64 0; int64 0; int64 0]
       [int64 0; int64 0; int64 0; int64 0; int64 0; int64 0]
     = @Reference.huov_step Example.host (int64 1) (int64 2) (dec64 25 1000000) (int64 40000)
         [int64 0; int64 0; int64 0]
         [int64 0; int64 0; int64 0; int64 0; int64 0; int64 0].
Proof.
  do 3 (split; [reflexivity|]).
  exact (@Huov_step_two_passes Example.host (int64 1)
           [int64 261; dec64 1 2; dec64 25 1000000; int64 40000; int64 1; int64 2]
           [int64 0; int64 0; int64 0; int64 0] [int64 0; int64 0; int64 0]
           [int64 0; int64 0; int64 0; int64 0; int64 0; int64 0]
           eq_refl eq_refl eq_refl).
Defined.

(** C6.  For every input, coefficients and prior registers, one Krajeski
    step sets [state[0]] to the tanh of [drive] times the input less
    [4 gRes (state[4] - gComp in)], then for each stage [i] from 0 to 3
    sets [state[i+1]] to [state[i+1]] plus [g] times
    [(0.3/1.3) state[i] + (1/1.3) delay[i] - state[i+1]] and [delay[i]] to
    the new [state[i]], and returns [state[4]]. *)
Theorem Kraj_step_formula `{Host} (in_ : f64) (coeff state delay : list f64) :
  length state = 5%nat -> length delay = 5%nat ->
  Kraj.processCore in_ coeff state delay
  = Reference.kraj_step in_ (coeff !!! Kraj.k_drive) (coeff !!! Kraj.k_gRes)
      (coeff !!! Kraj.k_gComp) (coeff !!! Kraj.k_g) state delay.
Proof. apply Kraj_processCore_step. Qed.

Lemma Kraj_step_formula_witness :
  length [int64 0; dec64 1 2; dec64 1 4; dec64 1 8; dec64 1 16] = 5%nat
  /\ length [dec64 1 3; dec64 1 5; dec64 1 7; dec64 1 9; int64 0] = 5%nat
  /\ @Kraj.processCore Example.host (int64 1)
       [int64 261; dec64 1 2; dec64 17 1000; dec64 17 1000; dec64 1 2; int64 1; int64 1]
       [int64 0; dec64 1 2; dec64 1 4; dec64 1 8; dec64 1 16]
       [dec64 1 3; dec64 1 5; dec64 1 7; dec64 1 9; int64 0]
     = @Reference.kraj_step Example.host (int64 1) (int64 1) (dec64 1 2) (int64 1)
         (dec64 17 1000)
         [int64 0; dec64 1 2; dec64 1 4; dec64 1 8; dec64 1 16]
         [dec64 1 3; dec64 1 5; dec64 1 7; dec64 1 9; int64 0].
Proof.
  do 2 (split; [reflexivity|]).
  exact (@Kraj_step_formula Example.host (int64 1)
           [int64 261; dec64 1 2; dec64 17 1000; dec64 17 1000; dec64 1 2; int64 1; int64 1]
           [int64 0; dec64 1 2; dec64 1 4; dec64 1 8; dec64 1 16]
           [dec64 1 3; dec64 1 5; dec64 1 7; dec64 1 9; int64 0] eq_refl eq_refl).
Defined.

(** C7.  For every input, coefficients and prior registers, one step of
    the Improved model computes, stage after stage, the derivative
    [dV0 = -g (tanh ((drive in + resonance V[3]) / (2 VT)) + tV[0])] and
    [dVi = g (tV[i-1] - tV[i])] for [i] from 1 to 3, with [tV[i-1]]
    already refreshed; adds to [V[i]] half the sum of the new and the old
    derivative times one internal sample period; stores the new
    derivative in [dV[i]]; refreshes [tV[i]] to [tanh (V[i] / (2 VT))],
    where [VT] is the float 0.312; and returns [V[3]]. *)
Theorem Improved_step_formula `{Host} (in_ : f64) (coeff V dV tV : list f64) :
  length V = 4%nat -> length dV = 4%nat -> length tV = 4%nat ->
  Improved.processCore in_ coeff V dV tV
  = Reference.improved_step in_ (coeff !!! Improved.i_drive) (coeff !!! Improved.i_reso)
      (coeff !!! Improved.i_g) V dV tV
  /\ Reference.VT = to_double Improved.VT
  /\ Improved.VT = dec32 312 1000.
Proof.
  intros HV HdV HtV. split; [by apply Improved_processCore_step|].
  split; [reflexivity|]. vm_compute. reflexivity.
Qed.

Lemma Improved_step_formula_witness :
  length [dec64 1 2; dec64 1 4; dec64 1 8; dec64 1 16] = 4%nat
  /\ length [int64 3; int64 2; int64 1; int64 0] = 4%nat
  /\ length [dec64 1 3; dec64 1 5; dec64 1 7; dec64 1 9] = 4%nat
  /\ @Improved.processCore Example.host (int64 1)
       [int64 261; int64 2; dec64 1 100; int64 1000; int64 1]
       [dec64 1 2; dec64 1 4; dec64 1 8; dec64 1 16] [int64 3; int64 2; int64 1; int64 0]
       [dec64 1 3; dec64 1 5; dec64 1 7; dec64 1 9]
     = @Reference.improved_step Example.host (int64 1) (int64 1) (int64 2) (int64 1000)
         [dec64 1 2; dec64 1 4; dec64 1 8; dec64 1 16] [int64 3; int64 2; int64 1; int64 0]
         [dec64 1 3; dec64 1 5; dec64 1 7; dec64 1 9].
Proof.
  do 3 (split; [reflexivity|]).
  exact (proj1 (@Improved_step_formula Example.host (int64 1)
           [int64 261; int64 2; dec64 1 100; int64 1000; int64 1]
           [dec64 1 2; dec64 1 4; dec64 1 8; dec64 1 16] [int64 3; int64 2; int64 1; int64 0]
           [dec64 1 3; dec64 1 5; dec64 1 7; dec64 1 9] eq_refl eq_refl eq_refl)).
Defined.

(** C10.  After every Huovilainen step the first four delay taps are the
    stage outputs, for arbitrary prior registers: [delay[k] = stage[k]] for
    every [k] from 0 to 3 in the arrays [processCore] leaves, and so, for
    an active lane, in the register block [process] leaves (registers
    [h_delay + k] and [h_stage + k]). *)
Theorem Huov_delay_taps_follow_stages `{Host} (in_ : f64)
    (coeff stage stageTanh delay : list f64)
    (f : QuadFilterUnitState) (inm out0 : m128) (v k : nat) :
  length stage = 4%nat -> length stageTanh = 3%nat -> length delay = 6%nat ->
  (k < 4)%nat ->
  (v < 4)%nat -> (Huov.n_state <= length (R f))%nat -> active f !!! v = true ->
  (Huov.processCore in_ coeff stage stageTanh delay).2.2 !!! k
  = (Huov.processCore in_ coeff stage stageTanh delay).2.1.1 !!! k
  /\ lane v (R (Huov.process f inm out0).2 !!! (Huov.h_delay + k)%nat)
     = lane v (R (Huov.process f inm out0).2 !!! (Huov.h_stage + k)%nat).
Proof.
  intros Hs Ht Hd Hk Hv Hl Ha. split.
  - by apply Huov_processCore_sync.
  - by apply Huov_process_sync.
Qed.

Lemma Huov_delay_taps_follow_stages_witness :
  length [int64 5; int64 6; int64 7; int64 8] = 4%nat
  /\ length [dec64 1 2; dec64 1 3; dec64 1 4] = 3%nat
  /\ length [int64 1; int64 2; int64 3; int64 4; int64 5; int64 6] = 6%nat
  /\ (2 < 4)%nat /\ (0 < 4)%nat
  /\ (Huov.n_state <= length (R Example.batch1))%nat
  /\ active Example.batch1 !!! 0%nat = true
  /\ (@Huov.processCore Example.host (int64 1)
        [int64 261; dec64 1 2; dec64 25 1000000; int64 40000; int64 1; int64 2]
        [int64 5; int64 6; int64 7; int64 8] [dec64 1 2; dec64 1 3; dec64 1 4]
        [int64 1; int64 2; int64 3; int64 4; int64 5; int64 6]).2.2 !!! 2%nat
     = (@Huov.processCore Example.host (int64 1)
          [int64 261; dec64 1 2; dec64 25 1000000; int64 40000; int64 1; int64 2]
          [int64 5; int64 6; int64 7; int64 8] [dec64 1 2; dec64 1 3; dec64 1 4]
          [int64 1; int64 2; int64 3; int64 4; int64 5; int64 6]).2.1.1 !!! 2%nat
  /\ lane 0 (R (@Huov.process Example.host Example.batch1 Example.in1 Example.garbage1).2
               !!! (Huov.h_delay + 2)%nat)
     = lane 0 (R (@Huov.process Example.host Example.batch1 Example.in1 Example.garbage1).2
                 !!! (Huov.h_stage + 2)%nat).
Proof.
  assert (H24 : (2 < 4)%nat) by lia.
  assert (H04 : (0 < 4)%nat) by lia.
  assert (Hl : (Huov.n_state <= length (R Example.batch1))%nat) by (vm_compute; lia).
  assert (Ha : active Example.batch1 !!! 0%nat = true) by reflexivity.
  do 3 (split; [reflexivity|]).
  split; [exact H24|]. split; [exact H04|]. split; [exact Hl|]. split; [exact Ha|].
  exact (@Huov_delay_taps_follow_stages Example.host (int64 1)
           [int64 261; dec64 1 2; dec64 25 1000000; int64 40000; int64 1; int64 2]
           [int64 5; int64 6; int64 7; int64 8] [dec64 1 2; dec64 1 3; dec64 1 4]
           [int64 1; int64 2; int64 3; int64 4; int64 5; int64 6]
           Example.batch1 Example.in1 Example.garbage1 0%nat 2%nat
           eq_refl eq_refl eq_refl H24 H04 Hl Ha).
Defined.

(** * Further facts *)

(** The cell of [state] that a loop over the rows has written for a lane. *)
Ltac lane_cell n :=
  rewrite ?scatter0_eq;
  repeat (rewrite !(scatter_same_lane n 4)
            by (repeat apply scatter_shaped; assumption || (cbv; lia)));
  unfold RK.n_state, Huov.n_state, Kraj.n_state, Improved.n_state,
    Huov.h_delay, Kraj.h_state, Improved.h_V in *;
  repeat case_decide; try lia.

Lemma m128_ext (x y : m128) : (forall v, (v < 4)%nat -> lane v x = lane v y) -> x = y.
Proof.
  intros Hxy. destruct x as [x0 x1 x2 x3], y as [y0 y1 y2 y3].
  pose proof (Hxy 0%nat ltac:(lia)) as H0. pose proof (Hxy 1%nat ltac:(lia)) as H1.
  pose proof (Hxy 2%nat ltac:(lia)) as H2. pose proof (Hxy 3%nat ltac:(lia)) as H3.
  cbn in H0, H1, H2, H3. congruence.
Qed.

Lemma load_store (x : m128) : _mm_load_ps (_mm_store_ps x) = x.
Proof. by destruct x. Qed.

Section Batch2.
Variables (n_coef n_state : nat).
Variable body : QuadFilterUnitState -> list f32 -> list (list f32) -> nat ->
                list (list f32) * list f32 -> list (list f32) * list f32.

(** The registers beyond those of the model, the coefficients and the
    mask are not written. *)
Lemma batch_registers f inm out0 :
  C (batch n_coef n_state body f inm out0).2 = C f
  /\ active (batch n_coef n_state body f inm out0).2 = active f
  /\ length (R (batch n_coef n_state body f inm out0).2) = length (R f)
  /\ forall i, (n_state <= i)%nat -> R (batch n_coef n_state body f inm out0).2 !!! i = R f !!! i.
Proof.
  unfold batch. destruct (for_loop 4 _ _) as [st out]. cbn [snd].
  split; [apply load_loop_C|]. split; [apply load_loop_C|].
  rewrite load_loop_R. split; [apply fill_length|].
  intros i Hi. rewrite fill_lookup. case_decide; [lia|done].
Qed.

Hypothesis body_inactive : forall f in_ C_ v so,
  active f !!! v = false -> body f in_ C_ v so = so.

(** With no lane active the call changes nothing. *)
Lemma batch_idle f inm out0 :
  (forall v, (v < 4)%nat -> active f !!! v = false) ->
  batch n_coef n_state body f inm out0 = (out0, f).
Proof.
  intros Hidle. unfold batch.
  set (in_ := _mm_store_ps inm). set (C_ := for_loop n_coef _ _).
  set (state := for_loop n_state _ _).
  assert (Hloop : forall k so, (k <= 4)%nat -> for_loop k (body f in_ C_) so = so).
  { induction k as [|k IH]; intros so Hk; cbn [for_loop]; [done|].
    rewrite IH by lia. apply body_inactive. apply Hidle. lia. }
  rewrite Hloop by lia. rewrite load_store. f_equal.
  assert (Hset : forall k, (k <= n_state)%nat ->
            for_loop k (fun i f => set_R f i (_mm_load_ps (state !!! i))) f = f).
  { induction k as [|k IH]; intros Hk; cbn [for_loop]; [done|].
    rewrite IH by lia. subst state. rewrite fill_lookup. unfold uninit.
    rewrite length_replicate. case_decide; [|lia]. rewrite load_store.
    destruct f as [Cf Rf af]. unfold set_R. cbn [C R active]. f_equal.
    destruct (decide (k < length Rf)%nat) as [Hlt|Hge].
    - apply list_insert_id. by apply list_lookup_lookup_total_lt.
    - apply list_insert_ge. lia. }
  by apply Hset.
Qed.

Hypothesis body_other : forall f in_ C_ v v' so,
  v <> v' -> lane_agree v (body f in_ C_ v' so) so.
Hypothesis body_ok : forall f in_ C_ v so,
  locals_ok n_state so -> locals_ok n_state (body f in_ C_ v so).

(** What the step of an active lane establishes of the locals, given the
    coefficients and the input of the call, holds of the output and of
    the registers on exit. *)
Lemma batch_lane_final (Q : list (list f32) * list f32 -> Prop) f inm out0 v :
  (v < 4)%nat -> (n_state <= length (R f))%nat ->
  (forall so so', lane_agree v so' so -> Q so -> Q so') ->
  (forall so, locals_ok n_state so ->
     (forall i, (i < n_state)%nat -> get2 so.1 i v = lane v (R f !!! i)) ->
     Q (body f (_mm_store_ps inm)
          (for_loop n_coef (fun i C_ => <[i := _mm_store_ps (C f !!! i)]> C_) (uninit n_coef))
          v so)) ->
  exists so, Q so
    /\ lane v (batch n_coef n_state body f inm out0).1 = so.2 !!! v
    /\ forall i, (i < n_state)%nat ->
         lane v (R (batch n_coef n_state body f inm out0).2 !!! i) = get2 so.1 i v.
Proof.
  intros Hv Hl HQ Hstep. unfold batch.
  set (in_ := _mm_store_ps inm). set (C_ := for_loop n_coef _ _).
  set (st := for_loop n_state _ _).
  assert (Hloop : forall k, (k <= 4)%nat ->
    locals_ok n_state (for_loop k (body f in_ C_) (st, _mm_store_ps out0))
    /\ ((k <= v)%nat -> forall i, (i < n_state)%nat ->
          get2 (for_loop k (body f in_ C_) (st, _mm_store_ps out0)).1 i v = lane v (R f !!! i))
    /\ ((v < k)%nat -> Q (for_loop k (body f in_ C_) (st, _mm_store_ps out0)))).
  { induction k as [|k IH]; intros Hk; cbn [for_loop].
    - split; [split; [apply store_loop_shaped|done]|]. split; [|lia].
      intros _ i Hi. cbn [fst]. subst st. rewrite store_loop_get2. case_decide; [done|lia].
    - destruct IH as (Hok & Hpre & HQk); [lia|]. split; [by apply body_ok|]. split.
      + intros Hle i Hi.
        destruct (body_other f in_ C_ v k (for_loop k (body f in_ C_) (st, _mm_store_ps out0))
                    ltac:(lia)) as [Hag _].
        rewrite Hag. apply Hpre; [lia|done].
      + intros Hlt. destruct (decide (k = v)) as [->|Hne].
        * apply Hstep; [done|]. by apply Hpre.
        * eapply HQ; [apply body_other; exact (not_eq_sym Hne)|]. apply HQk. lia. }
  destruct (Hloop 4%nat (le_n _)) as (_ & _ & HQ4). specialize (HQ4 Hv).
  destruct (for_loop 4 _ _) as [st' out']. exists (st', out'). split; [done|].
  cbn [fst snd]. split; [by rewrite lane_load|].
  intros i Hi. rewrite load_loop_lane by done. case_decide; [done|lia].
Qed.

End Batch2.

Section Models2.
Context `{Host}.

Lemma process_registers (m : Model) f inm out0 :
  C (process_of m f inm out0).2 = C f
  /\ active (process_of m f inm out0).2 = active f
  /\ length (R (process_of m f inm out0).2) = length (R f)
  /\ forall i, (n_state_of m <= i)%nat -> R (process_of m f inm out0).2 !!! i = R f !!! i.
Proof. rewrite process_of_batch. destruct m; apply batch_registers. Qed.

Lemma process_idle (m : Model) f inm out0 :
  (forall v, (v < 4)%nat -> active f !!! v = false) ->
  process_of m f inm out0 = (out0, f).
Proof.
  rewrite process_of_batch. destruct m; apply batch_idle.
  - apply RK_lane_inactive.
  - apply Huov_lane_inactive.
  - apply Kraj_lane_inactive.
  - apply Improved_lane_inactive.
Qed.

Lemma RK_lane_output f in_ C_ v so :
  (v < 4)%nat -> active f !!! v = true -> locals_ok RK.n_state so ->
  (RK.process_lane f in_ C_ v so).2 !!! v
  = get2 (RK.process_lane f in_ C_ v so).1 (RK.n_state - 1) v.
Proof.
  intros Hv Ha [Hs Ho]. destruct so as [st out]. cbn [fst snd] in *.
  unfold RK.process_lane. rewrite Ha. cbn [negb fst snd].
  rewrite list_lookup_total_insert_eq by lia.
  lane_cell RK.n_state. reflexivity.
Qed.

Lemma Huov_processCore_ret in_ coeff stage stageTanh delay :
  (Huov.processCore in_ coeff stage stageTanh delay).1
  = (Huov.processCore in_ coeff stage stageTanh delay).2.2 !!! 5%nat.
Proof. unfold Huov.processCore. by destruct (for_loop 2 _ _) as [[a b] c]. Qed.

Lemma Huov_lane_output f in_ C_ v so :
  (v < 4)%nat -> active f !!! v = true -> locals_ok Huov.n_state so ->
  (Huov.process_lane f in_ C_ v so).2 !!! v
  = get2 (Huov.process_lane f in_ C_ v so).1 (Huov.h_delay + 5) v.
Proof.
  intros Hv Ha [Hs Ho]. destruct so as [st out]. cbn [fst snd] in *.
  unfold Huov.process_lane. rewrite Ha. cbn [negb].
  pose proof (Huov_processCore_ret (to_double (in_ !!! v))
    (for_loop Huov.n_coef (fun i a => <[i := to_double (get2 C_ i v)]> a) (uninit Huov.n_coef))
    (for_loop 4 (fun i a => <[i := to_double (get2 st i v)]> a) (uninit 4))
    (for_loop 3 (fun i a => <[i := to_double (get2 st (i + 4) v)]> a) (uninit 3))
    (for_loop 6 (fun i a => <[i := to_double (get2 st (i + 7) v)]> a) (uninit 6))) as Hret.
  destruct (Huov.processCore _ _ _ _ _) as [o [[stage' stageTanh'] delay']].
  cbn [fst snd] in *. rewrite list_lookup_total_insert_eq by lia.
  lane_cell Huov.n_state. by rewrite Hret.
Qed.

Lemma Kraj_processCore_ret in_ coeff state delay :
  (Kraj.processCore in_ coeff state delay).1
  = (Kraj.processCore in_ coeff state delay).2.1 !!! 4%nat.
Proof. unfold Kraj.processCore. by destruct (for_loop 4 _ _) as [a b]. Qed.

Lemma Kraj_lane_output f in_ C_ v so :
  (v < 4)%nat -> active f !!! v = true -> locals_ok Kraj.n_state so ->
  (Kraj.process_lane f in_ C_ v so).2 !!! v
  = get2 (Kraj.process_lane f in_ C_ v so).1 (Kraj.h_state + 4) v.
Proof.
  intros Hv Ha [Hs Ho]. destruct so as [st out]. cbn [fst snd] in *.
  unfold Kraj.process_lane. rewrite Ha. cbn [negb].
  pose proof (Kraj_processCore_ret (to_double (in_ !!! v))
    (for_loop Kraj.n_coef (fun i a => <[i := to_double (get2 C_ i v)]> a) (uninit Kraj.n_coef))
    (for_loop 5 (fun i a => <[i := to_double (get2 st i v)]> a) (uninit 5))
    (for_loop 5 (fun i a => <[i := to_double (get2 st (i + 5) v)]> a) (uninit 5))) as Hret.
  destruct (Kraj.processCore _ _ _ _) as [o [state' delay']].
  cbn [fst snd] in *. rewrite list_lookup_total_insert_eq by lia.
  lane_cell Kraj.n_state. by rewrite Hret.
Qed.

Lemma Improved_processCore_ret in_ coeff V dV tV :
  (Improved.processCore in_ coeff V dV tV).1
  = (Improved.processCore in_ coeff V dV tV).2.1.1 !!! 3%nat.
Proof. reflexivity. Qed.

Lemma Improved_lane_output f in_ C_ v so :
  (v < 4)%nat -> active f !!! v = true -> locals_ok Improved.n_state so ->
  (Improved.process_lane f in_ C_ v so).2 !!! v
  = get2 (Improved.process_lane f in_ C_ v so).1 (Improved.h_V + 3) v.
Proof.
  intros Hv Ha [Hs Ho]. destruct so as [st out]. cbn [fst snd] in *.
  unfold Improved.process_lane. rewrite Ha. cbn [negb].
  pose proof (Improved_processCore_ret (to_double (in_ !!! v))
    (for_loop Improved.n_coef (fun i a => <[i := to_double (get2 C_ i v)]> a)
       (uninit Improved.n_coef))
    (for_loop 4 (fun i a => <[i := to_double (get2 st i v)]> a) (uninit 4))
    (for_loop 4 (fun i a => <[i := to_double (get2 st (i + 4) v)]> a) (uninit 4))
    (for_loop 4 (fun i a => <[i := to_double (get2 st (i + 8) v)]> a) (uninit 4))) as Hret.
  destruct (Improved.processCore _ _ _ _ _) as [o [[V' dV'] tV']].
  cbn [fst snd] in *. rewrite list_lookup_total_insert_eq by lia.
  lane_cell Improved.n_state. by rewrite Hret.
Qed.

Lemma out_register_lt (m : Model) : (out_register m < n_state_of m)%nat.
Proof. destruct m; cbv; lia. Qed.

Lemma process_output_register (m : Model) f inm out0 v :
  (v < 4)%nat -> (n_state_of m <= length (R f))%nat -> active f !!! v = true ->
  lane v (process_of m f inm out0).1
  = lane v (R (process_of m f inm out0).2 !!! out_register m).
Proof.
  intros Hv Hl Ha. pose proof (out_register_lt m) as Hr.
  rewrite process_of_batch.
  destruct m; cbn [n_state_of out_register] in *.
  - destruct (batch_lane_final RK.n_coef RK.n_state RK.process_lane RK_lane_other RK_lane_ok
                (fun so => so.2 !!! v = get2 so.1 (RK.n_state - 1) v) f inm out0 v Hv Hl)
      as (so & HQ & Ho & HR).
    + intros so so' [Hag Hout] HQ. by rewrite Hag, Hout.
    + intros so Hok _. by apply RK_lane_output.
    + by rewrite Ho, HR.
  - destruct (batch_lane_final Huov.n_coef Huov.n_state Huov.process_lane
                Huov_lane_other Huov_lane_ok
                (fun so => so.2 !!! v = get2 so.1 (Huov.h_delay + 5) v) f inm out0 v Hv Hl)
      as (so & HQ & Ho & HR).
    + intros so so' [Hag Hout] HQ. by rewrite Hag, Hout.
    + intros so Hok _. by apply Huov_lane_output.
    + by rewrite Ho, HR.
  - destruct (batch_lane_final Kraj.n_coef Kraj.n_state Kraj.process_lane
                Kraj_lane_other Kraj_lane_ok
                (fun so => so.2 !!! v = get2 so.1 (Kraj.h_state + 4) v) f inm out0 v Hv Hl)
      as (so & HQ & Ho & HR).
    + intros so so' [Hag Hout] HQ. by rewrite Hag, Hout.
    + intros so Hok _. by apply Kraj_lane_output.
    + by rewrite Ho, HR.
  - destruct (batch_lane_final Improved.n_coef Improved.n_state Improved.process_lane
                Improved_lane_other Improved_lane_ok
                (fun so => so.2 !!! v = get2 so.1 (Improved.h_V + 3) v) f inm out0 v Hv Hl)
      as (so & HQ & Ho & HR).
    + intros so so' [Hag Hout] HQ. by rewrite Hag, Hout.
    + intros so Hok _. by apply Improved_lane_output.
    + by rewrite Ho, HR.
Qed.

(** Lanes processed in two calls, or in one: the registers agree, and each
    call returns the samples of the lanes of its own mask. *)
Lemma process_split (m : Model) f inm out0 out1 out2 (a b ab : list bool) :
  (n_state_of m <= length (R f))%nat ->
  (forall v, (v < 4)%nat -> ab !!! v = a !!! v || b !!! v) ->
  (forall v, (v < 4)%nat -> a !!! v && b !!! v = false) ->
  let r1 := process_of m (with_active f a) inm out0 in
  let r2 := process_of m (with_active r1.2 b) inm out1 in
  let r := process_of m (with_active f ab) inm out2 in
  R r2.2 = R r.2
  /\ forall v, (v < 4)%nat ->
       (a !!! v = true -> lane v r1.1 = lane v r.1)
       /\ (b !!! v = true -> lane v r2.1 = lane v r.1)
       /\ (b !!! v = false -> lane v r2.1 = lane v out1).
Proof.
  intros Hl Hab Hdis r1 r2 r.
  destruct (process_registers m (with_active f a) inm out0) as (HC1 & _ & HL1 & HF1).
  destruct (process_registers m (with_active r1.2 b) inm out1) as (HC2 & _ & HL2 & HF2).
  destruct (process_registers m (with_active f ab) inm out2) as (HC & _ & HL & HF).
  fold r1 in HC1, HL1, HF1. fold r2 in HC2, HL2, HF2. fold r in HC, HL, HF.
  cbn [with_active C R] in *.
  assert (Hlanes : forall v, (v < 4)%nat ->
            ((a !!! v = true -> lane v r1.1 = lane v r.1)
             /\ (b !!! v = true -> lane v r2.1 = lane v r.1)
             /\ (b !!! v = false -> lane v r2.1 = lane v out1))
            /\ forall i, (i < n_state_of m)%nat -> lane v (R r2.2 !!! i) = lane v (R r.2 !!! i)).
  { intros v Hv. specialize (Hab v Hv). specialize (Hdis v Hv).
    destruct (a !!! v) eqn:Hav; destruct (b !!! v) eqn:Hbv; cbn in Hab, Hdis; try discriminate.
    - (* processed by the first call *)
      destruct (process_frame m (with_active r1.2 b) inm out1 v Hbv) as (HR2 & _ & _ & Ho2).
      fold r2 in HR2, Ho2. cbn [with_active R] in HR2.
      destruct (process_lane_function m (with_active f a) (with_active f ab) inm inm out0 out2 v)
        as [Ho HR]; try done.
      fold r1 r in Ho, HR. split; [split; [done|split; [done|done]]|].
      intros i Hi. rewrite HR2. by apply HR.
    - (* processed by the second call *)
      destruct (process_frame m (with_active f a) inm out0 v Hav) as (HR1 & _ & _ & Ho1).
      fold r1 in HR1, Ho1. cbn [with_active R] in HR1.
      destruct (process_lane_function m (with_active r1.2 b) (with_active f ab) inm inm
                  out1 out2 v) as [Ho HR]; try done.
      + cbn [with_active R]. by rewrite HL1.
      + intros i Hi. cbn [with_active C]. by rewrite HC1.
    - (* processed by neither *)
      destruct (process_frame m (with_active f a) inm out0 v Hav) as (HR1 & _ & _ & Ho1).
      destruct (process_frame m (with_active r1.2 b) inm out1 v Hbv) as (HR2 & _ & _ & Ho2).
      destruct (process_frame m (with_active f ab) inm out2 v Hab) as (HR & _ & _ & Ho).
      fold r1 in HR1, Ho1. fold r2 in HR2, Ho2. fold r in HR, Ho.
      cbn [with_active R] in *.
      split; [split; [done|split; [done|done]]|]. intros i Hi. by rewrite HR2, HR1, HR. }
  split.
  - apply list_eq_same_length with (length (R f)); [by rewrite HL| by rewrite HL2, HL1 |].
    intros i x y Hi Hx Hy.
    apply list_lookup_total_correct in Hx as Hx'. apply list_lookup_total_correct in Hy as Hy'.
    subst x y. destruct (decide (i < n_state_of m)%nat) as [Hlt|Hge].
    + apply m128_ext. intros v Hv. by apply Hlanes.
    + rewrite HF2, HF1, HF by lia. done.
  - intros v Hv. by apply Hlanes.
Qed.

End Models2.

Section Cores.
Context `{Host}.

(** *** Huovilainen *)

Lemma Huov_processCore_mean in_ coeff stage stageTanh delay :
  length stage = 4%nat -> length stageTanh = 3%nat -> length delay = 6%nat ->
  (Huov.processCore in_ coeff stage stageTanh delay).1
  = (((Huov.processCore in_ coeff stage stageTanh delay).2.1.1 !!! 3%nat
      + (Huov.processCore_pass in_ (coeff !!! Huov.h_resquad) (coeff !!! Huov.h_thermal)
           (coeff !!! Huov.h_tune) (stage, stageTanh, delay)).1.1 !!! 3%nat)
     * dec64 5 10)%f64
  /\ (Huov.processCore in_ coeff stage stageTanh delay).2.2 !!! 4%nat
     = (Huov.processCore in_ coeff stage stageTanh delay).2.1.1 !!! 3%nat.
Proof.
  intros Hs Ht Hd. explicit_list stage. explicit_list stageTanh. explicit_list delay.
  split; arrays_eval; reflexivity.
Qed.

Lemma Huov_processCore_cache in_ coeff stage stageTanh delay (j : nat) :
  length stage = 4%nat -> length stageTanh = 3%nat -> length delay = 6%nat ->
  (j < 3)%nat ->
  (Huov.processCore in_ coeff stage stageTanh delay).2.1.2 !!! j
  = tanh (to_double (to_float ((Huov.processCore in_ coeff stage stageTanh delay).2.1.1 !!! j))
          * coeff !!! Huov.h_thermal)%f64.
Proof.
  intros Hs Ht Hd Hj. explicit_list stage. explicit_list stageTanh. explicit_list delay.
  destruct j as [|[|[|j]]]; try lia; arrays_eval; reflexivity.
Qed.

Lemma Huov_lane_cache f in_ C_ v so (j : nat) :
  (v < 4)%nat -> active f !!! v = true -> locals_ok Huov.n_state so -> (j < 3)%nat ->
  get2 (Huov.process_lane f in_ C_ v so).1 (j + 4) v
  = to_float (tanh (to_double (get2 (Huov.process_lane f in_ C_ v so).1 j v)
                    * to_double (get2 C_ Huov.h_thermal v))%f64).
Proof.
  intros Hv Ha [Hs Ho] Hj. destruct so as [st out]. cbn [fst snd] in *.
  unfold Huov.process_lane. rewrite Ha. cbn [negb].
  pose proof (Huov_processCore_cache (to_double (in_ !!! v))
    (for_loop Huov.n_coef (fun i a => <[i := to_double (get2 C_ i v)]> a) (uninit Huov.n_coef))
    (for_loop 4 (fun i a => <[i := to_double (get2 st i v)]> a) (uninit 4))
    (for_loop 3 (fun i a => <[i := to_double (get2 st (i + 4) v)]> a) (uninit 3))
    (for_loop 6 (fun i a => <[i := to_double (get2 st (i + 7) v)]> a) (uninit 6))
    j (gather_length 4 _) (gather_length 3 _) (gather_length 6 _) Hj) as Hc.
  destruct (Huov.processCore _ _ _ _ _) as [o [[stage' stageTanh'] delay']].
  cbn [fst snd] in *.
  lane_cell Huov.n_state.
  replace (j + 4 - 4)%nat with j by lia. replace (j - 0)%nat with j by lia.
  rewrite Hc. reflexivity.
Qed.

Lemma Huov_process_cache f inm out0 v (j : nat) :
  (v < 4)%nat -> (Huov.n_state <= length (R f))%nat -> active f !!! v = true ->
  (j < 3)%nat ->
  lane v (R (Huov.process f inm out0).2 !!! (Huov.h_steageTanh + j)%nat)
  = to_float (tanh (to_double (lane v (R (Huov.process f inm out0).2 !!! (Huov.h_stage + j)%nat))
                    * to_double (lane v (C f !!! Huov.h_thermal)))%f64).
Proof.
  intros Hv Hl Ha Hj.
  destruct (batch_lane_final Huov.n_coef Huov.n_state Huov.process_lane
              Huov_lane_other Huov_lane_ok
              (fun so => forall j, (j < 3)%nat ->
                 get2 so.1 (j + 4) v
                 = to_float (tanh (to_double (get2 so.1 j v)
                                   * to_double (lane v (C f !!! Huov.h_thermal)))%f64))
              f inm out0 v Hv Hl) as (so & HQ & _ & HR).
  - intros so so' [Hag _] HQ j' Hj'. rewrite !Hag. by apply HQ.
  - intros so Hok _ j' Hj'. rewrite Huov_lane_cache by done.
    rewrite store_loop_get2. case_decide; [done|]. exfalso. cbv in *. lia.
  - change (Huov.process f inm out0)
      with (batch Huov.n_coef Huov.n_state Huov.process_lane f inm out0).
    replace (Huov.h_steageTanh + j)%nat with (j + 4)%nat by (unfold Huov.h_steageTanh; lia).
    replace (Huov.h_stage + j)%nat with j by (unfold Huov.h_stage; lia).
    rewrite !HR by (unfold Huov.n_state; lia). by apply HQ.
Qed.

(** *** Krajeski *)

Lemma Kraj_processCore_taps in_ coeff state delay :
  length state = 5%nat -> length delay = 5%nat ->
  (forall i, (i < 4)%nat ->
     (Kraj.processCore in_ coeff state delay).2.2 !!! i
     = (Kraj.processCore in_ coeff state delay).2.1 !!! i)
  /\ (Kraj.processCore in_ coeff state delay).2.2 !!! 4%nat = delay !!! 4%nat.
Proof.
  intros Hs Hd. rewrite Kraj_processCore_step by done.
  explicit_list state. explicit_list delay. split; [|reflexivity].
  intros i Hi. destruct i as [|[|[|[|i]]]]; try lia; reflexivity.
Qed.

Lemma Kraj_lane_taps f in_ C_ v so :
  (v < 4)%nat -> active f !!! v = true -> locals_ok Kraj.n_state so ->
  (forall i, (i < 4)%nat ->
     get2 (Kraj.process_lane f in_ C_ v so).1 (i + 5) v
     = get2 (Kraj.process_lane f in_ C_ v so).1 i v)
  /\ get2 (Kraj.process_lane f in_ C_ v so).1 9 v = to_float (to_double (get2 so.1 9 v)).
Proof.
  intros Hv Ha [Hs Ho]. destruct so as [st out]. cbn [fst snd] in *.
  unfold Kraj.process_lane. rewrite Ha. cbn [negb].
  pose proof (Kraj_processCore_taps (to_double (in_ !!! v))
    (for_loop Kraj.n_coef (fun i a => <[i := to_double (get2 C_ i v)]> a) (uninit Kraj.n_coef))
    (for_loop 5 (fun i a => <[i := to_double (get2 st i v)]> a) (uninit 5))
    (for_loop 5 (fun i a => <[i := to_double (get2 st (i + 5) v)]> a) (uninit 5))
    (gather_length 5 _) (gather_length 5 _)) as [Htap Hlast].
  destruct (Kraj.processCore _ _ _ _) as [o [state' delay']].
  cbn [fst snd] in *. split.
  - intros i Hi. lane_cell Kraj.n_state.
    replace (i + 5 - 5)%nat with i by lia. replace (i - 0)%nat with i by lia.
    by rewrite Htap.
  - lane_cell Kraj.n_state. cbn [Nat.sub]. rewrite Hlast. reflexivity.
Qed.

Lemma Kraj_process_taps f inm out0 v :
  (v < 4)%nat -> (Kraj.n_state <= length (R f))%nat -> active f !!! v = true ->
  (forall i, (i < 4)%nat ->
     lane v (R (Kraj.process f inm out0).2 !!! (Kraj.h_delay + i)%nat)
     = lane v (R (Kraj.process f inm out0).2 !!! (Kraj.h_state + i)%nat))
  /\ lane v (R (Kraj.process f inm out0).2 !!! (Kraj.h_delay + 4)%nat)
     = to_float (to_double (lane v (R f !!! (Kraj.h_delay + 4)%nat))).
Proof.
  intros Hv Hl Ha.
  destruct (batch_lane_final Kraj.n_coef Kraj.n_state Kraj.process_lane
              Kraj_lane_other Kraj_lane_ok
              (fun so => (forall i, (i < 4)%nat -> get2 so.1 (i + 5) v = get2 so.1 i v)
                         /\ get2 so.1 9 v = to_float (to_double (lane v (R f !!! 9%nat))))
              f inm out0 v Hv Hl) as (so & [HQ1 HQ2] & _ & HR).
  - intros so so' [Hag _] [HQ1 HQ2]. split; [intros i Hi|]; rewrite !Hag; auto.
  - intros so Hok Hpre. destruct (Kraj_lane_taps f (_mm_store_ps inm)
      (for_loop Kraj.n_coef (fun i C_ => <[i := _mm_store_ps (C f !!! i)]> C_)
         (uninit Kraj.n_coef)) v so Hv Ha Hok) as [H1 H2].
    split; [done|]. rewrite H2, Hpre; [done|cbv; lia].
  - change (Kraj.process f inm out0)
      with (batch Kraj.n_coef Kraj.n_state Kraj.process_lane f inm out0).
    split.
    + intros i Hi.
      replace (Kraj.h_delay + i)%nat with (i + 5)%nat by (unfold Kraj.h_delay; lia).
      replace (Kraj.h_state + i)%nat with i by (unfold Kraj.h_state; lia).
      rewrite !HR by (unfold Kraj.n_state; lia). by apply HQ1.
    + change (Kraj.h_delay + 4)%nat with 9%nat. rewrite HR by (cbv; lia). exact HQ2.
Qed.

(** *** Improved *)

Lemma Improved_processCore_cache in_ coeff V dV tV (i : nat) :
  length V = 4%nat -> length dV = 4%nat -> length tV = 4%nat -> (i < 4)%nat ->
  (Improved.processCore in_ coeff V dV tV).2.2 !!! i
  = tanh ((Improved.processCore in_ coeff V dV tV).2.1.1 !!! i
          / (dec64 2 1 * to_double Improved.VT))%f64.
Proof.
  intros HV HdV HtV Hi. explicit_list V. explicit_list dV. explicit_list tV.
  destruct i as [|[|[|[|i]]]]; try lia; arrays_eval; reflexivity.
Qed.

End Cores.

(** ** Zeros and finite values under the operations *)

Lemma is_zero_finite (x : spec_float) : is_zero x = true -> is_finite x = true.
Proof. by destruct x. Qed.

Lemma SFmul_zero_l (prec emax : Z) (x y : spec_float) :
  is_zero x = true -> is_finite y = true -> is_zero (SFmul prec emax x y) = true.
Proof. by destruct x, y. Qed.

Lemma SFmul_zero_r (prec emax : Z) (x y : spec_float) :
  is_finite x = true -> is_zero y = true -> is_zero (SFmul prec emax x y) = true.
Proof. by destruct x, y. Qed.

Lemma SFadd_zero (prec emax : Z) (x y : spec_float) :
  is_zero x = true -> is_zero y = true -> is_zero (SFadd prec emax x y) = true.
Proof. destruct x as [[]| | |], y as [[]| | |]; done. Qed.

Lemma SFsub_zero (prec emax : Z) (x y : spec_float) :
  is_zero x = true -> is_zero y = true -> is_zero (SFsub prec emax x y) = true.
Proof. destruct x as [[]| | |], y as [[]| | |]; done. Qed.

Lemma SFdiv_zero (prec emax : Z) (x y : spec_float) :
  is_zero x = true -> is_finite y = true -> is_zero y = false ->
  is_zero (SFdiv prec emax x y) = true.
Proof. by destruct x, y. Qed.

Lemma round_to_zero (prec emax : Z) (x : spec_float) :
  is_zero x = true -> is_zero (round_to prec emax x) = true.
Proof. by destruct x. Qed.

Lemma SFltb_zero_r (c x : spec_float) :
  is_zero x = true -> SFltb sf_zero c = true -> SFltb c x = false.
Proof. destruct x; try done. by destruct c as [[]|[]| |[]]. Qed.

Lemma SFltb_zero_l (c x : spec_float) :
  is_zero x = true -> SFltb c sf_zero = true -> SFltb x c = false.
Proof. destruct x; try done. by destruct c as [[]|[]| |[]]. Qed.

(** Widening a finite float gives a finite double. *)
Lemma widen_finite (x : spec_float) :
  valid_binary prec32 emax32 x = true -> is_finite x = true ->
  is_finite (round_to prec64 emax64 x) = true.
Proof.
  intros Hv Hf. pose proof (widen_narrow x Hv) as Hw.
  destruct (round_to prec64 emax64 x) as [s|s| |s m e] eqn:Hr; try done.
  - cbn in Hw. by subst x.
  - cbn in Hw. by subst x.
Qed.

(** The product of two finite values whose exponents are small enough is
    finite: rounding raises the exponent by one at most. *)
Lemma SFmul_finite64 (x y : spec_float) (a b : Z) :
  valid_binary prec64 emax64 x = true -> valid_binary prec64 emax64 y = true ->
  is_finite x = true -> is_finite y = true ->
  exponent_le a x -> exponent_le b y -> a + b <= 917 ->
  is_finite (SFmul prec64 emax64 x y) = true.
Proof.
  intros Hvx Hvy Hfx Hfy Hxa Hyb Hab.
  destruct x as [sx|sx| |sx mx ex], y as [sy|sy| |sy my ey]; try done.
  cbn [exponent_le] in Hxa, Hyb.
  cbn [valid_binary] in Hvx, Hvy. unfold bounded, canonical_mantissa in Hvx, Hvy.
  apply andb_true_iff in Hvx as [Hcx Hex]. apply Z.eqb_eq in Hcx.
  apply andb_true_iff in Hvy as [Hcy Hey]. apply Z.eqb_eq in Hcy.
  destruct (Zdigits2_bounds (Zpos mx) eq_refl) as [Hdx [Hxlo Hxhi]].
  destruct (Zdigits2_bounds (Zpos my) eq_refl) as [Hdy [Hylo Hyhi]].
  cbn [Zdigits2] in *.
  remember (Zpos (digits2_pos mx)) as dx eqn:Hdxe. clear Hdxe.
  remember (Zpos (digits2_pos my)) as dy eqn:Hdye. clear Hdye.
  assert (Hdx53 : dx <= 53) by (revert Hcx; unfold fexp, emin, prec64, emax64; lia).
  assert (Hdy53 : dy <= 53) by (revert Hcy; unfold fexp, emin, prec64, emax64; lia).
  cbn [SFmul].
  remember (Zpos (mx * my)) as M eqn:HM. rewrite Pos2Z.inj_mul in HM.
  remember (ex + ey) as E eqn:HE.
  assert (HM0 : 0 < M) by lia.
  destruct (binary_round_aux_spec prec64 emax64 (xorb sx sy) M E loc_Exact) as (m1 & Hm1 & ->);
    [lia|].
  remember (Zdigits2 M) as D eqn:HD.
  assert (HD106 : D <= 106).
  { rewrite HD. apply Zdigits2_le; [done|lia|].
    apply Z.lt_le_trans with (2 ^ dx * 2 ^ dy).
    - apply Z.le_lt_trans with (Zpos mx * 2 ^ dy); [|apply Z.mul_lt_mono_pos_r; lia].
      rewrite HM. apply Z.mul_le_mono_nonneg_l; lia.
    - rewrite <- Z.pow_add_r by lia. apply Z.pow_le_mono_r; lia. }
  destruct (Zdigits2_bounds M HM0) as [HD0 _]. rewrite <- HD in HD0.
  remember (Z.max 0 (fexp prec64 emax64 (D + E) - E)) as N1 eqn:HN1.
  remember (M / 2 ^ N1) as q eqn:Hq.
  assert (HN1' : 0 <= N1) by lia.
  assert (Hq0 : 0 <= q) by (rewrite Hq; apply Z.div_pos; [lia|apply Z.pow_pos_nonneg; lia]).
  (* the quotient has at most 53 digits *)
  assert (Hq53 : q < 2 ^ 53).
  { destruct (Z_lt_le_dec N1 D) as [Hlt|Hge].
    - destruct (Zdigits2_div_pow2 M N1 HM0 HN1') as [Hdiv _].
      rewrite <- HD, <- Hq in Hdiv. destruct (Hdiv Hlt) as [Hqpos Hdq].
      destruct (Zdigits2_bounds q Hqpos) as [_ [_ Hqhi]].
      apply Z.lt_le_trans with (2 ^ Zdigits2 q); [done|]. apply Z.pow_le_mono_r; [lia|].
      rewrite Hdq. revert HN1. unfold fexp, emin, prec64, emax64. lia.
    - destruct (Zdigits2_div_pow2 M N1 HM0 HN1') as [_ Hdiv].
      rewrite <- HD, <- Hq in Hdiv. rewrite (Hdiv Hge). done. }
  remember (Z.max 0 (fexp prec64 emax64 (Zdigits2 m1 + (E + N1)) - (E + N1))) as N2 eqn:HN2.
  assert (Hfin : E + N1 + N2 <= emax64 - prec64).
  { destruct (Z.eq_dec m1 0) as [->|Hm10].
    - revert HN1 HN2. cbn [Zdigits2]. unfold fexp, emin, prec64, emax64. lia.
    - assert (Hdm1 : Zdigits2 m1 <= 54).
      { apply Zdigits2_le; [lia|lia|]. change (2 ^ 54) with (2 * 2 ^ 53). lia. }
      revert HN1 HN2. unfold fexp, emin, prec64, emax64. lia. }
  apply Z.leb_le in Hfin. cbn zeta. rewrite Hfin.
  assert (Hnn : 0 <= m1 / 2 ^ N2) by (apply Z.div_pos; [lia|apply Z.pow_pos_nonneg; lia]).
  destruct (m1 / 2 ^ N2); [done|done|lia].
Qed.

(** The product of two values of the format is a value of the format. *)
Lemma SFmul_valid64 (x y : spec_float) :
  valid_binary prec64 emax64 x = true -> valid_binary prec64 emax64 y = true ->
  valid_binary prec64 emax64 (SFmul prec64 emax64 x y) = true.
Proof.
  intros Hvc Hvh.
  destruct x as [sc|sc| |sc mc ec], y as [sh|sh| |sh mh eh]; try done.
  cbn [SFmul]. cbn [valid_binary] in Hvc, Hvh. unfold bounded, canonical_mantissa in Hvc, Hvh.
  apply andb_true_iff in Hvc as [Hcc _]. apply Z.eqb_eq in Hcc.
  apply andb_true_iff in Hvh as [Hch _]. apply Z.eqb_eq in Hch.
  apply binary_round_aux_valid; [done|done|].
  destruct (Zdigits2_bounds (Zpos mc) eq_refl) as [Hdc [Hclo Hchi]].
  destruct (Zdigits2_bounds (Zpos mh) eq_refl) as [Hdh [Hhlo Hhhi]].
  cbn [Zdigits2] in Hdc, Hclo, Hchi, Hdh, Hhlo, Hhhi.
  assert (HD : Zpos (digits2_pos mc) + Zpos (digits2_pos mh) - 1 <= Zdigits2 (Zpos (mc * mh))).
  { apply Zdigits2_ge; [lia|]. rewrite Pos2Z.inj_mul.
    replace (Z.pos (digits2_pos mc) + Z.pos (digits2_pos mh) - 1 - 1)
      with ((Z.pos (digits2_pos mc) - 1) + (Z.pos (digits2_pos mh) - 1)) by lia.
    rewrite Z.pow_add_r by lia.
    apply Z.mul_le_mono_nonneg; try done; apply Z.pow_nonneg; lia. }
  revert Hcc Hch HD Hdc Hdh. generalize (Zdigits2 (Z.pos (mc * mh))).
  generalize (Zpos (digits2_pos mc)) (Zpos (digits2_pos mh)).
  unfold fexp, emin, prec64, emax64. lia.
Qed.

(** Widening does not raise the exponent. *)
Lemma widen_exponent (x : spec_float) (a : Z) :
  valid_binary prec32 emax32 x = true -> exponent_le a x ->
  exponent_le a (round_to prec64 emax64 x).
Proof.
  destruct x as [s|s| |s m e]; try done. cbn [valid_binary round_to exponent_le].
  unfold bounded, canonical_mantissa. intros Hb Ha.
  apply andb_true_iff in Hb as [Hc He]. apply Z.eqb_eq in Hc.
  unfold binary_round, shl_align.
  set (d := Zpos (digits2_pos m)) in *.
  assert (Hd : 0 < d) by (subst d; lia).
  assert (Ht : fexp prec64 emax64 (d + e) < e).
  { apply Z.leb_le in He.
    revert Hc He; unfold fexp, emin, prec32, emax32, prec64, emax64; lia. }
  set (t := fexp prec64 emax64 (d + e)) in *.
  destruct (t - e) as [|k|k] eqn:Hk; try lia.
  set (M := Pos.iter xO m k).
  assert (HdM : Zpos (digits2_pos M) + t = d + e) by (subst M d; rewrite digits2_pos_shl; lia).
  rewrite binary_round_aux_canonical.
  2:{ unfold bounded, canonical_mantissa. rewrite HdM. fold t. rewrite Z.eqb_refl.
      apply Z.leb_le in He. apply Z.leb_le.
      revert He Ht. unfold prec32, emax32, prec64, emax64. lia. }
  cbn [exponent_le]. lia.
Qed.

Lemma valid32_exponent (x : spec_float) :
  valid_binary prec32 emax32 x = true -> exponent_le 104 x.
Proof.
  destruct x as [s|s| |s m e]; try done. cbn [valid_binary exponent_le].
  unfold bounded. intros [_ He%Z.leb_le]%andb_true_iff. revert He. unfold prec32, emax32. lia.
Qed.

(** ** The same, on the two formats *)

Lemma zero64_finite (x : f64) : zero64 x = true -> finite64 x = true.
Proof. destruct x as [[]]; done. Qed.

Lemma zero32_finite (x : f32) : zero32 x = true -> finite32 x = true.
Proof. destruct x as [[]]; done. Qed.

Lemma finite64_raw (x : f64) : finite64 x = true -> is_finite (raw64 x) = true.
Proof. unfold finite64. by intros [_ ?]%andb_true_iff. Qed.

Lemma finite32_raw (x : f32) : finite32 x = true -> is_finite (raw32 x) = true.
Proof. unfold finite32. by intros [_ ?]%andb_true_iff. Qed.

Lemma mul64_zero_l (x y : f64) :
  zero64 x = true -> finite64 y = true -> zero64 (x * y) = true.
Proof. intros Hx Hy%finite64_raw. by apply SFmul_zero_l. Qed.

Lemma mul64_zero_r (x y : f64) :
  finite64 x = true -> zero64 y = true -> zero64 (x * y) = true.
Proof. intros Hx%finite64_raw Hy. by apply SFmul_zero_r. Qed.

Lemma mul32_zero_l (x y : f32) :
  zero32 x = true -> finite32 y = true -> zero32 (x * y) = true.
Proof. intros Hx Hy%finite32_raw. by apply SFmul_zero_l. Qed.

Lemma add64_zero (x y : f64) : zero64 x = true -> zero64 y = true -> zero64 (x + y) = true.
Proof. apply SFadd_zero. Qed.

Lemma sub64_zero (x y : f64) : zero64 x = true -> zero64 y = true -> zero64 (x - y) = true.
Proof. apply SFsub_zero. Qed.

Lemma opp64_zero (x : f64) : zero64 x = true -> zero64 (- x) = true.
Proof. by destruct x as [[]]. Qed.

Lemma div64_zero (x y : f64) :
  zero64 x = true -> finite64 y = true -> zero64 y = false -> zero64 (x / y) = true.
Proof. intros Hx Hy%finite64_raw Hn. by apply SFdiv_zero. Qed.

Lemma to_float_zero (x : f64) : zero64 x = true -> zero32 (to_float x) = true.
Proof. apply round_to_zero. Qed.

Lemma to_double_zero (x : f32) : zero32 x = true -> zero64 (to_double x) = true.
Proof. apply round_to_zero. Qed.

Lemma to_double_finite (x : f32) : finite32 x = true -> finite64 (to_double x) = true.
Proof.
  unfold finite32, finite64, valid32, valid64, to_double. cbn [raw64].
  intros [Hv Hf]%andb_true_iff. apply andb_true_iff. split.
  - by apply round_to_valid.
  - by apply widen_finite.
Qed.

Lemma mul64_finite (x y : f64) (a b : Z) :
  finite64 x = true -> finite64 y = true ->
  exponent_le a (raw64 x) -> exponent_le b (raw64 y) -> a + b <= 917 ->
  finite64 (x * y) = true.
Proof.
  unfold finite64, valid64. destruct x as [x], y as [y]. cbn [raw64 mul64].
  intros [Hvx Hfx]%andb_true_iff [Hvy Hfy]%andb_true_iff Ha Hb Hab.
  apply andb_true_iff. split; [by apply SFmul_valid64|by apply (SFmul_finite64 x y a b)].
Qed.

Lemma to_double_exponent (x : f32) : valid32 x = true -> exponent_le 104 (raw64 (to_double x)).
Proof.
  intros Hv. unfold to_double. cbn [raw64]. apply widen_exponent; [done|].
  by apply valid32_exponent.
Qed.

(** A double of [[0, 1]]: its exponent is that of 1 at most. *)
Lemma int64_1_raw : int64 1 = F64 (S754_finite false 4503599627370496 (-52)).
Proof. vm_compute. reflexivity. Qed.

Lemma unit_exponent (h : f64) :
  (int64 0 <=? h)%f64 = true -> (h <=? int64 1)%f64 = true -> exponent_le (-52) (raw64 h).
Proof.
  unfold leb64. rewrite int64_1_raw. destruct h as [[s|s| |s m e]]; try done.
  cbn [raw64 exponent_le]. intros H0 H1. destruct s; [done|].
  apply SFleb_finite in H1. lia.
Qed.

(** ** Silence *)

Lemma Forall_zero_lookup (l : list f64) (i : nat) :
  Forall (fun x => zero64 x = true) l -> zero64 (l !!! i) = true.
Proof.
  intros Hl. destruct (l !! i) as [x|] eqn:Hi.
  - rewrite (list_lookup_total_correct _ _ _ Hi). exact (Forall_lookup_1 _ _ _ _ Hl Hi).
  - by rewrite list_lookup_total_alt, Hi.
Qed.

Lemma gather_zero (idx : nat -> nat) (n v : nat) (st : list (list f32)) :
  (forall i, (i < n)%nat -> zero32 (get2 st (idx i) v) = true) ->
  Forall (fun x => zero64 x = true)
    (for_loop n (fun i a => <[i := to_double (get2 st (idx i) v)]> a) (uninit n)).
Proof.
  intros Hz. apply Forall_lookup_2. intros i x Hi.
  pose proof (lookup_lt_Some _ _ _ Hi) as Hlt. rewrite gather_length in Hlt.
  apply list_lookup_total_correct in Hi as <-. rewrite fill_lookup.
  unfold uninit. rewrite length_replicate. case_decide; [|lia].
  apply to_double_zero. by apply Hz.
Qed.

Lemma gather_finite (n v k : nat) (C_ : list (list f32)) :
  (k < n)%nat -> finite32 (get2 C_ k v) = true ->
  (for_loop n (fun i a => <[i := to_double (get2 C_ i v)]> a) (uninit n)) !!! k
  = to_double (get2 C_ k v).
Proof.
  intros Hk _. rewrite fill_lookup. unfold uninit. rewrite length_replicate.
  case_decide; [done|lia].
Qed.

Lemma opp64_finite (x : f64) : finite64 x = true -> finite64 (- x) = true.
Proof. by destruct x as [[]]. Qed.

(** The constants of the source. *)
Lemma const_one_pos : SFltb sf_zero (raw32 (int32 1)) = true.
Proof. by vm_compute. Qed.
Lemma const_minus_one_neg : SFltb (raw32 (int32 (-1))) sf_zero = true.
Proof. by vm_compute. Qed.
Lemma const_third : finite64 (dec64 1 1 / dec64 3 1) = true.
Proof. by vm_compute. Qed.
Lemma const_half : finite64 (dec64 5 10) = true.
Proof. by vm_compute. Qed.
Lemma const_half_exponent : exponent_le (-53) (raw64 (dec64 5 10)).
Proof. by vm_compute. Qed.
Lemma const_sixth : finite64 (dec64 1 1 / dec64 6 1) = true.
Proof. by vm_compute. Qed.
Lemma const_sixth_exponent : exponent_le (-55) (raw64 (dec64 1 1 / dec64 6 1)).
Proof. by vm_compute. Qed.
Lemma const_two : finite64 (dec64 2 1) = true.
Proof. by vm_compute. Qed.
Lemma const_four : finite64 (int64 4) = true.
Proof. by vm_compute. Qed.
Lemma const_four_exponent : exponent_le (-50) (raw64 (int64 4)).
Proof. by vm_compute. Qed.
Lemma const_pole_x : finite64 (dec64 3 10 / dec64 13 10) = true.
Proof. by vm_compute. Qed.
Lemma const_pole_d : finite64 (int64 1 / dec64 13 10) = true.
Proof. by vm_compute. Qed.
Lemma const_two_VT : finite64 (dec64 2 1 * to_double Improved.VT) = true.
Proof. by vm_compute. Qed.
Lemma const_two_VT_nonzero : zero64 (dec64 2 1 * to_double Improved.VT) = false.
Proof. by vm_compute. Qed.

Section Silence.
Context `{Host}.

(** A goal [zero64 e = true], by the shape of [e]; [fin] proves the
    finiteness of a factor.  Hypotheses are looked up by their syntax. *)
Ltac hyp := match goal with Hp : ?P |- ?Q => constr_eq P Q; exact Hp end.

Ltac fin :=
  lazymatch goal with
  | |- finite64 ?c = true =>
      first
        [ hyp
        | constr_eq c (dec64 1 1 / dec64 3 1)%f64; exact const_third
        | constr_eq c (dec64 5 10); exact const_half
        | constr_eq c (dec64 1 1 / dec64 6 1)%f64; exact const_sixth
        | constr_eq c (dec64 2 1); exact const_two
        | constr_eq c (int64 4); exact const_four
        | constr_eq c (dec64 3 10 / dec64 13 10)%f64; exact const_pole_x
        | constr_eq c (int64 1 / dec64 13 10)%f64; exact const_pole_d
        | constr_eq c (dec64 2 1 * to_double Improved.VT)%f64; exact const_two_VT
        | lazymatch c with
          | opp64 _ => apply opp64_finite; hyp
          | to_double _ => apply to_double_finite; hyp
          end
        | apply zero64_finite; zeros ]
  end
with zeros :=
  first
    [ hyp
    | lazymatch goal with
      | |- zero64 (_ !!! _) = true => apply Forall_zero_lookup; hyp
      | |- zero64 (_ + _)%f64 = true => apply add64_zero; zeros
      | |- zero64 (_ - _)%f64 = true => apply sub64_zero; zeros
      | |- zero64 (- _)%f64 = true => apply opp64_zero; zeros
      | |- zero64 (_ / _)%f64 = true => apply div64_zero; [zeros|fin|exact const_two_VT_nonzero]
      | |- zero64 (_ * _)%f64 = true =>
          first [ solve [apply mul64_zero_r; [fin|zeros]]
                | solve [apply mul64_zero_l; [zeros|fin]] ]
      | |- zero64 (to_double _) = true => apply to_double_zero; zeros
      | |- zero32 (to_float _) = true => apply to_float_zero; zeros
      | |- zero32 (_ * _)%f32 = true => apply mul32_zero_l; [zeros|hyp]
      | Ht : keeps_zero tanh |- zero64 (tanh _) = true => apply Ht; zeros
      end ].

(** *** RK *)

Lemma clip_zero (value sat satInv : f32) :
  zero32 value = true -> finite32 sat = true -> finite32 satInv = true ->
  zero32 (RK.clip value sat satInv) = true.
Proof.
  intros Hv Hs Hi. unfold RK.clip.
  assert (Hp : zero32 (value * satInv) = true) by zeros.
  assert (E1 : (int32 1 <? value * satInv)%f32 = false)
    by (apply SFltb_zero_r; [exact Hp|exact const_one_pos]).
  assert (E2 : (value * satInv <? int32 (-1))%f32 = false)
    by (apply SFltb_zero_l; [exact Hp|exact const_minus_one_neg]).
  rewrite E1, E2. cbv iota. zeros.
Qed.

Lemma ladder_ode_zero (k r sat satInv x : f32) (y : Reference.vec4) :
  finite32 k = true -> finite32 r = true -> finite32 sat = true -> finite32 satInv = true ->
  zero32 x = true -> zero_vec y ->
  zero_vec (Reference.ladder_ode k r sat satInv x y).
Proof.
  intros Hk Hr Hs Hi Hx. destruct y as [[[y1 y2] y3] y4]. intros (H1 & H2 & H3 & H4).
  assert (HS : forall z, zero64 z = true ->
            zero64 (to_double (Reference.soft_clip sat satInv (to_float z))) = true).
  { intros z Hz. apply to_double_zero. rewrite <- clip_soft_clip. apply clip_zero; [zeros|done|done]. }
  assert (H0 : zero64 (to_double x - to_double r * y4) = true) by zeros.
  pose proof (HS _ H0) as S0. pose proof (HS _ H1) as S1. pose proof (HS _ H2) as S2.
  pose proof (HS _ H3) as S3. pose proof (HS _ H4) as S4.
  unfold Reference.ladder_ode. cbv zeta beta.
  repeat split; zeros.
Qed.

Lemma vadd_zero (a b : Reference.vec4) :
  zero_vec a -> zero_vec b -> zero_vec (Reference.vadd a b).
Proof.
  destruct a as [[[a1 a2] a3] a4], b as [[[b1 b2] b3] b4].
  intros (? & ? & ? & ?) (? & ? & ? & ?). repeat split; zeros.
Qed.

Lemma vscale_zero (c : f64) (a : Reference.vec4) :
  finite64 c = true -> zero_vec a -> zero_vec (Reference.vscale c a).
Proof.
  destruct a as [[[a1 a2] a3] a4]. intros ? (? & ? & ? & ?). repeat split; zeros.
Qed.

Lemma rk4_step_zero (F : Reference.vec4 -> Reference.vec4) (h : f64) (y : Reference.vec4) :
  (forall z, zero_vec z -> zero_vec (F z)) ->
  unit_period h -> zero_vec y -> zero_vec (Reference.rk4_step F h y).
Proof.
  intros HF (Hh & H0 & H1) Hy.
  pose proof (unit_exponent h H0 H1) as He.
  assert (Hhalf : finite64 (dec64 5 10 * h) = true).
  { apply (mul64_finite _ _ (-53) (-52));
      [exact const_half|exact Hh|exact const_half_exponent|exact He|lia]. }
  assert (Hsixth : finite64 (dec64 1 1 / dec64 6 1 * h) = true).
  { apply (mul64_finite _ _ (-55) (-52));
      [exact const_sixth|exact Hh|exact const_sixth_exponent|exact He|lia]. }
  unfold Reference.rk4_step. cbv zeta.
  assert (K1 : zero_vec (F y)) by (apply HF; exact Hy).
  assert (K2 : zero_vec (F (Reference.vadd y (Reference.vscale (dec64 5 10 * h) (F y))))).
  { apply HF, vadd_zero; [exact Hy|]. apply vscale_zero; [exact Hhalf|exact K1]. }
  set (k2 := F (Reference.vadd y (Reference.vscale (dec64 5 10 * h) (F y)))) in *.
  assert (K3 : zero_vec (F (Reference.vadd y (Reference.vscale (dec64 5 10 * h) k2)))).
  { apply HF, vadd_zero; [exact Hy|]. apply vscale_zero; [exact Hhalf|exact K2]. }
  set (k3 := F (Reference.vadd y (Reference.vscale (dec64 5 10 * h) k2))) in *.
  assert (K4 : zero_vec (F (Reference.vadd y (Reference.vscale h k3)))).
  { apply HF, vadd_zero; [exact Hy|]. apply vscale_zero; [exact Hh|exact K3]. }
  apply vadd_zero; [exact Hy|]. apply vscale_zero; [exact Hsixth|].
  apply vadd_zero; [|exact K4]. apply vadd_zero.
  - apply vadd_zero; [exact K1|]. apply vscale_zero; [exact const_two|exact K2].
  - apply vscale_zero; [exact const_two|exact K3].
Qed.

Lemma RK_lane_silent f in_ C_ v so :
  (v < 4)%nat -> active f !!! v = true -> locals_ok RK.n_state so ->
  unit_period dsamplerate_os_inv ->
  (forall i, (i < RK.n_coef)%nat -> finite32 (get2 C_ i v) = true) ->
  (forall i, (i < RK.n_state)%nat -> zero32 (get2 so.1 i v) = true) ->
  zero32 (in_ !!! v) = true ->
  zero32 ((RK.process_lane f in_ C_ v so).2 !!! v) = true
  /\ forall i, (i < RK.n_state)%nat ->
       zero32 (get2 (RK.process_lane f in_ C_ v so).1 i v) = true.
Proof.
  intros Hv Ha [Hs Ho] Hh HC Hst Hin. destruct so as [st out]. cbn [fst snd] in *.
  unfold RK.process_lane. rewrite Ha. cbn [negb].
  set (y0 := (to_double (get2 st 0 v), to_double (get2 st 1 v),
              to_double (get2 st 2 v), to_double (get2 st 3 v))).
  change (for_loop RK.n_state (fun i dstate => <[i := to_double (get2 st i v)]> dstate)
            (uninit RK.n_state))
    with (Reference.vec4_list y0).
  rewrite (rungekutteSolver_rk4 _ (Reference.vec4_list y0)) by reflexivity.
  change (Reference.vec4_list y0 !!! 0%nat, Reference.vec4_list y0 !!! 1%nat,
          Reference.vec4_list y0 !!! 2%nat, Reference.vec4_list y0 !!! 3%nat) with y0.
  assert (Hy : zero_vec (Reference.rk4_step
                 (Reference.ladder_ode (get2 C_ RK.rkm_cutoff v) (get2 C_ RK.rkm_reso v)
                    (get2 C_ RK.rkm_sat v) (get2 C_ RK.rkm_satinv v) (in_ !!! v))
                 dsamplerate_os_inv y0)).
  { apply rk4_step_zero; [|done|].
    - intros z Hz. apply ladder_ode_zero; try done; apply HC; cbv; lia.
    - subst y0. repeat split; apply to_double_zero, Hst; cbv; lia. }
  destruct (Reference.rk4_step _ _ y0) as [[[a b] c] d]. destruct Hy as (Za & Zb & Zc & Zd).
  cbn [fst snd]. split.
  - rewrite list_lookup_total_insert_eq by lia. by apply to_float_zero.
  - intros i Hi. lane_cell RK.n_state.
    destruct i as [|[|[|[|i]]]]; try lia; by apply to_float_zero.
Qed.

(** *** Huovilainen *)

Lemma huov_pass_zero in_ rq th tu (stageTanh delay : list f64) :
  keeps_zero tanh -> zero64 in_ = true ->
  finite64 rq = true -> finite64 th = true -> finite64 tu = true ->
  Forall (fun x => zero64 x = true) stageTanh -> Forall (fun x => zero64 x = true) delay ->
  Forall (fun x => zero64 x = true) (Reference.huov_pass in_ rq th tu stageTanh delay).1.1
  /\ Forall (fun x => zero64 x = true) (Reference.huov_pass in_ rq th tu stageTanh delay).1.2
  /\ Forall (fun x => zero64 x = true) (Reference.huov_pass in_ rq th tu stageTanh delay).2.
Proof.
  intros Ht Hin Hrq Hth Htu Hs Hd. unfold Reference.huov_pass.
  set (input := to_float (in_ - rq * delay !!! 5%nat)%f64).
  assert (Zi : zero32 input = true) by (subst input; zeros).
  set (s0 := (delay !!! 0%nat + tu * (tanh (to_double input * th) - stageTanh !!! 0%nat))%f64).
  assert (Z0 : zero64 s0 = true) by (subst s0; zeros).
  set (t0 := tanh (to_double (to_float s0) * th)%f64).
  assert (T0 : zero64 t0 = true) by (subst t0; zeros).
  set (s1 := (delay !!! 1%nat + tu * (t0 - stageTanh !!! 1%nat))%f64).
  assert (Z1 : zero64 s1 = true) by (subst s1; zeros).
  set (t1 := tanh (to_double (to_float s1) * th)%f64).
  assert (T1 : zero64 t1 = true) by (subst t1; zeros).
  set (s2 := (delay !!! 2%nat + tu * (t1 - stageTanh !!! 2%nat))%f64).
  assert (Z2 : zero64 s2 = true) by (subst s2; zeros).
  set (t2 := tanh (to_double (to_float s2) * th)%f64).
  assert (T2 : zero64 t2 = true) by (subst t2; zeros).
  set (s3 := (delay !!! 3%nat + tu * (t2 - tanh (delay !!! 3%nat * th)))%f64).
  assert (Z3 : zero64 s3 = true) by (subst s3; zeros).
  cbn [fst snd]. repeat split; repeat constructor; try assumption. zeros.
Qed.

Lemma Huov_processCore_zero in_ coeff stage stageTanh delay :
  length stage = 4%nat -> length stageTanh = 3%nat -> length delay = 6%nat ->
  keeps_zero tanh -> zero64 in_ = true ->
  finite64 (coeff !!! Huov.h_resquad) = true -> finite64 (coeff !!! Huov.h_thermal) = true ->
  finite64 (coeff !!! Huov.h_tune) = true ->
  Forall (fun x => zero64 x = true) stageTanh -> Forall (fun x => zero64 x = true) delay ->
  zero64 (Huov.processCore in_ coeff stage stageTanh delay).1 = true
  /\ Forall (fun x => zero64 x = true) (Huov.processCore in_ coeff stage stageTanh delay).2.1.1
  /\ Forall (fun x => zero64 x = true) (Huov.processCore in_ coeff stage stageTanh delay).2.1.2
  /\ Forall (fun x => zero64 x = true) (Huov.processCore in_ coeff stage stageTanh delay).2.2.
Proof.
  intros Hls Hlt Hld Ht Hin Hrq Hth Htu Hs Hd.
  rewrite Huov_processCore_step by done. unfold Reference.huov_step.
  destruct (huov_pass_zero in_ _ _ _ stageTanh delay Ht Hin Hrq Hth Htu Hs Hd)
    as (_ & Hs1 & Hd1).
  destruct (Reference.huov_pass in_ _ _ _ stageTanh delay) as [[stage1 stageTanh1] delay1].
  cbn [fst snd] in Hs1, Hd1.
  destruct (huov_pass_zero in_ _ _ _ stageTanh1 delay1 Ht Hin Hrq Hth Htu Hs1 Hd1)
    as (Ha2 & Hs2 & Hd2).
  destruct (Reference.huov_pass in_ _ _ _ stageTanh1 delay1) as [[stage2 stageTanh2] delay2].
  cbn [fst snd] in *. repeat split; try assumption. by apply Forall_zero_lookup.
Qed.

(** *** Krajeski *)

Lemma Kraj_processCore_zero in_ coeff state delay :
  length state = 5%nat -> length delay = 5%nat ->
  keeps_zero tanh -> zero64 in_ = true ->
  finite64 (coeff !!! Kraj.k_drive) = true -> finite64 (int64 4 * coeff !!! Kraj.k_gRes) = true ->
  finite64 (coeff !!! Kraj.k_gComp) = true -> finite64 (coeff !!! Kraj.k_g) = true ->
  Forall (fun x => zero64 x = true) state -> Forall (fun x => zero64 x = true) delay ->
  zero64 (Kraj.processCore in_ coeff state delay).1 = true
  /\ Forall (fun x => zero64 x = true) (Kraj.processCore in_ coeff state delay).2.1
  /\ Forall (fun x => zero64 x = true) (Kraj.processCore in_ coeff state delay).2.2.
Proof.
  intros Hls Hld Ht Hin Hdr Hres Hco Hg Hs Hd.
  rewrite Kraj_processCore_step by done. unfold Reference.kraj_step.
  set (drive := coeff !!! Kraj.k_drive) in *. set (gRes := coeff !!! Kraj.k_gRes) in *.
  set (gComp := coeff !!! Kraj.k_gComp) in *. set (g := coeff !!! Kraj.k_g) in *.
  set (x0 := tanh (drive * (in_ - int64 4 * gRes * (state !!! 4%nat - gComp * in_)))%f64).
  assert (Z0 : zero64 x0 = true) by (subst x0; zeros).
  assert (Hpole : forall y x d, zero64 y = true -> zero64 x = true -> zero64 d = true ->
            zero64 (Reference.kraj_pole g y x d) = true).
  { intros y x d Hy Hx Hd'. unfold Reference.kraj_pole. zeros. }
  set (x1 := Reference.kraj_pole g (state !!! 1%nat) x0 (delay !!! 0%nat)).
  assert (Z1 : zero64 x1 = true) by (subst x1; apply Hpole; zeros).
  set (x2 := Reference.kraj_pole g (state !!! 2%nat) x1 (delay !!! 1%nat)).
  assert (Z2 : zero64 x2 = true) by (subst x2; apply Hpole; zeros).
  set (x3 := Reference.kraj_pole g (state !!! 3%nat) x2 (delay !!! 2%nat)).
  assert (Z3 : zero64 x3 = true) by (subst x3; apply Hpole; zeros).
  set (x4 := Reference.kraj_pole g (state !!! 4%nat) x3 (delay !!! 3%nat)).
  assert (Z4 : zero64 x4 = true) by (subst x4; apply Hpole; zeros).
  cbn [fst snd]. repeat split; repeat constructor; try assumption. zeros.
Qed.

(** *** Improved *)

Lemma Improved_processCore_zero in_ coeff V dV tV :
  length V = 4%nat -> length dV = 4%nat -> length tV = 4%nat ->
  keeps_zero tanh -> unit_period dsamplerate_os_inv -> zero64 in_ = true ->
  finite64 (coeff !!! Improved.i_drive) = true -> finite64 (coeff !!! Improved.i_reso) = true ->
  finite64 (coeff !!! Improved.i_g) = true ->
  Forall (fun x => zero64 x = true) V -> Forall (fun x => zero64 x = true) dV ->
  Forall (fun x => zero64 x = true) tV ->
  zero64 (Improved.processCore in_ coeff V dV tV).1 = true
  /\ Forall (fun x => zero64 x = true) (Improved.processCore in_ coeff V dV tV).2.1.1
  /\ Forall (fun x => zero64 x = true) (Improved.processCore in_ coeff V dV tV).2.1.2
  /\ Forall (fun x => zero64 x = true) (Improved.processCore in_ coeff V dV tV).2.2.
Proof.
  intros HlV HldV HltV Ht (Hh & _ & _) Hin Hdr Hre Hg HV HdV HtV.
  rewrite Improved_processCore_step by done. unfold Reference.improved_step.
  set (drive := coeff !!! Improved.i_drive) in *. set (res := coeff !!! Improved.i_reso) in *.
  set (g := coeff !!! Improved.i_g) in *. set (h := dsamplerate_os_inv) in *.
  change Reference.VT with (to_double Improved.VT).
  assert (Htrap : forall v d d', zero64 v = true -> zero64 d = true -> zero64 d' = true ->
            zero64 (Reference.trapezoid v d d' h) = true).
  { intros v d d' Hv Hd Hd'. unfold Reference.trapezoid. zeros. }
  assert (Htanh : forall v, zero64 v = true ->
            zero64 (tanh (v / (dec64 2 1 * to_double Improved.VT))%f64) = true).
  { intros v Hv. zeros. }
  set (dV0 := (- g * (tanh ((drive * in_ + res * V !!! 3%nat)
                            / (dec64 2 1 * to_double Improved.VT)) + tV !!! 0%nat))%f64).
  assert (D0 : zero64 dV0 = true) by (subst dV0; zeros).
  set (V0 := Reference.trapezoid (V !!! 0%nat) dV0 (dV !!! 0%nat) h).
  assert (Z0 : zero64 V0 = true) by (subst V0; apply Htrap; zeros).
  set (tV0 := tanh (V0 / (dec64 2 1 * to_double Improved.VT))%f64).
  assert (T0 : zero64 tV0 = true) by (subst tV0; by apply Htanh).
  set (dV1 := (g * (tV0 - tV !!! 1%nat))%f64).
  assert (D1 : zero64 dV1 = true) by (subst dV1; zeros).
  set (V1 := Reference.trapezoid (V !!! 1%nat) dV1 (dV !!! 1%nat) h).
  assert (Z1 : zero64 V1 = true) by (subst V1; apply Htrap; zeros).
  set (tV1 := tanh (V1 / (dec64 2 1 * to_double Improved.VT))%f64).
  assert (T1 : zero64 tV1 = true) by (subst tV1; by apply Htanh).
  set (dV2 := (g * (tV1 - tV !!! 2%nat))%f64).
  assert (D2 : zero64 dV2 = true) by (subst dV2; zeros).
  set (V2 := Reference.trapezoid (V !!! 2%nat) dV2 (dV !!! 2%nat) h).
  assert (Z2 : zero64 V2 = true) by (subst V2; apply Htrap; zeros).
  set (tV2 := tanh (V2 / (dec64 2 1 * to_double Improved.VT))%f64).
  assert (T2 : zero64 tV2 = true) by (subst tV2; by apply Htanh).
  set (dV3 := (g * (tV2 - tV !!! 3%nat))%f64).
  assert (D3 : zero64 dV3 = true) by (subst dV3; zeros).
  set (V3 := Reference.trapezoid (V !!! 3%nat) dV3 (dV !!! 3%nat) h).
  assert (Z3 : zero64 V3 = true) by (subst V3; apply Htrap; zeros).
  set (tV3 := tanh (V3 / (dec64 2 1 * to_double Improved.VT))%f64).
  assert (T3 : zero64 tV3 = true) by (subst tV3; by apply Htanh).
  cbn [fst snd]. repeat split; repeat constructor; assumption.
Qed.

End Silence.

Section SilentLanes.
Context `{Host}.

(** The coefficient [k] of the lane, widened. *)
Lemma coeff_finite (n v k : nat) (C_ : list (list f32)) :
  (k < n)%nat -> finite32 (get2 C_ k v) = true ->
  finite64 ((for_loop n (fun i a => <[i := to_double (get2 C_ i v)]> a) (uninit n)) !!! k) = true.
Proof. intros Hk Hf. rewrite gather_finite by done. by apply to_double_finite. Qed.

Lemma Huov_lane_silent f in_ C_ v so :
  (v < 4)%nat -> active f !!! v = true -> locals_ok Huov.n_state so ->
  keeps_zero tanh ->
  (forall i, (i < Huov.n_coef)%nat -> finite32 (get2 C_ i v) = true) ->
  (forall i, (i < Huov.n_state)%nat -> zero32 (get2 so.1 i v) = true) ->
  zero32 (in_ !!! v) = true ->
  zero32 ((Huov.process_lane f in_ C_ v so).2 !!! v) = true
  /\ forall i, (i < Huov.n_state)%nat ->
       zero32 (get2 (Huov.process_lane f in_ C_ v so).1 i v) = true.
Proof.
  intros Hv Ha [Hs Ho] Ht HC Hst Hin. destruct so as [st out]. cbn [fst snd] in *.
  unfold Huov.process_lane. rewrite Ha. cbn [negb].
  destruct (Huov_processCore_zero (to_double (in_ !!! v))
    (for_loop Huov.n_coef (fun i a => <[i := to_double (get2 C_ i v)]> a) (uninit Huov.n_coef))
    (for_loop 4 (fun i a => <[i := to_double (get2 st i v)]> a) (uninit 4))
    (for_loop 3 (fun i a => <[i := to_double (get2 st (i + 4) v)]> a) (uninit 3))
    (for_loop 6 (fun i a => <[i := to_double (get2 st (i + 7) v)]> a) (uninit 6))
    (gather_length 4 _) (gather_length 3 _) (gather_length 6 _) Ht)
    as (Zo & Za & Zb & Zc).
  - by apply to_double_zero.
  - apply coeff_finite; [cbv; lia|]. apply HC. cbv; lia.
  - apply coeff_finite; [cbv; lia|]. apply HC. cbv; lia.
  - apply coeff_finite; [cbv; lia|]. apply HC. cbv; lia.
  - apply (gather_zero (fun i => (i + 4)%nat)). intros i Hi. apply Hst. unfold Huov.n_state. lia.
  - apply (gather_zero (fun i => (i + 7)%nat)). intros i Hi. apply Hst. unfold Huov.n_state. lia.
  - destruct (Huov.processCore _ _ _ _ _) as [o [[stage' stageTanh'] delay']].
    cbn [fst snd] in *. split.
    + rewrite list_lookup_total_insert_eq by lia. by apply to_float_zero.
    + intros i Hi. lane_cell Huov.n_state; by apply to_float_zero, Forall_zero_lookup.
Qed.

Lemma Kraj_lane_silent f in_ C_ v so :
  (v < 4)%nat -> active f !!! v = true -> locals_ok Kraj.n_state so ->
  keeps_zero tanh ->
  (forall i, (i < Kraj.n_coef)%nat -> finite32 (get2 C_ i v) = true) ->
  (forall i, (i < Kraj.n_state)%nat -> zero32 (get2 so.1 i v) = true) ->
  zero32 (in_ !!! v) = true ->
  zero32 ((Kraj.process_lane f in_ C_ v so).2 !!! v) = true
  /\ forall i, (i < Kraj.n_state)%nat ->
       zero32 (get2 (Kraj.process_lane f in_ C_ v so).1 i v) = true.
Proof.
  intros Hv Ha [Hs Ho] Ht HC Hst Hin. destruct so as [st out]. cbn [fst snd] in *.
  unfold Kraj.process_lane. rewrite Ha. cbn [negb].
  destruct (Kraj_processCore_zero (to_double (in_ !!! v))
    (for_loop Kraj.n_coef (fun i a => <[i := to_double (get2 C_ i v)]> a) (uninit Kraj.n_coef))
    (for_loop 5 (fun i a => <[i := to_double (get2 st i v)]> a) (uninit 5))
    (for_loop 5 (fun i a => <[i := to_double (get2 st (i + 5) v)]> a) (uninit 5))
    (gather_length 5 _) (gather_length 5 _) Ht)
    as (Zo & Za & Zb).
  - by apply to_double_zero.
  - apply coeff_finite; [cbv; lia|]. apply HC. cbv; lia.
  - (* four times a float does not overflow a double *)
    assert (Hg : finite32 (get2 C_ Kraj.k_gRes v) = true) by (apply HC; cbv; lia).
    rewrite gather_finite by (done || (cbv; lia)).
    apply (mul64_finite _ _ (-50) 104);
      [exact const_four|by apply to_double_finite|exact const_four_exponent| |lia].
    apply to_double_exponent. unfold finite32 in Hg. by apply andb_true_iff in Hg as [? _].
  - apply coeff_finite; [cbv; lia|]. apply HC. cbv; lia.
  - apply coeff_finite; [cbv; lia|]. apply HC. cbv; lia.
  - apply (gather_zero (fun i => i)). intros i Hi. apply Hst. unfold Kraj.n_state. lia.
  - apply (gather_zero (fun i => (i + 5)%nat)). intros i Hi. apply Hst. unfold Kraj.n_state. lia.
  - destruct (Kraj.processCore _ _ _ _) as [o [state' delay']].
    cbn [fst snd] in *. split.
    + rewrite list_lookup_total_insert_eq by lia. by apply to_float_zero.
    + intros i Hi. lane_cell Kraj.n_state; by apply to_float_zero, Forall_zero_lookup.
Qed.

Lemma Improved_lane_silent f in_ C_ v so :
  (v < 4)%nat -> active f !!! v = true -> locals_ok Improved.n_state so ->
  keeps_zero tanh -> unit_period dsamplerate_os_inv ->
  (forall i, (i < Improved.n_coef)%nat -> finite32 (get2 C_ i v) = true) ->
  (forall i, (i < Improved.n_state)%nat -> zero32 (get2 so.1 i v) = true) ->
  zero32 (in_ !!! v) = true ->
  zero32 ((Improved.process_lane f in_ C_ v so).2 !!! v) = true
  /\ forall i, (i < Improved.n_state)%nat ->
       zero32 (get2 (Improved.process_lane f in_ C_ v so).1 i v) = true.
Proof.
  intros Hv Ha [Hs Ho] Ht Hh HC Hst Hin. destruct so as [st out]. cbn [fst snd] in *.
  unfold Improved.process_lane. rewrite Ha. cbn [negb].
  destruct (Improved_processCore_zero (to_double (in_ !!! v))
    (for_loop Improved.n_coef (fun i a => <[i := to_double (get2 C_ i v)]> a)
       (uninit Improved.n_coef))
    (for_loop 4 (fun i a => <[i := to_double (get2 st i v)]> a) (uninit 4))
    (for_loop 4 (fun i a => <[i := to_double (get2 st (i + 4) v)]> a) (uninit 4))
    (for_loop 4 (fun i a => <[i := to_double (get2 st (i + 8) v)]> a) (uninit 4))
    (gather_length 4 _) (gather_length 4 _) (gather_length 4 _) Ht Hh)
    as (Zo & Za & Zb & Zc).
  - by apply to_double_zero.
  - apply coeff_finite; [cbv; lia|]. apply HC. cbv; lia.
  - apply coeff_finite; [cbv; lia|]. apply HC. cbv; lia.
  - apply coeff_finite; [cbv; lia|]. apply HC. cbv; lia.
  - apply (gather_zero (fun i => i)). intros i Hi. apply Hst. unfold Improved.n_state. lia.
  - apply (gather_zero (fun i => (i + 4)%nat)). intros i Hi. apply Hst.
    unfold Improved.n_state. lia.
  - apply (gather_zero (fun i => (i + 8)%nat)). intros i Hi. apply Hst.
    unfold Improved.n_state. lia.
  - destruct (Improved.processCore _ _ _ _ _) as [o [[V' dV'] tV']].
    cbn [fst snd] in *. split.
    + rewrite list_lookup_total_insert_eq by lia. by apply to_float_zero.
    + intros i Hi. lane_cell Improved.n_state; by apply to_float_zero, Forall_zero_lookup.
Qed.

Lemma process_silent (m : Model) f inm out0 v :
  (v < 4)%nat -> (n_state_of m <= length (R f))%nat -> active f !!! v = true ->
  host_keeps_silence m ->
  (forall i, (i < n_coef_of m)%nat -> finite32 (lane v (C f !!! i)) = true) ->
  (forall i, (i < n_state_of m)%nat -> zero32 (lane v (R f !!! i)) = true) ->
  zero32 (lane v inm) = true ->
  zero32 (lane v (process_of m f inm out0).1) = true
  /\ forall i, (i < n_state_of m)%nat ->
       zero32 (lane v (R (process_of m f inm out0).2 !!! i)) = true.
Proof.
  intros Hv Hl Ha Hhost HC HR Hin. rewrite process_of_batch.
  assert (HC' : forall n, (n <= n_coef_of m)%nat -> forall i, (i < n)%nat ->
            finite32 (get2 (for_loop n (fun i C_ => <[i := _mm_store_ps (C f !!! i)]> C_)
                              (uninit n)) i v) = true).
  { intros n Hn i Hi. rewrite store_loop_get2. case_decide; [|lia]. apply HC. lia. }
  destruct m; cbn [n_state_of n_coef_of host_keeps_silence] in *.
  - destruct (batch_lane_final RK.n_coef RK.n_state RK.process_lane RK_lane_other RK_lane_ok
                (fun so => zero32 (so.2 !!! v) = true
                           /\ forall i, (i < RK.n_state)%nat -> zero32 (get2 so.1 i v) = true)
                f inm out0 v Hv Hl) as (so & [HQo HQs] & Ho & HRs).
    + intros so so' [Hag Hout] [HQo HQs]. split; [by rewrite Hout|].
      intros i Hi. rewrite Hag. by apply HQs.
    + intros so Hok Hpre. apply RK_lane_silent; try done.
      * by apply HC'.
      * intros i Hi. rewrite Hpre by done. by apply HR.
    + split; [by rewrite Ho|]. intros i Hi. rewrite HRs by done. by apply HQs.
  - destruct (batch_lane_final Huov.n_coef Huov.n_state Huov.process_lane
                Huov_lane_other Huov_lane_ok
                (fun so => zero32 (so.2 !!! v) = true
                           /\ forall i, (i < Huov.n_state)%nat -> zero32 (get2 so.1 i v) = true)
                f inm out0 v Hv Hl) as (so & [HQo HQs] & Ho & HRs).
    + intros so so' [Hag Hout] [HQo HQs]. split; [by rewrite Hout|].
      intros i Hi. rewrite Hag. by apply HQs.
    + intros so Hok Hpre. apply Huov_lane_silent; try done.
      * by apply HC'.
      * intros i Hi. rewrite Hpre by done. by apply HR.
    + split; [by rewrite Ho|]. intros i Hi. rewrite HRs by done. by apply HQs.
  - destruct (batch_lane_final Kraj.n_coef Kraj.n_state Kraj.process_lane
                Kraj_lane_other Kraj_lane_ok
                (fun so => zero32 (so.2 !!! v) = true
                           /\ forall i, (i < Kraj.n_state)%nat -> zero32 (get2 so.1 i v) = true)
                f inm out0 v Hv Hl) as (so & [HQo HQs] & Ho & HRs).
    + intros so so' [Hag Hout] [HQo HQs]. split; [by rewrite Hout|].
      intros i Hi. rewrite Hag. by apply HQs.
    + intros so Hok Hpre. apply Kraj_lane_silent; try done.
      * by apply HC'.
      * intros i Hi. rewrite Hpre by done. by apply HR.
    + split; [by rewrite Ho|]. intros i Hi. rewrite HRs by done. by apply HQs.
  - destruct Hhost as [Ht Hh].
    destruct (batch_lane_final Improved.n_coef Improved.n_state Improved.process_lane
                Improved_lane_other Improved_lane_ok
                (fun so => zero32 (so.2 !!! v) = true
                           /\ forall i, (i < Improved.n_state)%nat ->
                                zero32 (get2 so.1 i v) = true)
                f inm out0 v Hv Hl) as (so & [HQo HQs] & Ho & HRs).
    + intros so so' [Hag Hout] [HQo HQs]. split; [by rewrite Hout|].
      intros i Hi. rewrite Hag. by apply HQs.
    + intros so Hok Hpre. apply Improved_lane_silent; try done.
      * by apply HC'.
      * intros i Hi. rewrite Hpre by done. by apply HR.
    + split; [by rewrite Ho|]. intros i Hi. rewrite HRs by done. by apply HQs.
Qed.

End SilentLanes.

(** Evaluation of the stores into the coefficient array, the arithmetic
    and the frequency utility left as they stand. *)
Ltac coefs_eval :=
  cbv -[add64 sub64 mul64 div64 opp64 add32 sub32 mul32 opp32 ltb32 ltb64 leb32 leb64
        to_float to_double int32 int64 dec32 dec64 tanh exp pow
        dsamplerate_os dsamplerate_os_inv MIDI_0_FREQ M_PI inhabitant
        Common.clampedFrequency Common.limit_range Improved.VT].

Section Coefficients.
Context `{Host}.

Lemma makeCoefficients_written (m : Model) (cm1 cm2 : FilterCoefficientMaker)
    (freq reso : f32) (storage : SurgeStorage) :
  (n_coef_of m <= length (cmC cm1))%nat -> (n_coef_of m <= length (cmC cm2))%nat ->
  take (n_coef_of m) (cmC (makeCoefficients_of m cm1 freq reso storage))
  = take (n_coef_of m) (cmC (makeCoefficients_of m cm2 freq reso storage)).
Proof.
  destruct cm1 as [l1], cm2 as [l2]. cbn [cmC].
  destruct m; cbn [n_coef_of]; unfold RK.n_coef, Huov.n_coef, Kraj.n_coef, Improved.n_coef;
    intros H1 H2.
  - do 4 (destruct l1 as [|? l1]; [cbn [length] in H1; lia|]).
    do 4 (destruct l2 as [|? l2]; [cbn [length] in H2; lia|]).
    coefs_eval. reflexivity.
  - do 6 (destruct l1 as [|? l1]; [cbn [length] in H1; lia|]).
    do 6 (destruct l2 as [|? l2]; [cbn [length] in H2; lia|]).
    coefs_eval. reflexivity.
  - do 7 (destruct l1 as [|? l1]; [cbn [length] in H1; lia|]).
    do 7 (destruct l2 as [|? l2]; [cbn [length] in H2; lia|]).
    coefs_eval. reflexivity.
  - do 5 (destruct l1 as [|? l1]; [cbn [length] in H1; lia|]).
    do 5 (destruct l2 as [|? l2]; [cbn [length] in H2; lia|]).
    coefs_eval. reflexivity.
Qed.

Lemma makeCoefficients_rest (m : Model) (cm : FilterCoefficientMaker)
    (freq reso : f32) (storage : SurgeStorage) :
  length (cmC (makeCoefficients_of m cm freq reso storage)) = length (cmC cm)
  /\ forall i, (n_coef_of m <= i)%nat ->
       cmC (makeCoefficients_of m cm freq reso storage) !!! i = cmC cm !!! i.
Proof.
  destruct m; cbn [makeCoefficients_of n_coef_of];
    unfold RK.makeCoefficients, Huov.makeCoefficients, Kraj.makeCoefficients,
      Improved.makeCoefficients; cbv zeta.
  all: split; [by rewrite !set_C_length|].
  all: cbv [RK.n_coef Huov.n_coef Kraj.n_coef Improved.n_coef
            RK.rkm_cutoff RK.rkm_reso RK.rkm_sat RK.rkm_satinv
            Huov.h_cutoff Huov.h_res Huov.h_thermal Huov.h_tune Huov.h_acr Huov.h_resquad
            Kraj.k_cutoff Kraj.k_reso Kraj.k_wc Kraj.k_g Kraj.k_gRes Kraj.k_gComp Kraj.k_drive
            Improved.i_cutoff Improved.i_reso Improved.i_x Improved.i_g Improved.i_drive].
  all: intros i Hi; rewrite !set_C_lookup; repeat case_decide; try lia; reflexivity.
Qed.

End Coefficients.

(** ** The saturator of the RK model *)

Lemma int32_m1_raw : int32 (-1) = F32 (S754_finite true 8388608 (-23)).
Proof. vm_compute. reflexivity. Qed.

(** A float below -1 is not above 1. *)
Lemma below_not_above (p : f32) :
  (p <? int32 (-1))%f32 = true -> (int32 1 <? p)%f32 = false.
Proof.
  rewrite int32_1_raw, int32_m1_raw. unfold ltb32. cbn [raw32].
  destruct p as [[[]|[]| |[] m e]]; unfold SFltb, SFcompare; cbv beta iota;
    intros Hp; try reflexivity; discriminate Hp.
Qed.

Lemma clip_high (value sat satInv : f32) :
  (int32 1 <? value * satInv)%f32 = true ->
  RK.clip value sat satInv
  = to_float (to_double sat
              * (to_double (int32 1)
                 - dec64 1 1 / dec64 3 1 * to_double (int32 1) * to_double (int32 1)
                   * to_double (int32 1)))%f64.
Proof. intros Hp. unfold RK.clip. by rewrite Hp. Qed.

Lemma clip_low (value sat satInv : f32) :
  (value * satInv <? int32 (-1))%f32 = true ->
  RK.clip value sat satInv
  = to_float (to_double sat
              * (to_double (int32 (-1))
                 - dec64 1 1 / dec64 3 1 * to_double (int32 (-1)) * to_double (int32 (-1))
                   * to_double (int32 (-1))))%f64.
Proof. intros Hp. unfold RK.clip. by rewrite (below_not_above _ Hp), Hp. Qed.

Lemma clip_nan (value sat satInv : f32) :
  raw32 (value * satInv)%f32 = S754_nan -> raw32 (RK.clip value sat satInv) = S754_nan.
Proof.
  intros Hp. unfold RK.clip, ltb32. rewrite Hp.
  assert (E1 : forall c, SFltb c S754_nan = false) by (by intros []).
  assert (E2 : forall c, SFltb S754_nan c = false) by (by intros []).
  rewrite E1, E2.
  unfold to_float, to_double, mul64, sub64; cbn [raw64 raw32]; rewrite Hp; cbn [round_to].
  unfold SFsub at 1. unfold SFmul at 1.
  by destruct (round_to prec64 emax64 (raw32 sat)).
Qed.

Lemma plateau_high :
  to_float (to_double (int32 3)
            * (to_double (int32 1)
               - dec64 1 1 / dec64 3 1 * to_double (int32 1) * to_double (int32 1)
                 * to_double (int32 1)))%f64 = int32 2.
Proof. vm_compute. reflexivity. Qed.

Lemma plateau_low :
  to_float (to_double (int32 3)
            * (to_double (int32 (-1))
               - dec64 1 1 / dec64 3 1 * to_double (int32 (-1)) * to_double (int32 (-1))
                 * to_double (int32 (-1))))%f64 = int32 (-2).
Proof. vm_compute. reflexivity. Qed.

Section Saturator.
Context `{Host}.

Lemma RK_made_saturation (cm : FilterCoefficientMaker) (freq reso : f32)
    (storage : SurgeStorage) :
  (4 <= length (cmC cm))%nat ->
  cmC (RK.makeCoefficients cm freq reso storage) !!! RK.rkm_sat = int32 3
  /\ cmC (RK.makeCoefficients cm freq reso storage) !!! RK.rkm_satinv = dec32 1 3.
Proof.
  intros Hlen. split.
  - unfold RK.makeCoefficients.
    cbv [RK.rkm_cutoff RK.rkm_reso RK.rkm_sat RK.rkm_satinv]. coef_lookup. by vm_compute.
  - unfold RK.makeCoefficients.
    cbv [RK.rkm_cutoff RK.rkm_reso RK.rkm_sat RK.rkm_satinv]. coef_lookup. by vm_compute.
Qed.

Lemma RK_clip_plateau (cm : FilterCoefficientMaker) (freq reso : f32)
    (storage : SurgeStorage) (value : f32) :
  (4 <= length (cmC cm))%nat ->
  let cm' := RK.makeCoefficients cm freq reso storage in
  let sat := cmC cm' !!! RK.rkm_sat in
  let satInv := cmC cm' !!! RK.rkm_satinv in
  ((int32 1 <? value * satInv)%f32 = true -> RK.clip value sat satInv = int32 2)
  /\ ((value * satInv <? int32 (-1))%f32 = true -> RK.clip value sat satInv = int32 (-2))
  /\ (raw32 value = S754_nan -> raw32 (RK.clip value sat satInv) = S754_nan).
Proof.
  intros Hlen cm' sat satInv.
  destruct (RK_made_saturation cm freq reso storage Hlen) as [Hsat Hinv].
  fold cm' in Hsat, Hinv. fold sat in Hsat. fold satInv in Hinv.
  split; [|split].
  - intros Hp. rewrite (clip_high _ _ _ Hp), Hsat. exact plateau_high.
  - intros Hp. rewrite (clip_low _ _ _ Hp), Hsat. exact plateau_low.
  - intros Hn. apply clip_nan. unfold mul32. cbn [raw32]. by rewrite Hn.
Qed.

End Saturator.

(** *** A product with a constant of [[4, 8)] *)

(** The float product of a float of [[0, 1]] and a float [c] of [[4, 8)]
    is a float of [[0, c]]: rounding does not leave the interval. *)
Lemma mul_const_bounds (mc : positive) (x : spec_float) :
  8388608 <= Zpos mc < 16777216 ->
  SFmul prec32 emax32 sf_one (S754_finite false mc (-21)) = S754_finite false mc (-21) ->
  valid_binary prec32 emax32 x = true ->
  SFleb sf_zero x = true -> SFleb x sf_one = true ->
  SFleb sf_zero (SFmul prec32 emax32 x (S754_finite false mc (-21))) = true
  /\ SFleb (SFmul prec32 emax32 x (S754_finite false mc (-21))) (S754_finite false mc (-21)) = true.
Proof.
  intros Hmc Hone Hv H0 H1. destruct x as [s|s| |s m e].
  { destruct s; split; reflexivity. }
  { destruct s; discriminate. }
  { discriminate. }
  destruct s; [discriminate|]. clear H0.
  apply SFleb_finite in H1. cbn [valid_binary] in Hv. unfold bounded, canonical_mantissa in Hv.
  apply andb_true_iff in Hv as [Hc He]. apply Z.eqb_eq in Hc. apply Z.leb_le in He.
  destruct (Zdigits2_bounds (Zpos m) eq_refl) as [Hd [Hlo Hhi]]. cbn [Zdigits2] in Hd, Hlo, Hhi.
  remember (Zpos (digits2_pos m)) as d eqn:Hdd. clear Hdd.
  assert (Hd24 : d <= 24) by (revert Hc; unfold fexp, emin, prec32, emax32; lia).
  assert (Hm24 : Zpos m < 16777216).
  { apply Z.lt_le_trans with (2 ^ d); [done|]. change 16777216 with (2 ^ 24).
    apply Z.pow_le_mono_r; lia. }
  destruct H1 as [Hlt|[-> Hm]].
  2:{ (* the exponent of 1: the float is 1 *)
    assert (d = 24) by (revert Hc; unfold fexp, emin, prec32, emax32; lia).
    assert (Zpos m = 8388608).
    { assert (2 ^ 23 <= Zpos m) by (replace 23 with (d - 1) by lia; done).
      change (2 ^ 23) with 8388608 in *. lia. }
    assert (m = 8388608%positive) as -> by lia.
    change (S754_finite false 8388608 (-23)) with sf_one. rewrite Hone.
    split; [reflexivity|]. apply SFleb_finite. lia. }
  (* below 1 *)
  change (SFmul prec32 emax32 (S754_finite false m e) (S754_finite false mc (-21)))
    with (binary_round_aux prec32 emax32 false (Zpos (m * mc)) (e + -21) loc_Exact).
  remember (Zpos (m * mc)) as mx eqn:Hmx. remember (e + -21) as ex eqn:Hexd.
  rewrite Pos2Z.inj_mul in Hmx.
  remember (Zpos mc) as c eqn:Hcd. clear Hone.
  assert (Hmx0 : 0 < mx) by nia.
  assert (Hmxlo : 8388608 <= mx) by nia.
  assert (Hmxhi : mx < 16777216 * c) by nia.
  destruct (binary_round_aux_spec prec32 emax32 false mx ex loc_Exact) as (m1 & Hm1 & ->);
    [lia|].
  remember (Zdigits2 mx) as D eqn:HDd.
  assert (HD48 : D <= 48).
  { rewrite HDd. apply Zdigits2_le; [done|lia|]. change (2 ^ 48) with (16777216 * 16777216). nia. }
  assert (HD24 : 24 <= D).
  { rewrite HDd. apply Zdigits2_ge; [lia|]. change (2 ^ (24 - 1)) with 8388608. lia. }
  assert (Hex : ex <= fexp prec32 emax32 (D + ex)) by (unfold fexp, emin, prec32, emax32; lia).
  pose proof (canon_first_shift prec32 emax32 mx ex eq_refl Hmx0) as Hcf.
  rewrite <- HDd in Hcf. destruct (Hcf Hex) as [[Hq0 Hqc] _]. clear Hcf.
  remember (Z.max 0 (fexp prec32 emax32 (D + ex) - ex)) as N1 eqn:HN1.
  remember (mx / 2 ^ N1) as q eqn:Hqd. remember (ex + N1) as e1 eqn:He1d.
  assert (He1 : e1 = fexp prec32 emax32 (D + ex)) by lia.
  assert (He1lo : -149 <= e1) by (rewrite He1; unfold fexp, emin, prec32, emax32; lia).
  assert (He1hi : e1 <= -21) by (rewrite He1; unfold fexp, emin, prec32, emax32; lia).
  (* the quotient has at most 24 digits *)
  assert (Hq24 : q < 16777216).
  { destruct (Z.eq_dec q 0) as [->|Hq]; [lia|].
    destruct (Zdigits2_bounds q ltac:(lia)) as [Hdq [_ Hqhi]].
    specialize (Hqc ltac:(lia)).
    assert (Zdigits2 q <= 24) by (revert Hqc; unfold fexp, emin, prec32, emax32; lia).
    apply Z.lt_le_trans with (2 ^ Zdigits2 q); [done|]. change 16777216 with (2 ^ 24).
    apply Z.pow_le_mono_r; lia. }
  (* at the exponent of the constant the quotient is below its mantissa *)
  assert (Hq6 : e1 = -21 -> q < c).
  { intros He21.
    assert (HN24 : N1 = 24) by (revert He21 He1; unfold fexp, emin, prec32, emax32; lia).
    rewrite Hqd, HN24. apply Z.div_lt_upper_bound; [done|].
    change (2 ^ 24) with 16777216. lia. }
  remember (Z.max 0 (fexp prec32 emax32 (Zdigits2 m1 + e1) - e1)) as N2 eqn:HN2d.
  assert (Hres : m1 / 2 ^ N2 = 0
                 \/ exists p, m1 / 2 ^ N2 = Zpos p
                      /\ (e1 + N2 < -21 \/ (e1 + N2 = -21 /\ Zpos p <= c))).
  { destruct (Z.eq_dec m1 0) as [->|Hm10]; [left; apply Z.div_0_l; apply Z.pow_nonzero; lia|].
    right. destruct (Z.eq_dec m1 16777216) as [->|Hm1x].
    - (* the rounding carried to 2^24 *)
      assert (HN2 : N2 = 1)
        by (rewrite HN2d; change (Zdigits2 16777216) with 25;
            unfold fexp, emin, prec32, emax32; lia).
      exists 8388608%positive. rewrite HN2. split; [reflexivity|].
      assert (e1 <> -21) by (intros Hx; specialize (Hq6 Hx); lia). lia.
    - assert (Hdm1 : Zdigits2 m1 <= 24).
      { apply Zdigits2_le; [lia|lia|]. change (2 ^ 24) with 16777216. lia. }
      destruct (Zdigits2_bounds m1 ltac:(lia)) as [Hdm1' _].
      assert (HN2 : N2 = 0) by (rewrite HN2d; unfold fexp, emin, prec32, emax32; lia).
      rewrite HN2, Z.pow_0_r, Z.div_1_r, Z.add_0_r.
      destruct m1 as [|p|p]; try lia. exists p. split; [done|].
      destruct (Z.eq_dec e1 (-21)) as [He21|]; [|lia].
      right. split; [done|]. specialize (Hq6 He21). lia. }
  destruct Hres as [-> | (p & -> & Hp)]; [done|].
  assert (Hfin : (e1 + N2 <=? emax32 - prec32) = true)
    by (apply Z.leb_le; unfold prec32, emax32; lia).
  rewrite Hfin. split; [done|]. apply SFleb_finite.
  destruct Hp as [Hp|[Hp1 Hp2]]; [by left|right]. split; [done|].
  (* the mantissa of the constant, as a positive *)
  lia.
Qed.

(** ** Sums and products of values of the format *)

Lemma binary_normalize_valid (prec emax : Z) (m e : Z) (szero : bool) :
  0 < prec -> valid_binary prec emax (binary_normalize prec emax m e szero) = true.
Proof. intros Hp. destruct m; [done| |]; by apply binary_round_valid. Qed.

Lemma SFadd_valid64 (x y : spec_float) :
  valid_binary prec64 emax64 x = true -> valid_binary prec64 emax64 y = true ->
  valid_binary prec64 emax64 (SFadd prec64 emax64 x y) = true.
Proof.
  intros Hx Hy.
  destruct x as [[]|[]| |sx mx ex], y as [[]|[]| |sy my ey]; try done.
  unfold SFadd. by apply binary_normalize_valid.
Qed.

Lemma SFsub_valid64 (x y : spec_float) :
  valid_binary prec64 emax64 x = true -> valid_binary prec64 emax64 y = true ->
  valid_binary prec64 emax64 (SFsub prec64 emax64 x y) = true.
Proof.
  intros Hx Hy.
  destruct x as [[]|[]| |sx mx ex], y as [[]|[]| |sy my ey]; try done.
  unfold SFsub. by apply binary_normalize_valid.
Qed.

(** The product of 1 and a double is that double. *)
Lemma SFmul_one_l (x : spec_float) :
  valid_binary prec64 emax64 x = true -> SFmul prec64 emax64 df_one x = x.
Proof.
  destruct x as [s|s| |s m e]; try done.
  cbn [valid_binary]. unfold bounded, canonical_mantissa. intros Hb.
  apply andb_true_iff in Hb as [Hc He]. apply Z.eqb_eq in Hc.
  unfold df_one. cbn [SFmul xorb].
  change (Zpos (4503599627370496 * m)) with (Zpos (Pos.iter xO m 52)).
  unfold binary_round_aux, shr_fexp. cbn [Zdigits2]. rewrite digits2_pos_shl.
  replace (Z.pos (digits2_pos m + 52) + (-52 + e)) with (Zpos (digits2_pos m) + e) by lia.
  rewrite Hc. replace (e - (-52 + e)) with 52 by lia.
  cbn [shr shr_record_of_loc]. rewrite iter_shr_1_shl.
  cbn [shr_m loc_of_shr_record round_nearest_even Zdigits2].
  replace (-52 + e + 52) with e by lia. rewrite Hc, Z.sub_diag.
  cbn [shr shr_record_of_loc shr_m]. by rewrite He.
Qed.

(** ** Coefficients of the Krajeski and Improved models *)

Lemma int32_4_raw : int32 4 = F32 sf_four.
Proof. vm_compute. reflexivity. Qed.

Lemma mul32_4_bounds (x : f32) :
  valid32 x = true -> (int32 0 <=? x)%f32 = true -> (x <=? int32 1)%f32 = true ->
  (int32 0 <=? x * int32 4)%f32 = true /\ (x * int32 4 <=? int32 4)%f32 = true.
Proof.
  rewrite int32_0_raw, int32_1_raw, int32_4_raw. destruct x as [x].
  unfold valid32, leb32, mul32. cbn [raw32]. apply mul_const_bounds; [lia|by vm_compute].
Qed.

Lemma to_double_one : to_double (to_float (dec64 1 1)) = F64 df_one.
Proof. vm_compute. reflexivity. Qed.

Lemma float_one : to_float (dec64 1 1) = int32 1.
Proof. vm_compute. reflexivity. Qed.

Lemma mul64_one_l (x : f64) : valid64 x = true -> (F64 df_one * x)%f64 = x.
Proof.
  destruct x as [x]. unfold valid64, mul64. cbn [raw64]. intros Hx. f_equal.
  by apply SFmul_one_l.
Qed.

Lemma sub64_valid (x y : f64) : valid64 x = true -> valid64 y = true -> valid64 (x - y) = true.
Proof. apply SFsub_valid64. Qed.

Lemma add64_valid (x y : f64) : valid64 x = true -> valid64 y = true -> valid64 (x + y) = true.
Proof. apply SFadd_valid64. Qed.

Lemma mul64_valid (x y : f64) : valid64 x = true -> valid64 y = true -> valid64 (x * y) = true.
Proof. apply SFmul_valid64. Qed.

Lemma int64_4_valid : valid64 (int64 4) = true.
Proof. by vm_compute. Qed.

Section Gains.
Context `{Host}.

Lemma Kraj_made_gains (cm : FilterCoefficientMaker) (freq reso : f32) (storage : SurgeStorage) :
  (7 <= length (cmC cm))%nat ->
  cmC (Kraj.makeCoefficients cm freq reso storage) !!! Kraj.k_drive = to_float (dec64 1 1)
  /\ cmC (Kraj.makeCoefficients cm freq reso storage) !!! Kraj.k_gComp = to_float (dec64 1 1).
Proof.
  intros Hlen. unfold Kraj.makeCoefficients.
  cbv [Kraj.k_cutoff Kraj.k_reso Kraj.k_wc Kraj.k_g Kraj.k_gRes Kraj.k_gComp Kraj.k_drive].
  cbv zeta. split; by coef_lookup.
Qed.

Lemma Kraj_input_stage in_ coeff state delay :
  length state = 5%nat -> length delay = 5%nat ->
  coeff !!! Kraj.k_drive = F64 df_one -> coeff !!! Kraj.k_gComp = F64 df_one ->
  valid64 in_ = true -> valid64 (coeff !!! Kraj.k_gRes) = true ->
  valid64 (state !!! 4%nat) = true ->
  (Kraj.processCore in_ coeff state delay).2.1 !!! 0%nat
  = tanh (in_ - int64 4 * coeff !!! Kraj.k_gRes * (state !!! 4%nat - in_))%f64.
Proof.
  intros Hs Hd Hdr Hco Hin Hg Hs4.
  rewrite Kraj_processCore_step by done. unfold Reference.kraj_step. cbn [fst snd].
  change ((?x :: _) !!! 0%nat) with x. rewrite Hdr, Hco.
  rewrite (mul64_one_l in_) by done. rewrite mul64_one_l; [done|].
  apply sub64_valid; [done|]. apply mul64_valid.
  - apply mul64_valid; [exact int64_4_valid|done].
  - by apply sub64_valid.
Qed.

Lemma Improved_made_coefficients (cm : FilterCoefficientMaker) (freq reso : f32)
    (storage : SurgeStorage) :
  (5 <= length (cmC cm))%nat ->
  cmC (Improved.makeCoefficients cm freq reso storage) !!! Improved.i_drive
  = to_float (dec64 1 1)
  /\ cmC (Improved.makeCoefficients cm freq reso storage) !!! Improved.i_reso
     = (reso * int32 4)%f32.
Proof.
  intros Hlen. unfold Improved.makeCoefficients.
  cbv [Improved.i_cutoff Improved.i_reso Improved.i_x Improved.i_g Improved.i_drive].
  cbv zeta. split; by coef_lookup.
Qed.

Lemma Improved_input_stage in_ coeff V dV tV :
  length V = 4%nat -> length dV = 4%nat -> length tV = 4%nat ->
  coeff !!! Improved.i_drive = F64 df_one -> valid64 in_ = true ->
  (Improved.processCore in_ coeff V dV tV).2.1.2 !!! 0%nat
  = (- coeff !!! Improved.i_g
     * (tanh ((in_ + coeff !!! Improved.i_reso * V !!! 3%nat)
              / (dec64 2 1 * to_double Improved.VT)) + tV !!! 0%nat))%f64.
Proof.
  intros HV HdV HtV Hdr Hin.
  rewrite Improved_processCore_step by done. unfold Reference.improved_step. cbn [fst snd].
  change ((?x :: _) !!! 0%nat) with x. rewrite Hdr.
  rewrite (mul64_one_l in_) by done. reflexivity.
Qed.

(** ** Cells that are not read *)

Lemma Huov_stage_not_read in_ coeff stage1 stage2 stageTanh delay :
  length stage1 = 4%nat -> length stage2 = 4%nat ->
  length stageTanh = 3%nat -> length delay = 6%nat ->
  Huov.processCore in_ coeff stage1 stageTanh delay
  = Huov.processCore in_ coeff stage2 stageTanh delay.
Proof. intros H1 H2 Ht Hd. by rewrite !Huov_processCore_step. Qed.

Lemma Kraj_dead_cells in_ coeff state1 state2 delay1 delay2 :
  length state1 = 5%nat -> length state2 = 5%nat ->
  length delay1 = 5%nat -> length delay2 = 5%nat ->
  (forall i, (1 <= i < 5)%nat -> state1 !!! i = state2 !!! i) ->
  (forall i, (i < 4)%nat -> delay1 !!! i = delay2 !!! i) ->
  (Kraj.processCore in_ coeff state1 delay1).1 = (Kraj.processCore in_ coeff state2 delay2).1
  /\ (Kraj.processCore in_ coeff state1 delay1).2.1
     = (Kraj.processCore in_ coeff state2 delay2).2.1
  /\ take 4 (Kraj.processCore in_ coeff state1 delay1).2.2
     = take 4 (Kraj.processCore in_ coeff state2 delay2).2.2.
Proof.
  intros Hs1 Hs2 Hd1 Hd2 Hs Hd. rewrite !Kraj_processCore_step by done.
  unfold Reference.kraj_step. cbn [fst snd take].
  rewrite <- (Hs 1%nat), <- (Hs 2%nat), <- (Hs 3%nat), <- (Hs 4%nat) by lia.
  rewrite <- (Hd 0%nat), <- (Hd 1%nat), <- (Hd 2%nat), <- (Hd 3%nat) by lia.
  done.
Qed.

Lemma calculateDerivatives_written input dstate1 dstate2 state cutoff resonance sat satInv :
  length dstate1 = 4%nat -> length dstate2 = 4%nat ->
  RK.calculateDerivatives input dstate1 state cutoff resonance sat satInv
  = RK.calculateDerivatives input dstate2 state cutoff resonance sat satInv
  /\ length (RK.calculateDerivatives input dstate1 state cutoff resonance sat satInv) = 4%nat.
Proof.
  intros H1 H2. explicit_list dstate1. explicit_list dstate2.
  unfold RK.calculateDerivatives. cbn [list_insert insert]. split; reflexivity.
Qed.

End Gains.

(** ** The lanes, one by one *)

Section Lanewise.
Context `{Host}.

(** The arrays a step leaves have the declared sizes. *)
Lemma Huov_processCore_lengths in_ coeff stage stageTanh delay :
  length stage = 4%nat -> length stageTanh = 3%nat -> length delay = 6%nat ->
  length (Huov.processCore in_ coeff stage stageTanh delay).2.1.1 = 4%nat
  /\ length (Huov.processCore in_ coeff stage stageTanh delay).2.1.2 = 3%nat
  /\ length (Huov.processCore in_ coeff stage stageTanh delay).2.2 = 6%nat.
Proof.
  intros Hs Ht Hd. rewrite Huov_processCore_step by done.
  unfold Reference.huov_step, Reference.huov_pass. cbv zeta beta iota. cbn [fst snd length].
  repeat split; reflexivity.
Qed.

Lemma Kraj_processCore_lengths in_ coeff state delay :
  length state = 5%nat -> length delay = 5%nat ->
  length (Kraj.processCore in_ coeff state delay).2.1 = 5%nat
  /\ length (Kraj.processCore in_ coeff state delay).2.2 = 5%nat.
Proof.
  intros Hs Hd. rewrite Kraj_processCore_step by done.
  unfold Reference.kraj_step. cbv zeta beta iota. cbn [fst snd length].
  split; reflexivity.
Qed.

Lemma Improved_processCore_lengths in_ coeff V dV tV :
  length V = 4%nat -> length dV = 4%nat -> length tV = 4%nat ->
  length (Improved.processCore in_ coeff V dV tV).2.1.1 = 4%nat
  /\ length (Improved.processCore in_ coeff V dV tV).2.1.2 = 4%nat
  /\ length (Improved.processCore in_ coeff V dV tV).2.2 = 4%nat.
Proof.
  intros HV HdV HtV. rewrite Improved_processCore_step by done.
  unfold Reference.improved_step. cbv zeta beta iota. cbn [fst snd length].
  repeat split; reflexivity.
Qed.

Lemma RK_lane_scalar f in_ C_ v so :
  (v < 4)%nat -> active f !!! v = true -> locals_ok RK.n_state so ->
  (RK.process_lane f in_ C_ v so).2 !!! v
  = (RK_lane_step (map (fun i => get2 C_ i v) (seq 0 RK.n_coef))
       (map (fun i => get2 so.1 i v) (seq 0 RK.n_state)) (in_ !!! v)).1
  /\ forall i, (i < RK.n_state)%nat ->
       get2 (RK.process_lane f in_ C_ v so).1 i v
       = (RK_lane_step (map (fun i => get2 C_ i v) (seq 0 RK.n_coef))
            (map (fun i => get2 so.1 i v) (seq 0 RK.n_state)) (in_ !!! v)).2 !!! i.
Proof.
  intros Hv Ha [Hs Ho]. destruct so as [st out]. cbn [fst snd] in *.
  unfold RK.process_lane, RK_lane_step. rewrite Ha. cbn [negb].
  change (for_loop RK.n_state (fun i dstate => <[i := to_double (get2 st i v)]> dstate)
            (uninit RK.n_state))
    with (map to_double (take 4 (map (fun i => get2 st i v) (seq 0 RK.n_state)))).
  change (map (fun i => get2 C_ i v) (seq 0 RK.n_coef) !!! RK.rkm_cutoff)
    with (get2 C_ RK.rkm_cutoff v).
  change (map (fun i => get2 C_ i v) (seq 0 RK.n_coef) !!! RK.rkm_reso)
    with (get2 C_ RK.rkm_reso v).
  change (map (fun i => get2 C_ i v) (seq 0 RK.n_coef) !!! RK.rkm_sat)
    with (get2 C_ RK.rkm_sat v).
  change (map (fun i => get2 C_ i v) (seq 0 RK.n_coef) !!! RK.rkm_satinv)
    with (get2 C_ RK.rkm_satinv v).
  set (y := map to_double (take 4 (map (fun i => get2 st i v) (seq 0 RK.n_state)))).
  rewrite (rungekutteSolver_rk4 _ y) by reflexivity.
  destruct (Reference.rk4_step _ _ _) as [[[a b] c] d]. cbn [Reference.vec4_list fst snd].
  split.
  - by rewrite list_lookup_total_insert_eq by lia.
  - intros i Hi. lane_cell RK.n_state.
    do 4 (destruct i as [|i]; [reflexivity|]). lia.
Qed.

Lemma Huov_lane_scalar f in_ C_ v so :
  (v < 4)%nat -> active f !!! v = true -> locals_ok Huov.n_state so ->
  (Huov.process_lane f in_ C_ v so).2 !!! v
  = (Huov_lane_step (map (fun i => get2 C_ i v) (seq 0 Huov.n_coef))
       (map (fun i => get2 so.1 i v) (seq 0 Huov.n_state)) (in_ !!! v)).1
  /\ forall i, (i < Huov.n_state)%nat ->
       get2 (Huov.process_lane f in_ C_ v so).1 i v
       = (Huov_lane_step (map (fun i => get2 C_ i v) (seq 0 Huov.n_coef))
            (map (fun i => get2 so.1 i v) (seq 0 Huov.n_state)) (in_ !!! v)).2 !!! i.
Proof.
  intros Hv Ha [Hs Ho]. destruct so as [st out]. cbn [fst snd] in *.
  unfold Huov.process_lane, Huov_lane_step. rewrite Ha. cbn [negb].
  change (for_loop 4 (fun i a => <[i := to_double (get2 st i v)]> a) (uninit 4))
    with (map to_double (take 4 (map (fun i => get2 st i v) (seq 0 Huov.n_state)))).
  change (for_loop 3 (fun i a => <[i := to_double (get2 st (i + 4) v)]> a) (uninit 3))
    with (map to_double (take 3 (drop 4 (map (fun i => get2 st i v) (seq 0 Huov.n_state))))).
  change (for_loop 6 (fun i a => <[i := to_double (get2 st (i + 7) v)]> a) (uninit 6))
    with (map to_double (take 6 (drop 7 (map (fun i => get2 st i v) (seq 0 Huov.n_state))))).
  change (for_loop Huov.n_coef (fun i a => <[i := to_double (get2 C_ i v)]> a)
            (uninit Huov.n_coef))
    with (map to_double (map (fun i => get2 C_ i v) (seq 0 Huov.n_coef))).
  destruct (Huov_processCore_lengths (to_double (in_ !!! v))
    (map to_double (map (fun i => get2 C_ i v) (seq 0 Huov.n_coef)))
    (map to_double (take 4 (map (fun i => get2 st i v) (seq 0 Huov.n_state))))
    (map to_double (take 3 (drop 4 (map (fun i => get2 st i v) (seq 0 Huov.n_state)))))
    (map to_double (take 6 (drop 7 (map (fun i => get2 st i v) (seq 0 Huov.n_state)))))
    eq_refl eq_refl eq_refl) as (La & Lb & Lc).
  destruct (Huov.processCore _ _ _ _ _) as [o [[a b] c]]. cbn [fst snd] in *.
  explicit_list a. explicit_list b. explicit_list c.
  split.
  - by rewrite list_lookup_total_insert_eq by lia.
  - intros i Hi. lane_cell Huov.n_state.
    all: do 13 (destruct i as [|i]; [try reflexivity; lia|]); lia.
Qed.

Lemma Kraj_lane_scalar f in_ C_ v so :
  (v < 4)%nat -> active f !!! v = true -> locals_ok Kraj.n_state so ->
  (Kraj.process_lane f in_ C_ v so).2 !!! v
  = (Kraj_lane_step (map (fun i => get2 C_ i v) (seq 0 Kraj.n_coef))
       (map (fun i => get2 so.1 i v) (seq 0 Kraj.n_state)) (in_ !!! v)).1
  /\ forall i, (i < Kraj.n_state)%nat ->
       get2 (Kraj.process_lane f in_ C_ v so).1 i v
       = (Kraj_lane_step (map (fun i => get2 C_ i v) (seq 0 Kraj.n_coef))
            (map (fun i => get2 so.1 i v) (seq 0 Kraj.n_state)) (in_ !!! v)).2 !!! i.
Proof.
  intros Hv Ha [Hs Ho]. destruct so as [st out]. cbn [fst snd] in *.
  unfold Kraj.process_lane, Kraj_lane_step. rewrite Ha. cbn [negb].
  change (for_loop 5 (fun i a => <[i := to_double (get2 st i v)]> a) (uninit 5))
    with (map to_double (take 5 (map (fun i => get2 st i v) (seq 0 Kraj.n_state)))).
  change (for_loop 5 (fun i a => <[i := to_double (get2 st (i + 5) v)]> a) (uninit 5))
    with (map to_double (take 5 (drop 5 (map (fun i => get2 st i v) (seq 0 Kraj.n_state))))).
  change (for_loop Kraj.n_coef (fun i a => <[i := to_double (get2 C_ i v)]> a)
            (uninit Kraj.n_coef))
    with (map to_double (map (fun i => get2 C_ i v) (seq 0 Kraj.n_coef))).
  destruct (Kraj_processCore_lengths (to_double (in_ !!! v))
    (map to_double (map (fun i => get2 C_ i v) (seq 0 Kraj.n_coef)))
    (map to_double (take 5 (map (fun i => get2 st i v) (seq 0 Kraj.n_state))))
    (map to_double (take 5 (drop 5 (map (fun i => get2 st i v) (seq 0 Kraj.n_state)))))
    eq_refl eq_refl) as (La & Lb).
  destruct (Kraj.processCore _ _ _ _) as [o [a b]]. cbn [fst snd] in *.
  explicit_list a. explicit_list b.
  split.
  - by rewrite list_lookup_total_insert_eq by lia.
  - intros i Hi. lane_cell Kraj.n_state.
    all: do 10 (destruct i as [|i]; [try reflexivity; lia|]); lia.
Qed.

Lemma Improved_lane_scalar f in_ C_ v so :
  (v < 4)%nat -> active f !!! v = true -> locals_ok Improved.n_state so ->
  (Improved.process_lane f in_ C_ v so).2 !!! v
  = (Improved_lane_step (map (fun i => get2 C_ i v) (seq 0 Improved.n_coef))
       (map (fun i => get2 so.1 i v) (seq 0 Improved.n_state)) (in_ !!! v)).1
  /\ forall i, (i < Improved.n_state)%nat ->
       get2 (Improved.process_lane f in_ C_ v so).1 i v
       = (Improved_lane_step (map (fun i => get2 C_ i v) (seq 0 Improved.n_coef))
            (map (fun i => get2 so.1 i v) (seq 0 Improved.n_state)) (in_ !!! v)).2 !!! i.
Proof.
  intros Hv Ha [Hs Ho]. destruct so as [st out]. cbn [fst snd] in *.
  unfold Improved.process_lane, Improved_lane_step. rewrite Ha. cbn [negb].
  change (for_loop 4 (fun i a => <[i := to_double (get2 st i v)]> a) (uninit 4))
    with (map to_double (take 4 (map (fun i => get2 st i v) (seq 0 Improved.n_state)))).
  change (for_loop 4 (fun i a => <[i := to_double (get2 st (i + 4) v)]> a) (uninit 4))
    with (map to_double
            (take 4 (drop 4 (map (fun i => get2 st i v) (seq 0 Improved.n_state))))).
  change (for_loop 4 (fun i a => <[i := to_double (get2 st (i + 8) v)]> a) (uninit 4))
    with (map to_double
            (take 4 (drop 8 (map (fun i => get2 st i v) (seq 0 Improved.n_state))))).
  change (for_loop Improved.n_coef (fun i a => <[i := to_double (get2 C_ i v)]> a)
            (uninit Improved.n_coef))
    with (map to_double (map (fun i => get2 C_ i v) (seq 0 Improved.n_coef))).
  destruct (Improved_processCore_lengths (to_double (in_ !!! v))
    (map to_double (map (fun i => get2 C_ i v) (seq 0 Improved.n_coef)))
    (map to_double (take 4 (map (fun i => get2 st i v) (seq 0 Improved.n_state))))
    (map to_double (take 4 (drop 4 (map (fun i => get2 st i v) (seq 0 Improved.n_state)))))
    (map to_double (take 4 (drop 8 (map (fun i => get2 st i v) (seq 0 Improved.n_state)))))
    eq_refl eq_refl eq_refl) as (La & Lb & Lc).
  destruct (Improved.processCore _ _ _ _ _) as [o [[a b] c]]. cbn [fst snd] in *.
  explicit_list a. explicit_list b. explicit_list c.
  split.
  - by rewrite list_lookup_total_insert_eq by lia.
  - intros i Hi. lane_cell Improved.n_state.
    all: do 12 (destruct i as [|i]; [try reflexivity; lia|]); lia.
Qed.

End Lanewise.

Lemma map_seq_ext {A} (g g' : nat -> A) (n : nat) :
  (forall i, (i < n)%nat -> g i = g' i) -> map g (seq 0 n) = map g' (seq 0 n).
Proof.
  intros Hg. apply List.map_ext_in. intros i Hi. apply Hg.
  apply List.in_seq in Hi. lia.
Qed.

Section BatchLanewise.
Variables (n_coef n_state : nat).
Variable body : QuadFilterUnitState -> list f32 -> list (list f32) -> nat ->
                list (list f32) * list f32 -> list (list f32) * list f32.
Variable step : list f32 -> list f32 -> f32 -> f32 * list f32.

Hypothesis body_other : forall f in_ C_ v v' so,
  v <> v' -> lane_agree v (body f in_ C_ v' so) so.
Hypothesis body_ok : forall f in_ C_ v so,
  locals_ok n_state so -> locals_ok n_state (body f in_ C_ v so).
Hypothesis body_scalar : forall f in_ C_ v so,
  (v < 4)%nat -> active f !!! v = true -> locals_ok n_state so ->
  (body f in_ C_ v so).2 !!! v
  = (step (map (fun i => get2 C_ i v) (seq 0 n_coef))
       (map (fun i => get2 so.1 i v) (seq 0 n_state)) (in_ !!! v)).1
  /\ forall i, (i < n_state)%nat ->
       get2 (body f in_ C_ v so).1 i v
       = (step (map (fun i => get2 C_ i v) (seq 0 n_coef))
            (map (fun i => get2 so.1 i v) (seq 0 n_state)) (in_ !!! v)).2 !!! i.

(** An active lane leaves the loop with the output and the registers of
    its step. *)
Lemma batch_lanewise f inm out0 v :
  (v < 4)%nat -> (n_state <= length (R f))%nat -> active f !!! v = true ->
  lane v (batch n_coef n_state body f inm out0).1
  = (step (lane_coefs n_coef v f) (lane_regs n_state v f) (lane v inm)).1
  /\ forall i, (i < n_state)%nat ->
       lane v (R (batch n_coef n_state body f inm out0).2 !!! i)
       = (step (lane_coefs n_coef v f) (lane_regs n_state v f) (lane v inm)).2 !!! i.
Proof.
  intros Hv Hl Ha.
  destruct (batch_lane_final n_coef n_state body body_other body_ok
              (fun so => so.2 !!! v
                         = (step (lane_coefs n_coef v f) (lane_regs n_state v f)
                              (lane v inm)).1
                         /\ forall i, (i < n_state)%nat ->
                              get2 so.1 i v
                              = (step (lane_coefs n_coef v f) (lane_regs n_state v f)
                                   (lane v inm)).2 !!! i)
              f inm out0 v Hv Hl) as (so & [HQ1 HQ2] & Ho & HR).
  - intros so so' [Hag Hout] [HQ1 HQ2]. split; [by rewrite Hout|].
    intros i Hi. rewrite Hag. by apply HQ2.
  - intros so Hok Hpre.
    destruct (body_scalar f (_mm_store_ps inm)
                (for_loop n_coef (fun i C_ => <[i := _mm_store_ps (C f !!! i)]> C_)
                   (uninit n_coef)) v so Hv Ha Hok) as [E1 E2].
    assert (EC : map (fun i => get2 (for_loop n_coef
                    (fun i C_ => <[i := _mm_store_ps (C f !!! i)]> C_) (uninit n_coef)) i v)
                   (seq 0 n_coef) = lane_coefs n_coef v f).
    { apply map_seq_ext. intros i Hi. rewrite store_loop_get2. case_decide; [done|lia]. }
    assert (ER : map (fun i => get2 so.1 i v) (seq 0 n_state) = lane_regs n_state v f).
    { apply map_seq_ext. exact Hpre. }
    rewrite EC, ER in E1. split; [exact E1|].
    intros i Hi. specialize (E2 i Hi). rewrite EC, ER in E2. exact E2.
  - split; [by rewrite Ho|]. intros i Hi. rewrite HR by done. by apply HQ2.
Qed.

End BatchLanewise.

Section ProcessLanewise.
Context `{Host}.

(** A call is the step of each active lane. *)
Lemma process_lanewise (m : Model) f inm out0 v i :
  (v < 4)%nat -> (n_state_of m <= length (R f))%nat -> (i < n_state_of m)%nat ->
  lane v (process_of m f inm out0).1
  = (if (active f !!! v : bool)
     then (lane_step m (lane_coefs (n_coef_of m) v f) (lane_regs (n_state_of m) v f)
             (lane v inm)).1
     else lane v out0)
  /\ lane v (R (process_of m f inm out0).2 !!! i)
     = (if (active f !!! v : bool)
        then (lane_step m (lane_coefs (n_coef_of m) v f) (lane_regs (n_state_of m) v f)
                (lane v inm)).2 !!! i
        else lane v (R f !!! i)).
Proof.
  intros Hv Hl Hi. destruct (active f !!! v) eqn:Ha.
  - rewrite process_of_batch.
    destruct m; cbn [n_state_of n_coef_of lane_step] in *.
    + destruct (batch_lanewise RK.n_coef RK.n_state RK.process_lane RK_lane_step
                  RK_lane_other RK_lane_ok RK_lane_scalar f inm out0 v Hv Hl Ha) as [E1 E2].
      split; [exact E1|exact (E2 i Hi)].
    + destruct (batch_lanewise Huov.n_coef Huov.n_state Huov.process_lane Huov_lane_step
                  Huov_lane_other Huov_lane_ok Huov_lane_scalar f inm out0 v Hv Hl Ha)
        as [E1 E2].
      split; [exact E1|exact (E2 i Hi)].
    + destruct (batch_lanewise Kraj.n_coef Kraj.n_state Kraj.process_lane Kraj_lane_step
                  Kraj_lane_other Kraj_lane_ok Kraj_lane_scalar f inm out0 v Hv Hl Ha)
        as [E1 E2].
      split; [exact E1|exact (E2 i Hi)].
    + destruct (batch_lanewise Improved.n_coef Improved.n_state Improved.process_lane
                  Improved_lane_step Improved_lane_other Improved_lane_ok
                  Improved_lane_scalar f inm out0 v Hv Hl Ha) as [E1 E2].
      split; [exact E1|exact (E2 i Hi)].
  - destruct (process_frame m f inm out0 v Ha) as (HR & _ & _ & Ho).
    split; [exact Ho|apply HR].
Qed.

End ProcessLanewise.


(** * Further properties *)

(** The hypotheses of the examples that range over the first cells of an
    array, by cases. *)
Tactic Notation "below" integer(n) :=
  let i := fresh "i" in let Hi := fresh "Hi" in
  intros i Hi; do n (destruct i as [|i]; [vm_compute; reflexivity|]);
  vm_compute in Hi; lia.

(** ** Batch processing *)

(** X1.  A batch-processing call of any of the four models writes the
    registers of the model and nothing else of the voice batch: the
    coefficient block and the active mask are those of the entry, the
    register block keeps its length, and every register from [n_state] on
    holds what it held, in all four lanes. *)
Theorem process_writes_only_its_registers `{Host} (m : Model) (f : QuadFilterUnitState)
    (inm out0 : m128) :
  C (process_of m f inm out0).2 = C f
  /\ active (process_of m f inm out0).2 = active f
  /\ length (R (process_of m f inm out0).2) = length (R f)
  /\ forall i, (n_state_of m <= i)%nat -> R (process_of m f inm out0).2 !!! i = R f !!! i.
Proof. apply process_registers. Qed.

(** X2.  When none of the four lanes is active, a batch-processing call of
    any of the four models leaves the voice batch as it was and returns
    what the uninitialised local [out] held. *)
Theorem process_without_active_lane `{Host} (m : Model) (f : QuadFilterUnitState)
    (inm out0 : m128) :
  (forall v, (v < 4)%nat -> active f !!! v = false) ->
  process_of m f inm out0 = (out0, f).
Proof. apply process_idle. Qed.

Lemma process_without_active_lane_witness :
  (forall v, (v < 4)%nat -> active Quiet.idle !!! v = false)
  /\ @process_of Example.host Huov_model Quiet.idle Example.in1 Example.garbage1
     = (Example.garbage1, Quiet.idle).
Proof.
  assert (Hidle : forall v, (v < 4)%nat -> active Quiet.idle !!! v = false) by below 4.
  split; [exact Hidle|].
  exact (@process_without_active_lane Example.host Huov_model Quiet.idle Example.in1
           Example.garbage1 Hidle).
Defined.

(** X3.  For an active lane the sample a call returns is also the last
    value of the model's registers: register [n_state - 1] of the RK
    model ([y4]), [h_delay + 5] of the Huovilainen model, [h_state + 4] of
    the Krajeski model, [h_V + 3] of the Improved model. *)
Theorem output_is_kept_in_registers `{Host} (m : Model) (f : QuadFilterUnitState)
    (inm out0 : m128) (v : nat) :
  (v < 4)%nat -> (n_state_of m <= length (R f))%nat -> active f !!! v = true ->
  lane v (process_of m f inm out0).1
  = lane v (R (process_of m f inm out0).2 !!! out_register m).
Proof. apply process_output_register. Qed.

Lemma output_is_kept_in_registers_witness :
  (2 < 4)%nat /\ (n_state_of Improved_model <= length (R Example.batch1))%nat
  /\ active Example.batch1 !!! 2%nat = true
  /\ lane 2 (@process_of Example.host Improved_model Example.batch1 Example.in1
               Example.garbage1).1
     = lane 2 (R (@process_of Example.host Improved_model Example.batch1 Example.in1
                    Example.garbage1).2 !!! out_register Improved_model).
Proof.
  assert (Hv : (2 < 4)%nat) by lia.
  assert (Hl : (n_state_of Improved_model <= length (R Example.batch1))%nat)
    by (vm_compute; lia).
  assert (Ha : active Example.batch1 !!! 2%nat = true) by reflexivity.
  split; [exact Hv|]. split; [exact Hl|]. split; [exact Ha|].
  exact (@output_is_kept_in_registers Example.host Improved_model Example.batch1 Example.in1
           Example.garbage1 2%nat Hv Hl Ha).
Defined.

(** X4.  The lanes of a voice batch may be processed in two calls or in
    one.  With two masks that share no lane, a call under the first mask
    followed by a call under the second, on the registers the first call
    left and with the same input, leaves the registers of one call under
    the union of the masks.  Each of the two calls returns, in the lanes
    of its own mask, the sample the one call returns there; in the other
    lanes the second call returns what its uninitialised local [out]
    held, not the samples of the first call. *)
Theorem lanes_may_be_processed_apart `{Host} (m : Model) (f : QuadFilterUnitState)
    (inm out0 out1 out2 : m128) (a b ab : list bool) :
  (n_state_of m <= length (R f))%nat ->
  (forall v, (v < 4)%nat -> ab !!! v = a !!! v || b !!! v) ->
  (forall v, (v < 4)%nat -> a !!! v && b !!! v = false) ->
  let r1 := process_of m (with_active f a) inm out0 in
  let r2 := process_of m (with_active r1.2 b) inm out1 in
  let r := process_of m (with_active f ab) inm out2 in
  R r2.2 = R r.2
  /\ forall v, (v < 4)%nat ->
       (a !!! v = true -> lane v r1.1 = lane v r.1)
       /\ (b !!! v = true -> lane v r2.1 = lane v r.1)
       /\ (b !!! v = false -> lane v r2.1 = lane v out1).
Proof. apply process_split. Qed.

Lemma lanes_may_be_processed_apart_witness :
  (n_state_of Kraj_model <= length (R Example.batch1))%nat
  /\ (forall v, (v < 4)%nat ->
        [true; false; true; true] !!! v
        = [true; false; false; false] !!! v || [false; false; true; true] !!! v)
  /\ (forall v, (v < 4)%nat ->
        [true; false; false; false] !!! v && [false; false; true; true] !!! v = false)
  /\ let r1 := @process_of Example.host Kraj_model
                 (with_active Example.batch1 [true; false; false; false])
                 Example.in1 Example.garbage1 in
     let r2 := @process_of Example.host Kraj_model
                 (with_active r1.2 [false; false; true; true])
                 Example.in1 Example.garbage2 in
     let r := @process_of Example.host Kraj_model
                (with_active Example.batch1 [true; false; true; true])
                Example.in1 Example.garbage1 in
     R r2.2 = R r.2
     /\ forall v, (v < 4)%nat ->
          ([true; false; false; false] !!! v = true -> lane v r1.1 = lane v r.1)
          /\ ([false; false; true; true] !!! v = true -> lane v r2.1 = lane v r.1)
          /\ ([false; false; true; true] !!! v = false
              -> lane v r2.1 = lane v Example.garbage2).
Proof.
  assert (Hl : (n_state_of Kraj_model <= length (R Example.batch1))%nat) by (vm_compute; lia).
  assert (Hab : forall v, (v < 4)%nat ->
            [true; false; true; true] !!! v
            = [true; false; false; false] !!! v || [false; false; true; true] !!! v)
    by below 4.
  assert (Hdis : forall v, (v < 4)%nat ->
            [true; false; false; false] !!! v && [false; false; true; true] !!! v = false)
    by below 4.
  split; [exact Hl|]. split; [exact Hab|]. split; [exact Hdis|].
  exact (@lanes_may_be_processed_apart Example.host Kraj_model Example.batch1 Example.in1
           Example.garbage1 Example.garbage2 Example.garbage1
           [true; false; false; false] [false; false; true; true]
           [true; false; true; true] Hl Hab Hdis).
Defined.

(** X9.  Silence is kept.  For an active lane whose registers are all
    zero and whose input is zero, with finite coefficients, a call of any
    of the four models returns zero for the lane and leaves its registers
    zero (zeros of either sign), provided the host's [tanh] maps zeros to
    zeros (Huovilainen, Krajeski, Improved) and its sample period is a
    finite double of the band from 0 to 1 (RK, Improved). *)
Theorem silence_is_kept `{Host} (m : Model) (f : QuadFilterUnitState) (inm out0 : m128)
    (v : nat) :
  (v < 4)%nat -> (n_state_of m <= length (R f))%nat -> active f !!! v = true ->
  host_keeps_silence m ->
  (forall i, (i < n_coef_of m)%nat -> finite32 (lane v (C f !!! i)) = true) ->
  (forall i, (i < n_state_of m)%nat -> zero32 (lane v (R f !!! i)) = true) ->
  zero32 (lane v inm) = true ->
  zero32 (lane v (process_of m f inm out0).1) = true
  /\ forall i, (i < n_state_of m)%nat ->
       zero32 (lane v (R (process_of m f inm out0).2 !!! i)) = true.
Proof. apply process_silent. Qed.

Lemma silence_is_kept_witness :
  (1 < 4)%nat /\ (n_state_of Improved_model <= length (R Quiet.batch))%nat
  /\ active Quiet.batch !!! 1%nat = true
  /\ @host_keeps_silence Example.host Improved_model
  /\ (forall i, (i < n_coef_of Improved_model)%nat ->
        finite32 (lane 1 (C Quiet.batch !!! i)) = true)
  /\ (forall i, (i < n_state_of Improved_model)%nat ->
        zero32 (lane 1 (R Quiet.batch !!! i)) = true)
  /\ zero32 (lane 1 Quiet.silence) = true
  /\ zero32 (lane 1 (@process_of Example.host Improved_model Quiet.batch Quiet.silence
                       Example.garbage1).1) = true
  /\ forall i, (i < n_state_of Improved_model)%nat ->
       zero32 (lane 1 (R (@process_of Example.host Improved_model Quiet.batch Quiet.silence
                            Example.garbage1).2 !!! i)) = true.
Proof.
  assert (Hv : (1 < 4)%nat) by lia.
  assert (Hl : (n_state_of Improved_model <= length (R Quiet.batch))%nat) by (vm_compute; lia).
  assert (Ha : active Quiet.batch !!! 1%nat = true) by reflexivity.
  assert (Hhost : @host_keeps_silence Example.host Improved_model).
  { split.
    - intros [[s|s| |s m e]] Hz; try discriminate Hz. destruct s; vm_compute; reflexivity.
    - vm_compute. repeat split; reflexivity. }
  assert (HC : forall i, (i < n_coef_of Improved_model)%nat ->
            finite32 (lane 1 (C Quiet.batch !!! i)) = true) by below 5.
  assert (HR : forall i, (i < n_state_of Improved_model)%nat ->
            zero32 (lane 1 (R Quiet.batch !!! i)) = true) by below 12.
  assert (Hin : zero32 (lane 1 Quiet.silence) = true) by reflexivity.
  split; [exact Hv|]. split; [exact Hl|]. split; [exact Ha|]. split; [exact Hhost|].
  split; [exact HC|]. split; [exact HR|]. split; [exact Hin|].
  exact (@silence_is_kept Example.host Improved_model Quiet.batch Quiet.silence
           Example.garbage1 1%nat Hv Hl Ha Hhost HC HR Hin).
Defined.

(** ** The scalar steps *)

(** X5.  The value a Huovilainen step returns is the mean of the outputs
    of the last stage in its two passes: half the sum of [stage[3]] on
    exit and [stage[3]] after the first pass; and on exit [delay[4]]
    holds [stage[3]]. *)
Theorem Huov_output_is_mean_of_passes `{Host} (in_ : f64)
    (coeff stage stageTanh delay : list f64) :
  length stage = 4%nat -> length stageTanh = 3%nat -> length delay = 6%nat ->
  (Huov.processCore in_ coeff stage stageTanh delay).1
  = (((Huov.processCore in_ coeff stage stageTanh delay).2.1.1 !!! 3%nat
      + (Huov.processCore_pass in_ (coeff !!! Huov.h_resquad) (coeff !!! Huov.h_thermal)
           (coeff !!! Huov.h_tune) (stage, stageTanh, delay)).1.1 !!! 3%nat)
     * dec64 5 10)%f64
  /\ (Huov.processCore in_ coeff stage stageTanh delay).2.2 !!! 4%nat
     = (Huov.processCore in_ coeff stage stageTanh delay).2.1.1 !!! 3%nat.
Proof. apply Huov_processCore_mean. Qed.

Lemma Huov_output_is_mean_of_passes_witness :
  length [int64 5; int64 6; int64 7; int64 8] = 4%nat
  /\ length [dec64 1 2; dec64 1 3; dec64 1 4] = 3%nat
  /\ length [int64 1; int64 2; int64 3; int64 4; int64 5; int64 6] = 6%nat
  /\ (@Huov.processCore Example.host (int64 1)
        [int64 261; dec64 1 2; dec64 25 1000000; int64 40000; int64 1; int64 2]
        [int64 5; int64 6; int64 7; int64 8] [dec64 1 2; dec64 1 3; dec64 1 4]
        [int64 1; int64 2; int64 3; int64 4; int64 5; int64 6]).2.2 !!! 4%nat
     = (@Huov.processCore Example.host (int64 1)
          [int64 261; dec64 1 2; dec64 25 1000000; int64 40000; int64 1; int64 2]
          [int64 5; int64 6; int64 7; int64 8] [dec64 1 2; dec64 1 3; dec64 1 4]
          [int64 1; int64 2; int64 3; int64 4; int64 5; int64 6]).2.1.1 !!! 3%nat.
Proof.
  do 3 (split; [reflexivity|]).
  exact (proj2 (@Huov_output_is_mean_of_passes Example.host (int64 1)
           [int64 261; dec64 1 2; dec64 25 1000000; int64 40000; int64 1; int64 2]
           [int64 5; int64 6; int64 7; int64 8] [dec64 1 2; dec64 1 3; dec64 1 4]
           [int64 1; int64 2; int64 3; int64 4; int64 5; int64 6]
           eq_refl eq_refl eq_refl)).
Defined.

(** X6.  After every Huovilainen step the cached tanh of each of the
    first three stages is that of the stage output the step left:
    [stageTanh[j]] is the tanh of [stage[j]], held in a float, times
    [thermal], for [j] from 0 to 2; and so, for an active lane, in the
    register block [process] leaves, where register [h_steageTanh + j] is
    that tanh of register [h_stage + j], narrowed to float. *)
Theorem Huov_tanh_cache_follows_stages `{Host} (in_ : f64)
    (coeff stage stageTanh delay : list f64)
    (f : QuadFilterUnitState) (inm out0 : m128) (v j : nat) :
  length stage = 4%nat -> length stageTanh = 3%nat -> length delay = 6%nat ->
  (j < 3)%nat ->
  (v < 4)%nat -> (Huov.n_state <= length (R f))%nat -> active f !!! v = true ->
  (Huov.processCore in_ coeff stage stageTanh delay).2.1.2 !!! j
  = tanh (to_double (to_float ((Huov.processCore in_ coeff stage stageTanh delay).2.1.1 !!! j))
          * coeff !!! Huov.h_thermal)%f64
  /\ lane v (R (Huov.process f inm out0).2 !!! (Huov.h_steageTanh + j)%nat)
     = to_float (tanh (to_double (lane v (R (Huov.process f inm out0).2
                                            !!! (Huov.h_stage + j)%nat))
                       * to_double (lane v (C f !!! Huov.h_thermal)))%f64).
Proof.
  intros Hs Ht Hd Hj Hv Hl Ha. split.
  - by apply Huov_processCore_cache.
  - by apply Huov_process_cache.
Qed.

Lemma Huov_tanh_cache_follows_stages_witness :
  length [int64 5; int64 6; int64 7; int64 8] = 4%nat
  /\ length [dec64 1 2; dec64 1 3; dec64 1 4] = 3%nat
  /\ length [int64 1; int64 2; int64 3; int64 4; int64 5; int64 6] = 6%nat
  /\ (1 < 3)%nat /\ (0 < 4)%nat
  /\ (Huov.n_state <= length (R Example.batch1))%nat
  /\ active Example.batch1 !!! 0%nat = true
  /\ lane 0 (R (@Huov.process Example.host Example.batch1 Example.in1 Example.garbage1).2
               !!! (Huov.h_steageTanh + 1)%nat)
     = to_float (@tanh Example.host
                   (to_double (lane 0 (R (@Huov.process Example.host Example.batch1
                                            Example.in1 Example.garbage1).2
                                         !!! (Huov.h_stage + 1)%nat))
                    * to_double (lane 0 (C Example.batch1 !!! Huov.h_thermal)))%f64).
Proof.
  assert (H13 : (1 < 3)%nat) by lia.
  assert (H04 : (0 < 4)%nat) by lia.
  assert (Hl : (Huov.n_state <= length (R Example.batch1))%nat) by (vm_compute; lia).
  assert (Ha : active Example.batch1 !!! 0%nat = true) by reflexivity.
  do 3 (split; [reflexivity|]).
  split; [exact H13|]. split; [exact H04|]. split; [exact Hl|]. split; [exact Ha|].
  exact (proj2 (@Huov_tanh_cache_follows_stages Example.host (int64 1)
           [int64 261; dec64 1 2; dec64 25 1000000; int64 40000; int64 1; int64 2]
           [int64 5; int64 6; int64 7; int64 8] [dec64 1 2; dec64 1 3; dec64 1 4]
           [int64 1; int64 2; int64 3; int64 4; int64 5; int64 6]
           Example.batch1 Example.in1 Example.garbage1 0%nat 1%nat
           eq_refl eq_refl eq_refl H13 H04 Hl Ha)).
Defined.

(** X15.  A Huovilainen step does not read the stage outputs it is given:
    [processCore] yields the same value and the same arrays for any two
    arrays [stage], the other arguments being the same. *)
Theorem Huov_stage_outputs_not_read `{Host} (in_ : f64)
    (coeff stage1 stage2 stageTanh delay : list f64) :
  length stage1 = 4%nat -> length stage2 = 4%nat ->
  length stageTanh = 3%nat -> length delay = 6%nat ->
  Huov.processCore in_ coeff stage1 stageTanh delay
  = Huov.processCore in_ coeff stage2 stageTanh delay.
Proof. apply Huov_stage_not_read. Qed.

Lemma Huov_stage_outputs_not_read_witness :
  length [int64 5; int64 6; int64 7; int64 8] = 4%nat
  /\ length [int64 0; int64 0; int64 1; int64 9] = 4%nat
  /\ length [dec64 1 2; dec64 1 3; dec64 1 4] = 3%nat
  /\ length [int64 1; int64 2; int64 3; int64 4; int64 5; int64 6] = 6%nat
  /\ @Huov.processCore Example.host (int64 1)
       [int64 261; dec64 1 2; dec64 25 1000000; int64 40000; int64 1; int64 2]
       [int64 5; int64 6; int64 7; int64 8] [dec64 1 2; dec64 1 3; dec64 1 4]
       [int64 1; int64 2; int64 3; int64 4; int64 5; int64 6]
     = @Huov.processCore Example.host (int64 1)
         [int64 261; dec64 1 2; dec64 25 1000000; int64 40000; int64 1; int64 2]
         [int64 0; int64 0; int64 1; int64 9] [dec64 1 2; dec64 1 3; dec64 1 4]
         [int64 1; int64 2; int64 3; int64 4; int64 5; int64 6].
Proof.
  do 4 (split; [reflexivity|]).
  exact (@Huov_stage_outputs_not_read Example.host (int64 1)
           [int64 261; dec64 1 2; dec64 25 1000000; int64 40000; int64 1; int64 2]
           [int64 5; int64 6; int64 7; int64 8] [int64 0; int64 0; int64 1; int64 9]
           [dec64 1 2; dec64 1 3; dec64 1 4]
           [int64 1; int64 2; int64 3; int64 4; int64 5; int64 6]
           eq_refl eq_refl eq_refl eq_refl).
Defined.

(** X7.  After every Krajeski step the first four delay taps are the
    stage values the step left: [delay[i] = state[i]] for [i] from 0 to 3
    in the arrays [processCore] leaves, and so, for an active lane, in the
    register block [process] leaves (registers [h_delay + i] and
    [h_state + i]). *)
Theorem Kraj_delay_taps_follow_states `{Host} (in_ : f64) (coeff state delay : list f64)
    (f : QuadFilterUnitState) (inm out0 : m128) (v i : nat) :
  length state = 5%nat -> length delay = 5%nat -> (i < 4)%nat ->
  (v < 4)%nat -> (Kraj.n_state <= length (R f))%nat -> active f !!! v = true ->
  (Kraj.processCore in_ coeff state delay).2.2 !!! i
  = (Kraj.processCore in_ coeff state delay).2.1 !!! i
  /\ lane v (R (Kraj.process f inm out0).2 !!! (Kraj.h_delay + i)%nat)
     = lane v (R (Kraj.process f inm out0).2 !!! (Kraj.h_state + i)%nat).
Proof.
  intros Hs Hd Hi Hv Hl Ha. split.
  - by apply Kraj_processCore_taps.
  - by apply Kraj_process_taps.
Qed.

Lemma Kraj_delay_taps_follow_states_witness :
  length [int64 0; dec64 1 2; dec64 1 4; dec64 1 8; dec64 1 16] = 5%nat
  /\ length [dec64 1 3; dec64 1 5; dec64 1 7; dec64 1 9; int64 0] = 5%nat
  /\ (3 < 4)%nat /\ (0 < 4)%nat
  /\ (Kraj.n_state <= length (R Example.batch1))%nat
  /\ active Example.batch1 !!! 0%nat = true
  /\ (@Kraj.processCore Example.host (int64 1) Quiet.kraj_coeff
        [int64 0; dec64 1 2; dec64 1 4; dec64 1 8; dec64 1 16]
        [dec64 1 3; dec64 1 5; dec64 1 7; dec64 1 9; int64 0]).2.2 !!! 3%nat
     = (@Kraj.processCore Example.host (int64 1) Quiet.kraj_coeff
          [int64 0; dec64 1 2; dec64 1 4; dec64 1 8; dec64 1 16]
          [dec64 1 3; dec64 1 5; dec64 1 7; dec64 1 9; int64 0]).2.1 !!! 3%nat
  /\ lane 0 (R (@Kraj.process Example.host Example.batch1 Example.in1 Example.garbage1).2
               !!! (Kraj.h_delay + 3)%nat)
     = lane 0 (R (@Kraj.process Example.host Example.batch1 Example.in1 Example.garbage1).2
                 !!! (Kraj.h_state + 3)%nat).
Proof.
  assert (H34 : (3 < 4)%nat) by lia.
  assert (H04 : (0 < 4)%nat) by lia.
  assert (Hl : (Kraj.n_state <= length (R Example.batch1))%nat) by (vm_compute; lia).
  assert (Ha : active Example.batch1 !!! 0%nat = true) by reflexivity.
  do 2 (split; [reflexivity|]).
  split; [exact H34|]. split; [exact H04|]. split; [exact Hl|]. split; [exact Ha|].
  exact (@Kraj_delay_taps_follow_states Example.host (int64 1) Quiet.kraj_coeff
           [int64 0; dec64 1 2; dec64 1 4; dec64 1 8; dec64 1 16]
           [dec64 1 3; dec64 1 5; dec64 1 7; dec64 1 9; int64 0]
           Example.batch1 Example.in1 Example.garbage1 0%nat 3%nat
           eq_refl eq_refl H34 H04 Hl Ha).
Defined.

(** X16.  A Krajeski step neither reads [state[0]] nor reads or writes
    [delay[4]]: two arrays [state] that agree from cell 1 on and two
    arrays [delay] that agree on cells 0 to 3 yield the same value, the
    same [state] and the same first four taps; [delay[4]] is on exit what
    it was on entry, and so is, for an active lane, register
    [h_delay + 4] when it holds a value of the float format. *)
Theorem Kraj_cells_not_read `{Host} (in_ : f64) (coeff state1 state2 delay1 delay2 : list f64)
    (f : QuadFilterUnitState) (inm out0 : m128) (v : nat) :
  length state1 = 5%nat -> length state2 = 5%nat ->
  length delay1 = 5%nat -> length delay2 = 5%nat ->
  (forall i, (1 <= i < 5)%nat -> state1 !!! i = state2 !!! i) ->
  (forall i, (i < 4)%nat -> delay1 !!! i = delay2 !!! i) ->
  (v < 4)%nat -> (Kraj.n_state <= length (R f))%nat -> active f !!! v = true ->
  valid32 (lane v (R f !!! (Kraj.h_delay + 4)%nat)) = true ->
  (Kraj.processCore in_ coeff state1 delay1).1 = (Kraj.processCore in_ coeff state2 delay2).1
  /\ (Kraj.processCore in_ coeff state1 delay1).2.1
     = (Kraj.processCore in_ coeff state2 delay2).2.1
  /\ take 4 (Kraj.processCore in_ coeff state1 delay1).2.2
     = take 4 (Kraj.processCore in_ coeff state2 delay2).2.2
  /\ (Kraj.processCore in_ coeff state1 delay1).2.2 !!! 4%nat = delay1 !!! 4%nat
  /\ lane v (R (Kraj.process f inm out0).2 !!! (Kraj.h_delay + 4)%nat)
     = lane v (R f !!! (Kraj.h_delay + 4)%nat).
Proof.
  intros Hs1 Hs2 Hd1 Hd2 Hs Hd Hv Hl Ha Hval.
  destruct (Kraj_dead_cells in_ coeff state1 state2 delay1 delay2 Hs1 Hs2 Hd1 Hd2 Hs Hd)
    as (Ho & Hst & Htap).
  split; [exact Ho|]. split; [exact Hst|]. split; [exact Htap|]. split.
  - by apply Kraj_processCore_taps.
  - destruct (Kraj_process_taps f inm out0 v Hv Hl Ha) as [_ H9]. rewrite H9.
    by apply to_float_to_double.
Qed.

Lemma Kraj_cells_not_read_witness :
  length [int64 0; dec64 1 2; dec64 1 4; dec64 1 8; dec64 1 16] = 5%nat
  /\ length [int64 7; dec64 1 2; dec64 1 4; dec64 1 8; dec64 1 16] = 5%nat
  /\ length [dec64 1 3; dec64 1 5; dec64 1 7; dec64 1 9; int64 0] = 5%nat
  /\ length [dec64 1 3; dec64 1 5; dec64 1 7; dec64 1 9; int64 3] = 5%nat
  /\ (forall i, (1 <= i < 5)%nat ->
        [int64 0; dec64 1 2; dec64 1 4; dec64 1 8; dec64 1 16] !!! i
        = [int64 7; dec64 1 2; dec64 1 4; dec64 1 8; dec64 1 16] !!! i)
  /\ (forall i, (i < 4)%nat ->
        [dec64 1 3; dec64 1 5; dec64 1 7; dec64 1 9; int64 0] !!! i
        = [dec64 1 3; dec64 1 5; dec64 1 7; dec64 1 9; int64 3] !!! i)
  /\ (0 < 4)%nat /\ (Kraj.n_state <= length (R Example.batch1))%nat
  /\ active Example.batch1 !!! 0%nat = true
  /\ valid32 (lane 0 (R Example.batch1 !!! (Kraj.h_delay + 4)%nat)) = true
  /\ (@Kraj.processCore Example.host (int64 1) Quiet.kraj_coeff
        [int64 0; dec64 1 2; dec64 1 4; dec64 1 8; dec64 1 16]
        [dec64 1 3; dec64 1 5; dec64 1 7; dec64 1 9; int64 0]).1
     = (@Kraj.processCore Example.host (int64 1) Quiet.kraj_coeff
          [int64 7; dec64 1 2; dec64 1 4; dec64 1 8; dec64 1 16]
          [dec64 1 3; dec64 1 5; dec64 1 7; dec64 1 9; int64 3]).1
  /\ lane 0 (R (@Kraj.process Example.host Example.batch1 Example.in1 Example.garbage1).2
               !!! (Kraj.h_delay + 4)%nat)
     = lane 0 (R Example.batch1 !!! (Kraj.h_delay + 4)%nat).
Proof.
  assert (Hs : forall i, (1 <= i < 5)%nat ->
            [int64 0; dec64 1 2; dec64 1 4; dec64 1 8; dec64 1 16] !!! i
            = [int64 7; dec64 1 2; dec64 1 4; dec64 1 8; dec64 1 16] !!! i).
  { intros i Hi. destruct i as [|i]; [lia|].
    do 4 (destruct i as [|i]; [reflexivity|]). lia. }
  assert (Hd : forall i, (i < 4)%nat ->
            [dec64 1 3; dec64 1 5; dec64 1 7; dec64 1 9; int64 0] !!! i
            = [dec64 1 3; dec64 1 5; dec64 1 7; dec64 1 9; int64 3] !!! i).
  { intros i Hi. do 4 (destruct i as [|i]; [reflexivity|]). lia. }
  assert (H04 : (0 < 4)%nat) by lia.
  assert (Hl : (Kraj.n_state <= length (R Example.batch1))%nat) by (vm_compute; lia).
  assert (Ha : active Example.batch1 !!! 0%nat = true) by reflexivity.
  assert (Hval : valid32 (lane 0 (R Example.batch1 !!! (Kraj.h_delay + 4)%nat)) = true)
    by (vm_compute; reflexivity).
  do 4 (split; [reflexivity|]).
  split; [exact Hs|]. split; [exact Hd|]. split; [exact H04|]. split; [exact Hl|].
  split; [exact Ha|]. split; [exact Hval|].
  destruct (@Kraj_cells_not_read Example.host (int64 1) Quiet.kraj_coeff
              [int64 0; dec64 1 2; dec64 1 4; dec64 1 8; dec64 1 16]
              [int64 7; dec64 1 2; dec64 1 4; dec64 1 8; dec64 1 16]
              [dec64 1 3; dec64 1 5; dec64 1 7; dec64 1 9; int64 0]
              [dec64 1 3; dec64 1 5; dec64 1 7; dec64 1 9; int64 3]
              Example.batch1 Example.in1 Example.garbage1 0%nat
              eq_refl eq_refl eq_refl eq_refl Hs Hd H04 Hl Ha Hval)
    as (Ho & _ & _ & _ & H9).
  split; [exact Ho|exact H9].
Defined.

(** X8.  After every step of the Improved model the cached tanh of each
    stage is that of the voltage the step left:
    [tV[i] = tanh (V[i] / (2 VT))] for [i] from 0 to 3. *)
Theorem Improved_tanh_cache_follows_voltages `{Host} (in_ : f64) (coeff V dV tV : list f64)
    (i : nat) :
  length V = 4%nat -> length dV = 4%nat -> length tV = 4%nat -> (i < 4)%nat ->
  (Improved.processCore in_ coeff V dV tV).2.2 !!! i
  = tanh ((Improved.processCore in_ coeff V dV tV).2.1.1 !!! i
          / (dec64 2 1 * to_double Improved.VT))%f64.
Proof. apply Improved_processCore_cache. Qed.

Lemma Improved_tanh_cache_follows_voltages_witness :
  length [dec64 1 2; dec64 1 4; dec64 1 8; dec64 1 16] = 4%nat
  /\ length [int64 3; int64 2; int64 1; int64 0] = 4%nat
  /\ length [dec64 1 3; dec64 1 5; dec64 1 7; dec64 1 9] = 4%nat
  /\ (2 < 4)%nat
  /\ (@Improved.processCore Example.host (int64 1) Quiet.improved_coeff
        [dec64 1 2; dec64 1 4; dec64 1 8; dec64 1 16] [int64 3; int64 2; int64 1; int64 0]
        [dec64 1 3; dec64 1 5; dec64 1 7; dec64 1 9]).2.2 !!! 2%nat
     = @tanh Example.host
         ((@Improved.processCore Example.host (int64 1) Quiet.improved_coeff
             [dec64 1 2; dec64 1 4; dec64 1 8; dec64 1 16] [int64 3; int64 2; int64 1; int64 0]
             [dec64 1 3; dec64 1 5; dec64 1 7; dec64 1 9]).2.1.1 !!! 2%nat
          / (dec64 2 1 * to_double Improved.VT))%f64.
Proof.
  assert (H24 : (2 < 4)%nat) by lia.
  do 3 (split; [reflexivity|]). split; [exact H24|].
  exact (@Improved_tanh_cache_follows_voltages Example.host (int64 1) Quiet.improved_coeff
           [dec64 1 2; dec64 1 4; dec64 1 8; dec64 1 16] [int64 3; int64 2; int64 1; int64 0]
           [dec64 1 3; dec64 1 5; dec64 1 7; dec64 1 9] 2%nat eq_refl eq_refl eq_refl H24).
Defined.

(** X17.  [calculateDerivatives] of the RK model writes every cell of the
    array [dstate] it is given and reads none: the derivatives it leaves
    do not depend on what the array held (the arrays [deriv1] to [deriv4]
    of the solver are declared without an initialiser), and there are
    four of them. *)
Theorem calculateDerivatives_overwrites_dstate (input : f32)
    (dstate1 dstate2 state : list f64) (cutoff resonance sat satInv : f32) :
  length dstate1 = 4%nat -> length dstate2 = 4%nat ->
  RK.calculateDerivatives input dstate1 state cutoff resonance sat satInv
  = RK.calculateDerivatives input dstate2 state cutoff resonance sat satInv
  /\ length (RK.calculateDerivatives input dstate1 state cutoff resonance sat satInv) = 4%nat.
Proof. apply calculateDerivatives_written. Qed.

Lemma calculateDerivatives_overwrites_dstate_witness :
  length [int64 5; int64 6; int64 7; int64 8] = 4%nat
  /\ length [int64 0; int64 0; int64 1; int64 9] = 4%nat
  /\ RK.calculateDerivatives (int32 1) [int64 5; int64 6; int64 7; int64 8]
       [dec64 1 2; dec64 1 4; dec64 1 8; dec64 1 16] (int32 1643) (int32 3) (int32 3)
       (dec32 1 3)
     = RK.calculateDerivatives (int32 1) [int64 0; int64 0; int64 1; int64 9]
         [dec64 1 2; dec64 1 4; dec64 1 8; dec64 1 16] (int32 1643) (int32 3) (int32 3)
         (dec32 1 3)
  /\ length (RK.calculateDerivatives (int32 1)
               [int64 5; int64 6; int64 7; int64 8]
               [dec64 1 2; dec64 1 4; dec64 1 8; dec64 1 16] (int32 1643) (int32 3) (int32 3)
               (dec32 1 3)) = 4%nat.
Proof.
  do 2 (split; [reflexivity|]).
  exact (calculateDerivatives_overwrites_dstate (int32 1)
           [int64 5; int64 6; int64 7; int64 8] [int64 0; int64 0; int64 1; int64 9]
           [dec64 1 2; dec64 1 4; dec64 1 8; dec64 1 16] (int32 1643) (int32 3) (int32 3)
           (dec32 1 3) eq_refl eq_refl).
Defined.

(** ** Coefficient derivation *)

(** X10.  The coefficient derivation of each of the four models writes
    the first [n_coef] cells of the coefficient array of the maker, all of
    them, and no other: what it leaves in these cells does not depend on
    what the array held before (the cells [k_wc] and [i_x] that the
    Krajeski and the Improved derivation read back are read after they
    were written), the cells from [n_coef] on hold what they held, and the
    array keeps its length. *)
Theorem makeCoefficients_overwrites_its_cells `{Host} (m : Model)
    (cm1 cm2 : FilterCoefficientMaker) (freq reso : f32) (storage : SurgeStorage) :
  (n_coef_of m <= length (cmC cm1))%nat -> (n_coef_of m <= length (cmC cm2))%nat ->
  take (n_coef_of m) (cmC (makeCoefficients_of m cm1 freq reso storage))
  = take (n_coef_of m) (cmC (makeCoefficients_of m cm2 freq reso storage))
  /\ length (cmC (makeCoefficients_of m cm1 freq reso storage)) = length (cmC cm1)
  /\ forall i, (n_coef_of m <= i)%nat ->
       cmC (makeCoefficients_of m cm1 freq reso storage) !!! i = cmC cm1 !!! i.
Proof.
  intros H1 H2. split; [by apply makeCoefficients_written|]. apply makeCoefficients_rest.
Qed.

Lemma makeCoefficients_overwrites_its_cells_witness :
  (n_coef_of Kraj_model <= length (cmC Example.cm))%nat
  /\ (n_coef_of Kraj_model <= length (cmC Quiet.cm))%nat
  /\ take (n_coef_of Kraj_model)
       (cmC (@makeCoefficients_of Example.host Kraj_model Example.cm (int32 (-9)) (dec32 1 2)
               Example.storage))
     = take (n_coef_of Kraj_model)
         (cmC (@makeCoefficients_of Example.host Kraj_model Quiet.cm (int32 (-9)) (dec32 1 2)
                 Example.storage))
  /\ length (cmC (@makeCoefficients_of Example.host Kraj_model Example.cm (int32 (-9))
                    (dec32 1 2) Example.storage)) = length (cmC Example.cm)
  /\ forall i, (n_coef_of Kraj_model <= i)%nat ->
       cmC (@makeCoefficients_of Example.host Kraj_model Example.cm (int32 (-9)) (dec32 1 2)
              Example.storage) !!! i = cmC Example.cm !!! i.
Proof.
  assert (H1 : (n_coef_of Kraj_model <= length (cmC Example.cm))%nat) by (vm_compute; lia).
  assert (H2 : (n_coef_of Kraj_model <= length (cmC Quiet.cm))%nat) by (vm_compute; lia).
  split; [exact H1|]. split; [exact H2|].
  exact (@makeCoefficients_overwrites_its_cells Example.host Kraj_model Example.cm Quiet.cm
           (int32 (-9)) (dec32 1 2) Example.storage H1 H2).
Defined.

(** X11.  With the saturation pair the RK coefficient derivation stores
    (3 and the float nearest 1/3), the saturator [clip] is flat beyond the
    clamp: it returns exactly 2 for every value whose product with the
    second float of the pair is above 1, exactly -2 for every value whose
    product is below -1, and a NaN for a NaN. *)
Theorem RK_saturator_plateau `{Host} (cm : FilterCoefficientMaker) (freq reso : f32)
    (storage : SurgeStorage) (value : f32) :
  (4 <= length (cmC cm))%nat ->
  let cm' := RK.makeCoefficients cm freq reso storage in
  let sat := cmC cm' !!! RK.rkm_sat in
  let satInv := cmC cm' !!! RK.rkm_satinv in
  ((int32 1 <? value * satInv)%f32 = true -> RK.clip value sat satInv = int32 2)
  /\ ((value * satInv <? int32 (-1))%f32 = true -> RK.clip value sat satInv = int32 (-2))
  /\ (raw32 value = S754_nan -> raw32 (RK.clip value sat satInv) = S754_nan).
Proof. apply RK_clip_plateau. Qed.

Lemma RK_saturator_plateau_witness :
  (4 <= length (cmC Example.cm))%nat
  /\ (int32 1 <? int32 7
                 * cmC (@RK.makeCoefficients Example.host Example.cm (int32 (-9)) (dec32 1 2)
                          Example.storage) !!! RK.rkm_satinv)%f32 = true
  /\ RK.clip (int32 7)
       (cmC (@RK.makeCoefficients Example.host Example.cm (int32 (-9)) (dec32 1 2)
               Example.storage) !!! RK.rkm_sat)
       (cmC (@RK.makeCoefficients Example.host Example.cm (int32 (-9)) (dec32 1 2)
               Example.storage) !!! RK.rkm_satinv)
     = int32 2.
Proof.
  assert (Hlen : (4 <= length (cmC Example.cm))%nat) by (vm_compute; lia).
  assert (Hp : (int32 1 <? int32 7
                  * cmC (@RK.makeCoefficients Example.host Example.cm (int32 (-9)) (dec32 1 2)
                           Example.storage) !!! RK.rkm_satinv)%f32 = true)
    by (vm_compute; reflexivity).
  split; [exact Hlen|]. split; [exact Hp|].
  exact (proj1 (@RK_saturator_plateau Example.host Example.cm (int32 (-9)) (dec32 1 2)
                  Example.storage (int32 7) Hlen) Hp).
Defined.

(** X12.  For every pitch and every resonance the coefficient derivation
    of the Improved model stores as resonance coefficient the float
    product of the request and 4, without a clamp, whatever the request
    is; when the request is a float of the band from 0 to 1 that
    coefficient is a float of the band from 0 to 4. *)
Theorem Improved_resonance_band `{Host} (cm : FilterCoefficientMaker) (freq reso : f32)
    (storage : SurgeStorage) :
  (5 <= length (cmC cm))%nat ->
  let cm' := Improved.makeCoefficients cm freq reso storage in
  cmC cm' !!! Improved.i_reso = (reso * int32 4)%f32
  /\ (valid32 reso = true -> (int32 0 <=? reso)%f32 = true -> (reso <=? int32 1)%f32 = true ->
      (int32 0 <=? cmC cm' !!! Improved.i_reso)%f32 = true
      /\ (cmC cm' !!! Improved.i_reso <=? int32 4)%f32 = true).
Proof.
  intros Hlen cm'.
  destruct (Improved_made_coefficients cm freq reso storage Hlen) as [_ Hreso].
  fold cm' in Hreso. split; [exact Hreso|].
  intros Hv H0 H1. rewrite Hreso. by apply mul32_4_bounds.
Qed.

Lemma Improved_resonance_band_witness :
  (5 <= length (cmC Example.cm))%nat
  /\ valid32 (dec32 3 4) = true
  /\ (int32 0 <=? dec32 3 4)%f32 = true
  /\ (dec32 3 4 <=? int32 1)%f32 = true
  /\ let cm' := @Improved.makeCoefficients Example.host Example.cm (int32 (-9)) (dec32 3 4)
                  Example.storage in
     cmC cm' !!! Improved.i_reso = (dec32 3 4 * int32 4)%f32
     /\ (int32 0 <=? cmC cm' !!! Improved.i_reso)%f32 = true
     /\ (cmC cm' !!! Improved.i_reso <=? int32 4)%f32 = true.
Proof.
  assert (Hlen : (5 <= length (cmC Example.cm))%nat) by (vm_compute; lia).
  assert (Hv : valid32 (dec32 3 4) = true) by (vm_compute; reflexivity).
  assert (H0 : (int32 0 <=? dec32 3 4)%f32 = true) by (vm_compute; reflexivity).
  assert (H1 : (dec32 3 4 <=? int32 1)%f32 = true) by (vm_compute; reflexivity).
  split; [exact Hlen|]. split; [exact Hv|]. split; [exact H0|]. split; [exact H1|].
  destruct (@Improved_resonance_band Example.host Example.cm (int32 (-9)) (dec32 3 4)
              Example.storage Hlen) as [Hreso Hband].
  split; [exact Hreso|]. exact (Hband Hv H0 H1).
Defined.

(** X13.  The coefficient derivation of the Krajeski model stores 1 as
    [drive] and as [gComp], and with these gains the input stage of a
    step is [state[0] = tanh (in - 4 gRes (state[4] - in))]: the two
    products with a gain leave their other factor as it is, for doubles
    [in], [gRes] and [state[4]] of the format. *)
Theorem Kraj_gains_are_unity `{Host} (cm : FilterCoefficientMaker) (freq reso : f32)
    (storage : SurgeStorage) (in_ : f64) (coeff state delay : list f64) :
  (7 <= length (cmC cm))%nat ->
  length state = 5%nat -> length delay = 5%nat ->
  coeff !!! Kraj.k_drive
  = to_double (cmC (Kraj.makeCoefficients cm freq reso storage) !!! Kraj.k_drive) ->
  coeff !!! Kraj.k_gComp
  = to_double (cmC (Kraj.makeCoefficients cm freq reso storage) !!! Kraj.k_gComp) ->
  valid64 in_ = true -> valid64 (coeff !!! Kraj.k_gRes) = true ->
  valid64 (state !!! 4%nat) = true ->
  cmC (Kraj.makeCoefficients cm freq reso storage) !!! Kraj.k_drive = int32 1
  /\ cmC (Kraj.makeCoefficients cm freq reso storage) !!! Kraj.k_gComp = int32 1
  /\ (Kraj.processCore in_ coeff state delay).2.1 !!! 0%nat
     = tanh (in_ - int64 4 * coeff !!! Kraj.k_gRes * (state !!! 4%nat - in_))%f64.
Proof.
  intros Hlen Hs Hd Hdr Hco Hin Hg Hs4.
  destruct (Kraj_made_gains cm freq reso storage Hlen) as [Edr Eco].
  rewrite Edr in Hdr |- *. rewrite Eco in Hco |- *. rewrite to_double_one in Hdr, Hco.
  split; [exact float_one|]. split; [exact float_one|]. by apply Kraj_input_stage.
Qed.

Lemma Kraj_gains_are_unity_witness :
  (7 <= length (cmC Example.cm))%nat
  /\ length [int64 0; dec64 1 2; dec64 1 4; dec64 1 8; dec64 1 16] = 5%nat
  /\ length [dec64 1 3; dec64 1 5; dec64 1 7; dec64 1 9; int64 0] = 5%nat
  /\ Quiet.kraj_coeff !!! Kraj.k_drive
     = to_double (cmC (@Kraj.makeCoefficients Example.host Example.cm (int32 (-9)) (dec32 1 2)
                         Example.storage) !!! Kraj.k_drive)
  /\ Quiet.kraj_coeff !!! Kraj.k_gComp
     = to_double (cmC (@Kraj.makeCoefficients Example.host Example.cm (int32 (-9)) (dec32 1 2)
                         Example.storage) !!! Kraj.k_gComp)
  /\ valid64 (int64 1) = true /\ valid64 (Quiet.kraj_coeff !!! Kraj.k_gRes) = true
  /\ valid64 ([int64 0; dec64 1 2; dec64 1 4; dec64 1 8; dec64 1 16] !!! 4%nat) = true
  /\ (@Kraj.processCore Example.host (int64 1) Quiet.kraj_coeff
        [int64 0; dec64 1 2; dec64 1 4; dec64 1 8; dec64 1 16]
        [dec64 1 3; dec64 1 5; dec64 1 7; dec64 1 9; int64 0]).2.1 !!! 0%nat
     = @tanh Example.host
         (int64 1 - int64 4 * Quiet.kraj_coeff !!! Kraj.k_gRes
                    * ([int64 0; dec64 1 2; dec64 1 4; dec64 1 8; dec64 1 16] !!! 4%nat
                       - int64 1))%f64.
Proof.
  assert (Hlen : (7 <= length (cmC Example.cm))%nat) by (vm_compute; lia).
  assert (Hdr : Quiet.kraj_coeff !!! Kraj.k_drive
                = to_double (cmC (@Kraj.makeCoefficients Example.host Example.cm (int32 (-9))
                                    (dec32 1 2) Example.storage) !!! Kraj.k_drive))
    by (vm_compute; reflexivity).
  assert (Hco : Quiet.kraj_coeff !!! Kraj.k_gComp
                = to_double (cmC (@Kraj.makeCoefficients Example.host Example.cm (int32 (-9))
                                    (dec32 1 2) Example.storage) !!! Kraj.k_gComp))
    by (vm_compute; reflexivity).
  assert (Hin : valid64 (int64 1) = true) by (vm_compute; reflexivity).
  assert (Hg : valid64 (Quiet.kraj_coeff !!! Kraj.k_gRes) = true) by (vm_compute; reflexivity).
  assert (Hs4 : valid64 ([int64 0; dec64 1 2; dec64 1 4; dec64 1 8; dec64 1 16] !!! 4%nat)
                = true) by (vm_compute; reflexivity).
  split; [exact Hlen|]. do 2 (split; [reflexivity|]).
  split; [exact Hdr|]. split; [exact Hco|]. split; [exact Hin|]. split; [exact Hg|].
  split; [exact Hs4|].
  exact (proj2 (proj2 (@Kraj_gains_are_unity Example.host Example.cm (int32 (-9)) (dec32 1 2)
           Example.storage (int64 1) Quiet.kraj_coeff
           [int64 0; dec64 1 2; dec64 1 4; dec64 1 8; dec64 1 16]
           [dec64 1 3; dec64 1 5; dec64 1 7; dec64 1 9; int64 0]
           Hlen eq_refl eq_refl Hdr Hco Hin Hg Hs4))).
Defined.

(** X14.  The coefficient derivation of the Improved model stores 1 as
    [drive], and with this gain the first derivative of a step is
    [dV[0] = -g (tanh ((in + resonance V[3]) / (2 VT)) + tV[0])]: the
    product of the gain and the input is the input, for a double [in] of
    the format. *)
Theorem Improved_drive_is_unity `{Host} (cm : FilterCoefficientMaker) (freq reso : f32)
    (storage : SurgeStorage) (in_ : f64) (coeff V dV tV : list f64) :
  (5 <= length (cmC cm))%nat ->
  length V = 4%nat -> length dV = 4%nat -> length tV = 4%nat ->
  coeff !!! Improved.i_drive
  = to_double (cmC (Improved.makeCoefficients cm freq reso storage) !!! Improved.i_drive) ->
  valid64 in_ = true ->
  cmC (Improved.makeCoefficients cm freq reso storage) !!! Improved.i_drive = int32 1
  /\ (Improved.processCore in_ coeff V dV tV).2.1.2 !!! 0%nat
     = (- coeff !!! Improved.i_g
        * (tanh ((in_ + coeff !!! Improved.i_reso * V !!! 3%nat)
                 / (dec64 2 1 * to_double Improved.VT)) + tV !!! 0%nat))%f64.
Proof.
  intros Hlen HV HdV HtV Hdr Hin.
  destruct (Improved_made_coefficients cm freq reso storage Hlen) as [Edr _].
  rewrite Edr in Hdr |- *. rewrite to_double_one in Hdr.
  split; [exact float_one|]. by apply Improved_input_stage.
Qed.

Lemma Improved_drive_is_unity_witness :
  (5 <= length (cmC Example.cm))%nat
  /\ length [dec64 1 2; dec64 1 4; dec64 1 8; dec64 1 16] = 4%nat
  /\ length [int64 3; int64 2; int64 1; int64 0] = 4%nat
  /\ length [dec64 1 3; dec64 1 5; dec64 1 7; dec64 1 9] = 4%nat
  /\ Quiet.improved_coeff !!! Improved.i_drive
     = to_double (cmC (@Improved.makeCoefficients Example.host Example.cm (int32 (-9))
                         (dec32 1 2) Example.storage) !!! Improved.i_drive)
  /\ valid64 (dec64 1 3) = true
  /\ (@Improved.processCore Example.host (dec64 1 3) Quiet.improved_coeff
        [dec64 1 2; dec64 1 4; dec64 1 8; dec64 1 16] [int64 3; int64 2; int64 1; int64 0]
        [dec64 1 3; dec64 1 5; dec64 1 7; dec64 1 9]).2.1.2 !!! 0%nat
     = (- Quiet.improved_coeff !!! Improved.i_g
        * (@tanh Example.host
             ((dec64 1 3 + Quiet.improved_coeff !!! Improved.i_reso
                           * [dec64 1 2; dec64 1 4; dec64 1 8; dec64 1 16] !!! 3%nat)
              / (dec64 2 1 * to_double Improved.VT))
           + [dec64 1 3; dec64 1 5; dec64 1 7; dec64 1 9] !!! 0%nat))%f64.
Proof.
  assert (Hlen : (5 <= length (cmC Example.cm))%nat) by (vm_compute; lia).
  assert (Hdr : Quiet.improved_coeff !!! Improved.i_drive
                = to_double (cmC (@Improved.makeCoefficients Example.host Example.cm
                                    (int32 (-9)) (dec32 1 2) Example.storage)
                             !!! Improved.i_drive)) by (vm_compute; reflexivity).
  assert (Hin : valid64 (dec64 1 3) = true) by (vm_compute; reflexivity).
  split; [exact Hlen|]. do 3 (split; [reflexivity|]). split; [exact Hdr|]. split; [exact Hin|].
  exact (proj2 (@Improved_drive_is_unity Example.host Example.cm (int32 (-9)) (dec32 1 2)
           Example.storage (dec64 1 3) Quiet.improved_coeff
           [dec64 1 2; dec64 1 4; dec64 1 8; dec64 1 16] [int64 3; int64 2; int64 1; int64 0]
           [dec64 1 3; dec64 1 5; dec64 1 7; dec64 1 9]
           Hlen eq_refl eq_refl eq_refl Hdr Hin)).
Defined.

(** ** The lanes of a call *)

(** X18.  A batch-processing call is, lane by lane, the step of the
    model on the floats of the lane.  For an active lane the output and
    every register of the model are those of [lane_step] on the lane's
    coefficients, registers and input, whatever the other lanes hold; for
    an inactive lane they are what they were on entry. *)
Theorem process_is_step_of_each_lane `{Host} (m : Model) (f : QuadFilterUnitState)
    (inm out0 : m128) (v i : nat) :
  (v < 4)%nat -> (n_state_of m <= length (R f))%nat -> (i < n_state_of m)%nat ->
  lane v (process_of m f inm out0).1
  = (if (active f !!! v : bool)
     then (lane_step m (lane_coefs (n_coef_of m) v f) (lane_regs (n_state_of m) v f)
             (lane v inm)).1
     else lane v out0)
  /\ lane v (R (process_of m f inm out0).2 !!! i)
     = (if (active f !!! v : bool)
        then (lane_step m (lane_coefs (n_coef_of m) v f) (lane_regs (n_state_of m) v f)
                (lane v inm)).2 !!! i
        else lane v (R f !!! i)).
Proof. apply process_lanewise. Qed.

Lemma process_is_step_of_each_lane_witness :
  (2 < 4)%nat /\ (n_state_of Huov_model <= length (R Example.batch1))%nat
  /\ (9 < n_state_of Huov_model)%nat
  /\ lane 2 (@process_of Example.host Huov_model Example.batch1 Example.in1
               Example.garbage1).1
     = (if (active Example.batch1 !!! 2%nat : bool)
        then (@lane_step Example.host Huov_model
                (lane_coefs (n_coef_of Huov_model) 2 Example.batch1)
                (lane_regs (n_state_of Huov_model) 2 Example.batch1)
                (lane 2 Example.in1)).1
        else lane 2 Example.garbage1)
  /\ lane 2 (R (@process_of Example.host Huov_model Example.batch1 Example.in1
                  Example.garbage1).2 !!! 9%nat)
     = (if (active Example.batch1 !!! 2%nat : bool)
        then (@lane_step Example.host Huov_model
                (lane_coefs (n_coef_of Huov_model) 2 Example.batch1)
                (lane_regs (n_state_of Huov_model) 2 Example.batch1)
                (lane 2 Example.in1)).2 !!! 9%nat
        else lane 2 (R Example.batch1 !!! 9%nat)).
Proof.
  assert (Hv : (2 < 4)%nat) by lia.
  assert (Hl : (n_state_of Huov_model <= length (R Example.batch1))%nat) by (vm_compute; lia).
  assert (Hi : (9 < n_state_of Huov_model)%nat) by (vm_compute; lia).
  split; [exact Hv|]. split; [exact Hl|]. split; [exact Hi|].
  exact (@process_is_step_of_each_lane Example.host Huov_model Example.batch1 Example.in1
           Example.garbage1 2%nat 9%nat Hv Hl Hi).
Defined.


